(** * Sanctum Python SDK: wire protocol and session layer

    A shallow embedding of [sanctum_ai/protocol.py] and
    [sanctum_ai/client.py].  Python values that travel on the wire are
    modelled by the type [json]; byte strings by [bytes]; the client object
    by the record [client]; sockets, the file system and the cryptographic
    library by an explicit [world] and an environment [env].  Python
    exceptions are values of type [exn], threaded through a state-and-error
    monad in which the state survives a raise, as attribute assignments do
    in Python. *)

From Stdlib Require Import ZArith NArith List String Ascii Bool Lia Sorted.
Import ListNotations.
Local Open Scope Z_scope.

(* ================================================================== *)
(** ** Bytes and text *)

Definition bytes := list ascii.

Definition len {A : Type} (l : list A) : Z := Z.of_nat (List.length l).

(** [B "..."] plays the role of a Python bytes literal. *)
Definition B (s : string) : bytes := list_ascii_of_string s.

Definition dq : ascii := "034"%char.   (* double quote *)
Definition bsl : ascii := "092"%char.  (* backslash *)

Definition code (c : ascii) : N := N_of_ascii c.

(* ================================================================== *)
(** ** JSON-compatible Python values

    [JNull] is Python's [None]; a [JObj] is a [dict] with string keys, kept
    in insertion order; [JArr] is a [list].  Non-integer numbers are outside
    the model. *)

Unset Elimination Schemes.
Inductive json : Type :=
| JNull
| JBool (b : bool)
| JNum (z : Z)
| JStr (s : string)
| JArr (items : list json)
| JObj (fields : list (string * json)).
Set Elimination Schemes.

Section JsonInd.
Variable P : json -> Prop.
Hypothesis Hnull : P JNull.
Hypothesis Hbool : forall b, P (JBool b).
Hypothesis Hnum : forall z, P (JNum z).
Hypothesis Hstr : forall s, P (JStr s).
Hypothesis Harr : forall l, Forall P l -> P (JArr l).
Hypothesis Hobj : forall m, Forall (fun kv => P (snd kv)) m -> P (JObj m).

Fixpoint json_ind (v : json) : P v :=
  match v with
  | JNull => Hnull
  | JBool b => Hbool b
  | JNum z => Hnum z
  | JStr s => Hstr s
  | JArr l =>
      Harr l ((fix go (l : list json) : Forall P l :=
                 match l with
                 | [] => Forall_nil _
                 | x :: l' => Forall_cons x (json_ind x) (go l')
                 end) l)
  | JObj m =>
      Hobj m ((fix go (m : list (string * json)) :
                 Forall (fun kv => P (snd kv)) m :=
                 match m with
                 | [] => Forall_nil _
                 | kv :: m' =>
                     Forall_cons (P := fun kv => P (snd kv)) kv
                       (json_ind (snd kv)) (go m')
                 end) m)
  end.
End JsonInd.

(** *** Python dictionaries as insertion-ordered association lists *)

Fixpoint dict_get {A : Type} (k : string) (m : list (string * A)) : option A :=
  match m with
  | [] => None
  | (k', v) :: m' => if String.eqb k k' then Some v else dict_get k m'
  end.

(** [d[k] = v]: an existing key keeps its position. *)
Fixpoint dict_set {A : Type} (k : string) (v : A) (m : list (string * A))
  : list (string * A) :=
  match m with
  | [] => [(k, v)]
  | (k', v') :: m' =>
      if String.eqb k k' then (k, v) :: m' else (k', v') :: dict_set k v m'
  end.

(** [dict(pairs)] *)
Definition dict_of_pairs {A : Type} (pairs : list (string * A))
  : list (string * A) :=
  fold_left (fun d kv => dict_set (fst kv) (snd kv) d) pairs [].

Fixpoint keys_unique {A : Type} (m : list (string * A)) : bool :=
  match m with
  | [] => true
  | (k, _) :: m' =>
      match dict_get k m' with
      | Some _ => false
      | None => keys_unique m'
      end
  end.

(** A [json] term denotes a Python value when no dictionary in it repeats
    a key. *)
Fixpoint wf_json (v : json) : bool :=
  match v with
  | JArr l => forallb wf_json l
  | JObj m => keys_unique m && forallb (fun kv => wf_json (snd kv)) m
  | _ => true
  end.

(* ================================================================== *)
(** ** The [json] library: [json.dumps(obj, separators=(",", ":"))] *)

Definition digit_char (d : N) : ascii := ascii_of_N (48 + d).

Fixpoint digits_fuel (fuel : nat) (n : N) : bytes :=
  match fuel with
  | O => []
  | S f =>
      (if (n <? 10)%N then [] else digits_fuel f (n / 10)%N)
        ++ [digit_char (n mod 10)%N]
  end.

(** Decimal digits of [n]; one unit of fuel per bit is more than enough. *)
Definition digits (n : N) : bytes := digits_fuel (S (N.to_nat (N.log2 n))) n.

Definition dec (z : Z) : bytes :=
  if z <? 0 then "-"%char :: digits (Z.abs_N z) else digits (Z.abs_N z).

Definition hex_char (n : N) : ascii :=
  if (n <? 10)%N then ascii_of_N (48 + n) else ascii_of_N (87 + n).

(** [ensure_ascii] escaping: printable ASCII other than the quote and the
    backslash stays; the rest is escaped. *)
Definition escape_char (c : ascii) : bytes :=
  let n := code c in
  if (n =? 34)%N then [bsl; dq]
  else if (n =? 92)%N then [bsl; bsl]
  else if (n =? 10)%N then [bsl; "n"%char]
  else if (n =? 13)%N then [bsl; "r"%char]
  else if (n =? 9)%N then [bsl; "t"%char]
  else if (n =? 8)%N then [bsl; "b"%char]
  else if (n =? 12)%N then [bsl; "f"%char]
  else if ((32 <=? n) && (n <=? 126))%N then [c]
  else [bsl; "u"%char; "0"%char; "0"%char;
        hex_char (n / 16)%N; hex_char (n mod 16)%N].

Fixpoint escape (s : string) : bytes :=
  match s with
  | EmptyString => []
  | String c s' => escape_char c ++ escape s'
  end.

Definition quote (s : string) : bytes := dq :: escape s ++ [dq].

(** Items separated by commas, then the closing bracket. *)
Fixpoint join_items (closing : ascii) (l : list bytes) : bytes :=
  match l with
  | [] => [closing]
  | x :: l' =>
      x ++ match l' with
           | [] => [closing]
           | _ :: _ => ","%char :: join_items closing l'
           end
  end.

Fixpoint dumps (v : json) : bytes :=
  match v with
  | JNull => B "null"
  | JBool true => B "true"
  | JBool false => B "false"
  | JNum z => dec z
  | JStr s => quote s
  | JArr l => "["%char :: join_items "]"%char (map dumps l)
  | JObj m =>
      "{"%char ::
        join_items "}"%char
          (map (fun kv => quote (fst kv) ++ ":"%char :: dumps (snd kv)) m)
  end.

(* ================================================================== *)
(** ** The [json] library: [json.loads]

    A recursive-descent scanner for ASCII JSON text with integer numbers:
    the texts that [dumps] above produces, with optional white space, and
    the escapes of code points below 256.  On such a text [None] stands
    for [json.JSONDecodeError].  The rest of what [json.loads] reads is
    outside the model: numbers with a fraction or an exponent, [NaN] and
    [Infinity], escapes of code points from 256 on, bytes from 128 on
    (UTF-8, a byte-order mark, or invalid UTF-8, for which [json.loads]
    raises [UnicodeDecodeError]).  On those the scanner answers [None],
    and that [None] says nothing of [json.loads]; no statement below takes
    it for a rejection. *)

Definition is_ws (c : ascii) : bool :=
  let n := code c in
  ((n =? 32) || (n =? 9) || (n =? 10) || (n =? 13))%N.

Fixpoint skip_ws (s : bytes) : bytes :=
  match s with
  | c :: s' => if is_ws c then skip_ws s' else s
  | [] => []
  end.

Definition is_digit (c : ascii) : bool :=
  ((48 <=? code c) && (code c <=? 57))%N.

Definition digit_val (c : ascii) : N := (code c - 48)%N.

Definition hex_val (c : ascii) : option N :=
  let n := code c in
  if ((48 <=? n) && (n <=? 57))%N then Some (n - 48)%N
  else if ((97 <=? n) && (n <=? 102))%N then Some (n - 87)%N
  else if ((65 <=? n) && (n <=? 70))%N then Some (n - 55)%N
  else None.

Definition unescape (e : ascii) : option ascii :=
  let n := code e in
  if (n =? 34)%N then Some dq
  else if (n =? 92)%N then Some bsl
  else if (n =? 47)%N then Some "/"%char
  else if (n =? 98)%N then Some "008"%char
  else if (n =? 102)%N then Some "012"%char
  else if (n =? 110)%N then Some "010"%char
  else if (n =? 114)%N then Some "013"%char
  else if (n =? 116)%N then Some "009"%char
  else None.

(** The body of a string, after its opening quote. *)
Fixpoint scanstring (s : bytes) : option (string * bytes) :=
  match s with
  | [] => None
  | c :: s1 =>
      if (code c =? 34)%N then Some (EmptyString, s1)
      else if (code c =? 92)%N then
        match s1 with
        | [] => None
        | e :: s2 =>
            if (code e =? 117)%N then
              match s2 with
              | h1 :: h2 :: h3 :: h4 :: s3 =>
                  match hex_val h1, hex_val h2, hex_val h3, hex_val h4 with
                  | Some a, Some b, Some c', Some d =>
                      let cp := (((a * 16 + b) * 16 + c') * 16 + d)%N in
                      if (cp <? 256)%N then
                        match scanstring s3 with
                        | Some (str, r) => Some (String (ascii_of_N cp) str, r)
                        | None => None
                        end
                      else None
                  | _, _, _, _ => None
                  end
              | _ => None
              end
            else
              match unescape e with
              | Some ch =>
                  match scanstring s2 with
                  | Some (str, r) => Some (String ch str, r)
                  | None => None
                  end
              | None => None
              end
        end
      else if ((code c <? 32) || (127 <? code c))%N then None
      else
        match scanstring s1 with
        | Some (str, r) => Some (String c str, r)
        | None => None
        end
  end.

Fixpoint span_digits (s : bytes) : bytes * bytes :=
  match s with
  | c :: s' =>
      if is_digit c then
        let (d, r) := span_digits s' in (c :: d, r)
      else ([], s)
  | [] => ([], [])
  end.

Definition digits_value (ds : bytes) : N :=
  fold_left (fun acc c => (10 * acc + digit_val c)%N) ds 0%N.

(** The integer part: [0] or a run of digits that does not start with 0. *)
Definition match_uint (s : bytes) : option (N * bytes) :=
  match s with
  | c :: s' =>
      if (code c =? 48)%N then Some (0%N, s')
      else if is_digit c then
        let (ds, r) := span_digits s in Some (digits_value ds, r)
      else None
  | [] => None
  end.

(** A fraction or an exponent follows: the literal is a float. *)
Definition float_tail (r : bytes) : bool :=
  match r with
  | c :: d :: r' =>
      if (code c =? 46)%N then is_digit d
      else if ((code c =? 101) || (code c =? 69))%N then
        if ((code d =? 43) || (code d =? 45))%N then
          match r' with
          | d' :: _ => is_digit d'
          | [] => false
          end
        else is_digit d
      else false
  | _ => false
  end.

Definition match_number (s : bytes) : option (Z * bytes) :=
  let '(neg, s1) :=
    match s with
    | c :: s' => if (code c =? 45)%N then (true, s') else (false, s)
    | [] => (false, s)
    end in
  match match_uint s1 with
  | Some (n, r) =>
      if float_tail r then None
      else Some (if neg then - Z.of_N n else Z.of_N n, r)
  | None => None
  end.

Fixpoint expect (lit s : bytes) : option bytes :=
  match lit with
  | [] => Some s
  | c :: lit' =>
      match s with
      | c' :: s' => if Ascii.eqb c c' then expect lit' s' else None
      | [] => None
      end
  end.

Fixpoint parse_value (fuel : nat) (s : bytes) {struct fuel}
  : option (json * bytes) :=
  match fuel with
  | O => None
  | S f =>
      match s with
      | [] => None
      | c :: s' =>
          if (code c =? 34)%N then
            match scanstring s' with
            | Some (str, r) => Some (JStr str, r)
            | None => None
            end
          else if (code c =? 123)%N then
            match skip_ws s' with
            | c1 :: r1 =>
                if (code c1 =? 125)%N then Some (JObj [], r1)
                else
                  match parse_members f (c1 :: r1) with
                  | Some (pairs, r) => Some (JObj (dict_of_pairs pairs), r)
                  | None => None
                  end
            | [] => None
            end
          else if (code c =? 91)%N then
            match skip_ws s' with
            | c1 :: r1 =>
                if (code c1 =? 93)%N then Some (JArr [], r1)
                else
                  match parse_items f (c1 :: r1) with
                  | Some (vs, r) => Some (JArr vs, r)
                  | None => None
                  end
            | [] => None
            end
          else if (code c =? 110)%N then
            match expect (B "ull") s' with
            | Some r => Some (JNull, r)
            | None => None
            end
          else if (code c =? 116)%N then
            match expect (B "rue") s' with
            | Some r => Some (JBool true, r)
            | None => None
            end
          else if (code c =? 102)%N then
            match expect (B "alse") s' with
            | Some r => Some (JBool false, r)
            | None => None
            end
          else
            match match_number s with
            | Some (z, r) => Some (JNum z, r)
            | None => None
            end
      end
  end

(** Items of a non-empty array, from the first byte of an item. *)
with parse_items (fuel : nat) (s : bytes) {struct fuel}
  : option (list json * bytes) :=
  match fuel with
  | O => None
  | S f =>
      match parse_value f s with
      | Some (v, r) =>
          match skip_ws r with
          | c :: r1 =>
              if (code c =? 44)%N then
                match parse_items f (skip_ws r1) with
                | Some (vs, r2) => Some (v :: vs, r2)
                | None => None
                end
              else if (code c =? 93)%N then Some ([v], r1)
              else None
          | [] => None
          end
      | None => None
      end
  end

(** Members of a non-empty object, from the opening quote of a key. *)
with parse_members (fuel : nat) (s : bytes) {struct fuel}
  : option (list (string * json) * bytes) :=
  match fuel with
  | O => None
  | S f =>
      match s with
      | c :: s1 =>
          if (code c =? 34)%N then
            match scanstring s1 with
            | Some (k, r) =>
                match skip_ws r with
                | c1 :: r1 =>
                    if (code c1 =? 58)%N then
                      match parse_value f (skip_ws r1) with
                      | Some (v, r2) =>
                          match skip_ws r2 with
                          | c2 :: r3 =>
                              if (code c2 =? 44)%N then
                                match parse_members f (skip_ws r3) with
                                | Some (kvs, r4) => Some ((k, v) :: kvs, r4)
                                | None => None
                                end
                              else if (code c2 =? 125)%N then
                                Some ([(k, v)], r3)
                              else None
                          | [] => None
                          end
                      | None => None
                      end
                    else None
                | [] => None
                end
            | None => None
            end
          else None
      | [] => None
      end
  end.

(** [json.loads(data)]: one value between optional white space.  The
    fuel bounds the depth of the descent; a value or a list of items is
    entered at most twice per byte read. *)
Definition loads (data : bytes) : option json :=
  match parse_value (2 * List.length data + 2) (skip_ws data) with
  | Some (v, r) =>
      match skip_ws r with
      | [] => Some v
      | _ :: _ => None
      end
  | None => None
  end.


(* ================================================================== *)
(** ** Python operations on JSON-compatible values *)

(** [bool(v)] *)
Definition py_truthy (v : json) : bool :=
  match v with
  | JNull => false
  | JBool b => b
  | JNum z => negb (z =? 0)
  | JStr s => negb (String.eqb s EmptyString)
  | JArr l => match l with [] => false | _ :: _ => true end
  | JObj m => match m with [] => false | _ :: _ => true end
  end.

(** [a == b]: [True == 1] and [False == 0]; dictionaries compare without
    regard to order. *)
Fixpoint py_eq (a b : json) {struct a} : bool :=
  match a, b with
  | JNull, JNull => true
  | JBool x, JBool y => Bool.eqb x y
  | JBool x, JNum y => (if x then 1 else 0) =? y
  | JNum x, JBool y => x =? (if y then 1 else 0)
  | JNum x, JNum y => x =? y
  | JStr x, JStr y => String.eqb x y
  | JArr l1, JArr l2 =>
      (fix go (l1 l2 : list json) : bool :=
         match l1, l2 with
         | [], [] => true
         | x :: l1', y :: l2' => py_eq x y && go l1' l2'
         | _, _ => false
         end) l1 l2
  | JObj m1, JObj m2 =>
      Nat.eqb (List.length m1) (List.length m2) &&
      (fix go (m1 : list (string * json)) : bool :=
         match m1 with
         | [] => true
         | (k, x) :: m1' =>
             match dict_get k m2 with
             | Some y => py_eq x y
             | None => false
             end && go m1'
         end) m1
  | _, _ => false
  end.

(** [x in l]: every item of the list is compared with [x], the item on
    the left. *)
Definition py_in (x : json) (l : list json) : bool :=
  existsb (fun y => py_eq y x) l.

(** [l.remove(x)]: the first item equal to [x] goes. *)
Fixpoint py_remove (x : json) (l : list json) : list json :=
  match l with
  | [] => []
  | y :: l' => if py_eq y x then l' else y :: py_remove x l'
  end.

(** [l.count(x)] *)
Fixpoint py_count (x : json) (l : list json) : nat :=
  match l with
  | [] => O
  | y :: l' => (if py_eq y x then 1 else 0) + py_count x l'
  end.

(* ================================================================== *)
(** ** Exceptions *)

(** Modelled from the spec: [sanctum_ai/exceptions.py] is not among the
    sources.  The classes are those exported by [sanctum_ai/__init__.py];
    every one of them is a [VaultError] (the examples catch [AccessDenied]
    and [LeaseExpired] ahead of [VaultError]).  An exception carries its
    message and the keyword fields [code], [detail], [suggestion],
    [docs_url] and [context]; a field that is not passed is [None]. *)
Inductive vault_class : Type :=
| VaultError | AuthError | AccessDenied | CredentialNotFound
| VaultLocked | LeaseExpired | RateLimited | SessionExpired.

Record vault_exc : Type := mk_vault_exc {
  exc_class : vault_class;
  exc_message : json;
  exc_code : json;
  exc_detail : json;
  exc_suggestion : json;
  exc_docs_url : json;
  exc_context : json
}.

(** The exceptions of Python and of the libraries that the code lets
    through. *)
Inductive py_exc : Type :=
| KeyError | AttributeError | TypeError | ValueError | OSError
| StructError | JSONDecodeError | CryptoError.

Inductive exn : Type :=
| Vault (e : vault_exc)
| Py (e : py_exc).

(** [cls(message, code=code)] *)
Definition vault_error (cls : vault_class) (message code : string) : exn :=
  Vault (mk_vault_exc cls (JStr message) (JStr code) JNull JNull JNull JNull).

(** Modelled from the spec: the table [CODE_TO_EXCEPTION] of
    [sanctum_ai/exceptions.py], section 4.2 of the specification. *)
Definition CODE_TO_EXCEPTION : list (string * vault_class) :=
  [ ("AUTH_FAILED"%string, AuthError);
    ("ACCESS_DENIED"%string, AccessDenied);
    ("CREDENTIAL_NOT_FOUND"%string, CredentialNotFound);
    ("VAULT_LOCKED"%string, VaultLocked);
    ("LEASE_EXPIRED"%string, LeaseExpired);
    ("RATE_LIMITED"%string, RateLimited);
    ("SESSION_EXPIRED"%string, SessionExpired) ].

(* ================================================================== *)
(** ** A state-and-error monad

    A computation maps a state to an outcome and a new state; the state
    reached when an exception is raised is kept. *)

Inductive result (A : Type) : Type :=
| Ok (a : A)
| Raise (e : exn).
Arguments Ok {A} a.
Arguments Raise {A} e.

Definition M (S A : Type) : Type := S -> result A * S.

Definition ret {S A : Type} (a : A) : M S A := fun s => (Ok a, s).

Definition raise {S A : Type} (e : exn) : M S A := fun s => (Raise e, s).

Definition bind {S A B : Type} (m : M S A) (k : A -> M S B) : M S B :=
  fun s =>
    match m s with
    | (Ok a, s') => k a s'
    | (Raise e, s') => (Raise e, s')
    end.

Definition of_result {S A : Type} (r : result A) : M S A := fun s => (r, s).

Declare Scope monad_scope.
Delimit Scope monad_scope with monad.
Notation "x <- m ;; k" := (bind m (fun x => k))
  (at level 61, m at next level, right associativity) : monad_scope.
Notation "m ;; k" := (bind m (fun _ => k))
  (at level 61, right associativity) : monad_scope.
Local Open Scope monad_scope.

(** [try: m  except VaultError: pass] *)
Definition except_VaultError_pass {S : Type} (m : M S unit) : M S unit :=
  fun s =>
    match m s with
    | (Raise (Vault _), s') => (Ok tt, s')
    | other => other
    end.

(** [d[k]] *)
Definition py_getitem (d : json) (k : string) : result json :=
  match d with
  | JObj m =>
      match dict_get k m with
      | Some v => Ok v
      | None => Raise (Py KeyError)
      end
  | _ => Raise (Py TypeError)
  end.

(** [d.get(k, default)] *)
Definition py_get (d : json) (k : string) (default : json) : result json :=
  match d with
  | JObj m =>
      match dict_get k m with
      | Some v => Ok v
      | None => Ok default
      end
  | _ => Raise (Py AttributeError)
  end.

(* ================================================================== *)
(** ** Hexadecimal text *)

(** [str.isspace], on the code points below 256 *)
Definition is_space (c : ascii) : bool :=
  let n := code c in
  (((9 <=? n) && (n <=? 13)) || ((28 <=? n) && (n <=? 32))
   || (n =? 133) || (n =? 160))%N.

(** The white space that [bytes.fromhex] skips. *)
Definition is_ascii_space (c : ascii) : bool :=
  let n := code c in
  (((9 <=? n) && (n <=? 13)) || (n =? 32))%N.

Fixpoint lstrip (s : list ascii) : list ascii :=
  match s with
  | c :: s' => if is_space c then lstrip s' else s
  | [] => []
  end.

(** [s.strip()] *)
Definition strip (s : string) : string :=
  string_of_list_ascii
    (rev (lstrip (rev (lstrip (list_ascii_of_string s))))).

Fixpoint fromhex_list (s : list ascii) : option bytes :=
  match s with
  | [] => Some []
  | c :: s1 =>
      if is_ascii_space c then fromhex_list s1
      else
        match s1 with
        | d :: s2 =>
            match hex_val c, hex_val d with
            | Some a, Some b =>
                match fromhex_list s2 with
                | Some rest => Some (ascii_of_N (16 * a + b) :: rest)
                | None => None
                end
            | _, _ => None
            end
        | [] => None
        end
  end.

(** [bytes.fromhex(s)]; [None] stands for [ValueError]. *)
Definition fromhex (s : string) : option bytes :=
  fromhex_list (list_ascii_of_string s).

(** [bytes.fromhex(v)] on a value: a non-string raises [TypeError]. *)
Definition py_fromhex (v : json) : result bytes :=
  match v with
  | JStr s =>
      match fromhex s with
      | Some b => Ok b
      | None => Raise (Py ValueError)
      end
  | _ => Raise (Py TypeError)
  end.

(** [b.hex()] *)
Definition hex (b : bytes) : string :=
  string_of_list_ascii
    (flat_map (fun c => [hex_char (code c / 16)%N; hex_char (code c mod 16)%N]) b).

(* ================================================================== *)
(** ** Sockets

    A socket is a handle into the table of the world.  What the peer will
    deliver and whether a transmission succeeds are scripts fixed in
    advance: every behaviour of a peer towards this sequential client is
    one such script.  When the script of a socket is used up, the peer
    has closed its side ([recv] returns no byte) and transmissions succeed.
    The trace records what the client does to its sockets, and each
    request object handed to [send]. *)

Definition handle := nat.

Inductive address : Type :=
| AF_UNIX (path : string)
| AF_INET (host : string) (port : Z).

(** One result of [sock.recv]: a chunk of bytes (the empty chunk is the
    end of the stream) or an [OSError]. *)
Inductive rx_event : Type :=
| RxData (chunk : bytes)
| RxError.

Record sock_state : Type := mk_sock {
  connected : bool;
  closed : bool;
  rx : list rx_event;
  tx : list bool        (* outcomes of the coming [sendall] calls *)
}.

(** The outcome of one [sock.connect]. *)
Inductive dial_outcome : Type :=
| Refused
| Accepted (rx : list rx_event) (tx : list bool).

Inductive event : Type :=
| EvConnect (h : handle) (a : address)
| EvRequest (h : handle) (obj : json)
| EvSendall (h : handle) (data : bytes)
| EvRecv (h : handle) (bufsize : Z)
| EvClose (h : handle).

Record world : Type := mk_world {
  socks : list sock_state;
  dial : list dial_outcome;
  trace : list event
}.

Definition log (e : event) : M world unit :=
  fun w => (Ok tt, mk_world (socks w) (dial w) (trace w ++ [e])).

Fixpoint list_set {A : Type} (n : nat) (x : A) (l : list A) : list A :=
  match l, n with
  | [], _ => []
  | _ :: l', O => x :: l'
  | y :: l', S n' => y :: list_set n' x l'
  end.

Definition set_sock_state (h : handle) (st : sock_state) : M world unit :=
  fun w => (Ok tt, mk_world (list_set h st (socks w)) (dial w) (trace w)).

(** A socket that can transfer data: present, connected, not closed. *)
Definition usable (w : world) (h : handle) : option sock_state :=
  match nth_error (socks w) h with
  | Some st => if connected st && negb (closed st) then Some st else None
  | None => None
  end.

(** [socket.socket(family, socket.SOCK_STREAM)] *)
Definition socket_socket : M world handle :=
  fun w =>
    (Ok (List.length (socks w)),
     mk_world (socks w ++ [mk_sock false false [] []]) (dial w) (trace w)).

(** [sock.connect(address)] *)
Definition sock_connect (h : handle) (a : address) : M world unit :=
  log (EvConnect h a) ;;
  fun w =>
    match dial w with
    | Accepted r t :: rest =>
        (Ok tt,
         mk_world (list_set h (mk_sock true false r t) (socks w)) rest (trace w))
    | Refused :: rest => (Raise (Py OSError), mk_world (socks w) rest (trace w))
    | [] => (Raise (Py OSError), w)
    end.

(** [sock.sendall(data)] *)
Definition sock_sendall (h : handle) (data : bytes) : M world unit :=
  log (EvSendall h data) ;;
  fun w =>
    match usable w h with
    | Some st =>
        match tx st with
        | false :: t =>
            (Raise (Py OSError),
             mk_world (list_set h (mk_sock true false (rx st) t) (socks w))
               (dial w) (trace w))
        | true :: t =>
            (Ok tt,
             mk_world (list_set h (mk_sock true false (rx st) t) (socks w))
               (dial w) (trace w))
        | [] => (Ok tt, w)
        end
    | None => (Raise (Py OSError), w)
    end.

(** [sock.recv(bufsize)] *)
Definition sock_recv (h : handle) (bufsize : Z) : M world bytes :=
  log (EvRecv h bufsize) ;;
  fun w =>
    match usable w h with
    | Some st =>
        let put r :=
          mk_world (list_set h (mk_sock true false r (tx st)) (socks w))
            (dial w) (trace w) in
        match rx st with
        | RxData chunk :: r =>
            if len chunk <=? bufsize then (Ok chunk, put r)
            else
              (Ok (firstn (Z.to_nat bufsize) chunk),
               put (RxData (skipn (Z.to_nat bufsize) chunk) :: r))
        | RxError :: r => (Raise (Py OSError), put r)
        | [] => (Ok [], w)
        end
    | None => (Raise (Py OSError), w)
    end.

(** [sock.close()] *)
Definition sock_close (h : handle) : M world unit :=
  log (EvClose h) ;;
  fun w =>
    match nth_error (socks w) h with
    | Some st =>
        (Ok tt,
         mk_world (list_set h (mk_sock (connected st) true (rx st) (tx st))
                     (socks w)) (dial w) (trace w))
    | None => (Ok tt, w)
    end.

(* ================================================================== *)
(** ** [sanctum_ai/protocol.py] *)

Definition MAX_MESSAGE_SIZE : Z := 4 * 1024 * 1024.

Definition byte_of (z : Z) : ascii := ascii_of_N (Z.to_N (z mod 256)).

(** [struct.pack(">I", n)] *)
Definition pack_u32 (n : Z) : result bytes :=
  if (0 <=? n) && (n <? 4294967296) then
    Ok [byte_of (n / 16777216); byte_of (n / 65536); byte_of (n / 256); byte_of n]
  else Raise (Py StructError).

(** [struct.unpack(">I", b)[0]], for four bytes [b] *)
Definition unpack_u32 (b : bytes) : Z :=
  fold_left (fun acc c => acc * 256 + Z.of_N (code c)) b 0.

Definition too_large : exn :=
  vault_error VaultError "Response too large" "INTERNAL_ERROR".
Definition connection_closed : exn :=
  vault_error VaultError "Connection closed" "INTERNAL_ERROR".
Definition incomplete_header : exn :=
  vault_error VaultError "Incomplete frame header" "INTERNAL_ERROR".
Definition incomplete_body : exn :=
  vault_error VaultError "Incomplete frame body" "INTERNAL_ERROR".
Definition not_connected : exn :=
  vault_error VaultError "Not connected" "INTERNAL_ERROR".
Definition not_confirmed : exn :=
  vault_error AuthError "Authentication not confirmed" "AUTH_FAILED".

Definition send (sock : handle) (obj : json) : M world unit :=
  log (EvRequest sock obj) ;;
  let payload := dumps obj in
  header <- of_result (pack_u32 (len payload)) ;;
  sock_sendall sock (header ++ payload).

(** The loop of [_read_exact]; every turn adds a byte or more to [buf], so
    [n] turns are enough. *)
Fixpoint read_loop (fuel : nat) (sock : handle) (n : Z) (buf : bytes)
  : M world bytes :=
  if len buf <? n then
    match fuel with
    | O => ret buf
    | S fuel' =>
        chunk <- sock_recv sock (n - len buf) ;;
        match chunk with
        | [] => raise connection_closed
        | _ :: _ => read_loop fuel' sock n (buf ++ chunk)
        end
    end
  else ret buf.

Definition _read_exact (sock : handle) (n : Z) : M world bytes :=
  read_loop (Z.to_nat n) sock n [].

Definition py_loads (data : bytes) : result json :=
  match loads data with
  | Some v => Ok v
  | None => Raise (Py JSONDecodeError)
  end.

Definition recv (sock : handle) : M world json :=
  header <- _read_exact sock 4 ;;
  let length := unpack_u32 header in
  if length >? MAX_MESSAGE_SIZE then raise too_large
  else
    body <- _read_exact sock length ;;
    of_result (py_loads body).

(** [CODE_TO_EXCEPTION.get(code, VaultError)]: a list or a dictionary is
    not hashable. *)
Definition exception_class (code : json) : result vault_class :=
  match code with
  | JStr c =>
      match dict_get c CODE_TO_EXCEPTION with
      | Some cls => Ok cls
      | None => Ok VaultError
      end
  | JArr _ | JObj _ => Raise (Py TypeError)
  | _ => Ok VaultError
  end.

Definition dict_get_default (k : string) (m : list (string * json))
  (default : json) : json :=
  match dict_get k m with
  | Some v => v
  | None => default
  end.

Definition raise_on_error (resp : json) : result unit :=
  match py_get resp "error" JNull with
  | Raise e => Raise e
  | Ok JNull => Ok tt
  | Ok (JStr err) =>
      Raise (Vault (mk_vault_exc VaultError (JStr err) JNull JNull JNull JNull JNull))
  | Ok (JObj err) =>
      let code := dict_get_default "code" err (JStr "INTERNAL_ERROR") in
      match exception_class code with
      | Raise e => Raise e
      | Ok cls =>
          Raise (Vault (mk_vault_exc cls
                          (dict_get_default "message" err (JStr "Unknown error"))
                          code
                          (dict_get_default "detail" err JNull)
                          (dict_get_default "suggestion" err JNull)
                          (dict_get_default "docs_url" err JNull)
                          (dict_get_default "context" err (JObj []))))
      end
  | Ok _ => Raise (Py AttributeError)
  end.

Definition encode_frame (obj : json) : result bytes :=
  let payload := dumps obj in
  match pack_u32 (len payload) with
  | Ok header => Ok (header ++ payload)
  | Raise e => Raise e
  end.

Definition decode_frame (data : bytes) : result (json * bytes) :=
  if len data <? 4 then Raise incomplete_header
  else
    let length := unpack_u32 (firstn 4 data) in
    if len data <? 4 + length then Raise incomplete_body
    else
      match py_loads (firstn (Z.to_nat length) (skipn 4 data)) with
      | Ok obj => Ok (obj, skipn (Z.to_nat (4 + length)) data)
      | Raise e => Raise e
      end.

(* ================================================================== *)
(** ** The environment of the client: files and cryptography *)

Record env : Type := mk_env {
  expanduser : string -> string;               (* [os.path.expanduser] *)
  files : string -> option string;             (* text of a readable file *)
  path_exists : string -> bool;                (* [os.path.exists] *)
  pbkdf2_hmac_sha256 : bytes -> bytes -> bytes; (* passphrase, salt; 100000 rounds, 32 bytes *)
  secretbox_decrypt : bytes -> bytes -> bytes -> option bytes; (* key, ciphertext, nonce *)
  ed25519_sign : bytes -> bytes -> bytes;      (* seed, message: the signature *)
  decode_utf8_replace : bytes -> string        (* [b.decode("utf-8", errors="replace")] *)
}.

(** [os.path.join(a, b)] on POSIX *)
Definition path_join (a b : string) : string :=
  match b with
  | String "/"%char _ => b
  | _ =>
      match rev (list_ascii_of_string a) with
      | [] => b
      | "/"%char :: _ => (a ++ b)%string
      | _ :: _ => (a ++ "/" ++ b)%string
      end
  end.

(** [open(path, "r").read()] *)
Definition read_text (E : env) (path : string) : result string :=
  match files E path with
  | Some text => Ok text
  | None => Raise (Py OSError)
  end.

(** [nacl.signing.SigningKey(seed)]: the seed must have 32 bytes. *)
Definition SigningKey (seed : bytes) : result bytes :=
  if len seed =? 32 then Ok seed else Raise (Py ValueError).

(** [SecretBox(key).decrypt(ciphertext, nonce)]: the nonce must have 24
    bytes; a failed authentication of the ciphertext is a [CryptoError]. *)
Definition SecretBox_decrypt (E : env) (key ct nonce : bytes) : result bytes :=
  if len nonce =? 24 then
    match secretbox_decrypt E key ct nonce with
    | Some plain => Ok plain
    | None => Raise (Py CryptoError)
    end
  else Raise (Py ValueError).

(* ================================================================== *)
(** ** [sanctum_ai/client.py] *)

Record client : Type := mk_client {
  agent_name : string;
  _socket_path : option string;
  _host : option string;
  _port : option Z;
  _key_path : option string;
  _passphrase : option string;
  _sock : option handle;
  _session_id : json;
  _req_id : Z;
  _leases : list json
}.

Definition DEFAULT_SOCKET : string := "~/.sanctum/vault.sock".
Definition DEFAULT_KEY_DIR : string := "~/.sanctum/keys".

Definition __init__ (agent_name : string) (socket_path host : option string)
  (port : option Z) (key_path passphrase : option string) : client :=
  mk_client agent_name socket_path host port key_path passphrase
    None JNull 0 [].

(** The client object together with the world it acts on. *)
Record state : Type := mk_state {
  self : client;
  wd : world
}.

Definition lift {A : Type} (m : M world A) : M state A :=
  fun s =>
    let (r, w') := m (wd s) in (r, mk_state (self s) w').

Definition get_self : M state client := fun s => (Ok (self s), s).

Definition set_self (c : client) : M state unit :=
  fun s => (Ok tt, mk_state c (wd s)).

Definition with_target (c : client) (socket_path host : option string)
  (port : option Z) : client :=
  mk_client (agent_name c) socket_path host port (_key_path c) (_passphrase c)
    (_sock c) (_session_id c) (_req_id c) (_leases c).

Definition with_sock (c : client) (sock : option handle) : client :=
  mk_client (agent_name c) (_socket_path c) (_host c) (_port c) (_key_path c)
    (_passphrase c) sock (_session_id c) (_req_id c) (_leases c).

Definition with_session_id (c : client) (sid : json) : client :=
  mk_client (agent_name c) (_socket_path c) (_host c) (_port c) (_key_path c)
    (_passphrase c) (_sock c) sid (_req_id c) (_leases c).

Definition with_req_id (c : client) (n : Z) : client :=
  mk_client (agent_name c) (_socket_path c) (_host c) (_port c) (_key_path c)
    (_passphrase c) (_sock c) (_session_id c) n (_leases c).

Definition with_leases (c : client) (l : list json) : client :=
  mk_client (agent_name c) (_socket_path c) (_host c) (_port c) (_key_path c)
    (_passphrase c) (_sock c) (_session_id c) (_req_id c) l.

(** *** RPC *)

Definition _next_id : M state Z :=
  c <- get_self ;;
  set_self (with_req_id c (_req_id c + 1)) ;;
  ret (_req_id c + 1).

Definition request (id : Z) (method : string) (params : json) : json :=
  JObj [("id"%string, JNum id); ("method"%string, JStr method);
        ("params"%string, params)].

Definition _call (method : string) (params : json) : M state json :=
  c <- get_self ;;
  match _sock c with
  | None => raise not_connected
  | Some sock =>
      id <- _next_id ;;
      lift (send sock (request id method params)) ;;
      resp <- lift (recv sock) ;;
      of_result (raise_on_error resp) ;;
      of_result (py_get resp "result" (JObj []))
  end.

(** *** Authentication *)

Definition _load_signing_key (E : env) (path : string) : result bytes :=
  match read_text E path with
  | Raise e => Raise e
  | Ok text =>
      match fromhex (strip text) with
      | None => Raise (Py ValueError)
      | Some seed =>
          if negb (len seed =? 32) then
            Raise (vault_error AuthError
                     ("Key file has " ++ string_of_list_ascii (dec (len seed))
                        ++ " bytes, expected 32") "AUTH_FAILED")
          else SigningKey seed
      end
  end.

Definition _load_encrypted_key (E : env) (path passphrase : string)
  : result bytes :=
  match read_text E path with
  | Raise e => Raise e
  | Ok text =>
      match fromhex (strip text) with
      | None => Raise (Py ValueError)
      | Some blob =>
          let salt := firstn 16 blob in
          let nonce := firstn 24 (skipn 16 blob) in
          let ct := skipn 40 blob in
          let dk := pbkdf2_hmac_sha256 E (B passphrase) salt in
          match SecretBox_decrypt E dk ct nonce with
          | Raise e => Raise e
          | Ok seed => SigningKey seed
          end
      end
  end.

Definition str_truthy (s : option string) : bool :=
  match s with
  | Some (String _ _) => true
  | _ => false
  end.

Definition _resolve_key (E : env) (c : client) : result bytes :=
  if str_truthy (_key_path c) then
    match _key_path c with
    | Some kp => _load_signing_key E (expanduser E kp)
    | None => Raise (Py TypeError)
    end
  else
    let base := expanduser E DEFAULT_KEY_DIR in
    let enc := path_join base (agent_name c ++ ".key.enc") in
    let plain := path_join base (agent_name c ++ ".key") in
    match path_exists E enc, _passphrase c with
    | true, Some (String a p) => _load_encrypted_key E enc (String a p)
    | _, _ => _load_signing_key E plain
    end.

Definition _authenticate (E : env) : M state unit :=
  c <- get_self ;;
  sk <- of_result (_resolve_key E c) ;;
  r <- _call "authenticate" (JObj [("agent_name"%string, JStr (agent_name c))]) ;;
  sid <- of_result (py_getitem r "session_id") ;;
  c <- get_self ;;
  set_self (with_session_id c sid) ;;
  ch <- of_result (py_getitem r "challenge") ;;
  challenge <- of_result (py_fromhex ch) ;;
  let sig := ed25519_sign E sk challenge in
  c <- get_self ;;
  r <- _call "challenge_response"
         (JObj [("session_id"%string, _session_id c);
                ("signature"%string, JStr (hex sig))]) ;;
  a <- of_result (py_get r "authenticated" JNull) ;;
  if negb (py_truthy a) then raise not_confirmed else ret tt.

(** *** Life cycle *)

(** The override accepted by [connect]: a socket path, or a host and a
    port given as a dictionary, a tuple or a list. *)
Inductive target : Type :=
| TargetPath (path : string)
| TargetHostPort (host : string) (port : Z).

Definition port_truthy (p : option Z) : bool :=
  match p with
  | Some z => negb (z =? 0)
  | None => false
  end.

Definition connect (E : env) (tgt : option target) : M state unit :=
  c <- get_self ;;
  match tgt with
  | Some (TargetPath p) => set_self (with_target c (Some p) None (_port c))
  | Some (TargetHostPort h p) => set_self (with_target c None (Some h) (Some p))
  | None => ret tt
  end ;;
  c <- get_self ;;
  (if str_truthy (_host c) && port_truthy (_port c) then
     match _host c, _port c with
     | Some h, Some p =>
         sock <- lift socket_socket ;;
         set_self (with_sock c (Some sock)) ;;
         lift (sock_connect sock (AF_INET h p))
     | _, _ => raise (Py TypeError)
     end
   else
     let path :=
       expanduser E
         (if str_truthy (_socket_path c) then
            match _socket_path c with Some p => p | None => DEFAULT_SOCKET end
          else DEFAULT_SOCKET) in
     sock <- lift socket_socket ;;
     set_self (with_sock c (Some sock)) ;;
     lift (sock_connect sock (AF_UNIX path))) ;;
  _authenticate E.

Definition release_lease (lease_id : json) : M state unit :=
  _call "release_lease" (JObj [("lease_id"%string, lease_id)]) ;;
  c <- get_self ;;
  if py_in lease_id (_leases c) then
    set_self (with_leases c (py_remove lease_id (_leases c)))
  else ret tt.

Fixpoint release_each (lids : list json) : M state unit :=
  match lids with
  | [] => ret tt
  | lid :: rest =>
      except_VaultError_pass (release_lease lid) ;;
      release_each rest
  end.

Definition close : M state unit :=
  c <- get_self ;;
  release_each (_leases c) ;;
  c <- get_self ;;
  match _sock c with
  | Some sock =>
      lift (sock_close sock) ;;
      c <- get_self ;;
      set_self (with_sock c None)
  | None => ret tt
  end ;;
  c <- get_self ;;
  set_self (with_session_id c JNull).

Definition __enter__ (E : env) : M state unit := connect E None.

Definition __exit__ : M state bool := close ;; ret false.

(** *** Operations *)

Definition retrieve_params (c : client) (path : string) (ttl : option Z) : json :=
  JObj (match ttl with
        | Some t =>
            [("session_id"%string, _session_id c); ("path"%string, JStr path);
             ("ttl"%string, JNum t)]
        | None =>
            [("session_id"%string, _session_id c); ("path"%string, JStr path)]
        end).

Definition retrieve (E : env) (path : string) (ttl : option Z) : M state string :=
  c <- get_self ;;
  r <- _call "retrieve" (retrieve_params c path ttl) ;;
  lid <- of_result (py_getitem r "lease_id") ;;
  c <- get_self ;;
  set_self (with_leases c (_leases c ++ [lid])) ;;
  v <- of_result (py_getitem r "value") ;;
  raw <- of_result (py_fromhex v) ;;
  ret (decode_utf8_replace E raw).

Definition retrieve_raw (path : string) (ttl : option Z) : M state json :=
  c <- get_self ;;
  r <- _call "retrieve" (retrieve_params c path ttl) ;;
  lid <- of_result (py_getitem r "lease_id") ;;
  c <- get_self ;;
  set_self (with_leases c (_leases c ++ [lid])) ;;
  ret r.

Definition list_ : M state json :=
  c <- get_self ;;
  r <- _call "list" (JObj [("session_id"%string, _session_id c)]) ;;
  of_result (py_get r "credentials" (JArr [])).

Definition use (path operation : string) (params : option json) : M state json :=
  c <- get_self ;;
  _call "use"
    (JObj ([("session_id"%string, _session_id c); ("path"%string, JStr path);
            ("operation"%string, JStr operation)]
             ++ match params with
                | Some p => if py_truthy p then [("params"%string, p)] else []
                | None => []
                end)).
(* ================================================================== *)
(** ** Auxiliary notions used in the statements *)

(** What may follow a number without being read as part of it. *)
Definition num_safe (rest : bytes) : bool :=
  match rest with
  | [] => true
  | c :: _ =>
      negb (is_digit c) &&
      negb ((code c =? 46) || (code c =? 101) || (code c =? 69))%N
  end.

Fixpoint size (v : json) : nat :=
  match v with
  | JArr l => S (list_sum (map (fun x => S (size x)) l))
  | JObj m => S (list_sum (map (fun kv => S (size (snd kv))) m))
  | _ => 1
  end.

(** The round-trip property of one value, for every fuel that covers its
    size and every continuation that cannot extend a number. *)
Definition rt (v : json) : Prop :=
  wf_json v = true ->
  forall f rest, (size v <= f)%nat -> num_safe rest = true ->
    parse_value f (dumps v ++ rest) = Some (v, rest).

Definition dump_member (kv : string * json) : bytes :=
  quote (fst kv) ++ ":"%char :: dumps (snd kv).


(** *** Observations on the trace and on the sockets *)

(** The requests handed to [send], oldest first. *)
Fixpoint requests (t : list event) : list (handle * json) :=
  match t with
  | [] => []
  | EvRequest h obj :: t' => (h, obj) :: requests t'
  | _ :: t' => requests t'
  end.

(** The sockets on which [close] was called, oldest first. *)
Fixpoint closes (t : list event) : list handle :=
  match t with
  | [] => []
  | EvClose h :: t' => h :: closes t'
  | _ :: t' => closes t'
  end.

Definition closed_in (ss : list sock_state) (h : handle) : bool :=
  match nth_error ss h with
  | Some st => closed st
  | None => false
  end.

Definition is_closed (w : world) (h : handle) : bool := closed_in (socks w) h.

(** What a step of the client did to the world: the requests it issued,
    no call of [close], and no socket closed by other means. *)
Definition Step (reqs : list (handle * json)) (w w' : world) : Prop :=
  requests (trace w') = requests (trace w) ++ reqs /\
  closes (trace w') = closes (trace w) /\
  (forall h, is_closed w' h = true -> is_closed w h = true).

(** The bytes a peer has sent and the client has not read yet. *)
Fixpoint stream (r : list rx_event) : bytes :=
  match r with
  | RxData chunk :: r' => chunk ++ stream r'
  | RxError :: r' => stream r'
  | [] => []
  end.

Definition unread (w : world) (h : handle) : bytes :=
  match nth_error (socks w) h with
  | Some st => stream (rx st)
  | None => []
  end.

(** The [id] field of a request. *)
Definition request_id (obj : json) : Z :=
  match py_getitem obj "id" with
  | Ok (JNum n) => n
  | _ => 0
  end.

Definition request_ids (t : list event) : list Z :=
  map (fun hr => request_id (snd hr)) (requests t).

(** [n + 1], ..., [n + k] *)
Fixpoint ids_from (n : Z) (k : nat) : list Z :=
  match k with
  | O => []
  | S k' => (n + 1) :: ids_from (n + 1) k'
  end.

(** The request that releases the lease [lid], when the last identifier
    used is [n]. *)
Definition release_request (n : Z) (lid : json) : json :=
  request (n + 1) "release_lease" (JObj [("lease_id"%string, lid)]).

(** The requests by which [close] releases the leases [lids] on the socket
    [h], one after the other. *)
Fixpoint release_requests (h : handle) (n : Z) (lids : list json)
  : list (handle * json) :=
  match lids with
  | [] => []
  | lid :: rest => (h, release_request n lid) :: release_requests h (n + 1) rest
  end.

(** A step of the client that issued the requests [reqs] on the socket
    [sk], numbered from its counter, and closed nothing. *)
Definition Rpc (sk : option handle) (reqs : list (handle * json))
  (s s' : state) : Prop :=
  Step reqs (wd s) (wd s') /\
  _req_id (self s') = _req_id (self s) + len reqs /\
  map (fun hr => request_id (snd hr)) reqs
  = ids_from (_req_id (self s)) (List.length reqs) /\
  Forall (fun hr => sk = Some (fst hr)) reqs.

(** *** The calls a program makes on one client object *)

Inductive api_call : Type :=
| Connect (tgt : option target)
| Close
| Retrieve (path : string) (ttl : option Z)
| RetrieveRaw (path : string) (ttl : option Z)
| ListCredentials
| ReleaseLease (lease_id : json)
| Use (path operation : string) (params : option json).

(** The state after a call, whether it returned or raised. *)
Definition perform (E : env) (c : api_call) (s : state) : state :=
  match c with
  | Connect tgt => snd (connect E tgt s)
  | Close => snd (close s)
  | Retrieve path ttl => snd (retrieve E path ttl s)
  | RetrieveRaw path ttl => snd (retrieve_raw path ttl s)
  | ListCredentials => snd (list_ s)
  | ReleaseLease lid => snd (release_lease lid s)
  | Use path operation params => snd (use path operation params s)
  end.

Definition session_after (E : env) (calls : list api_call) (s : state) : state :=
  fold_left (fun s c => perform E c s) calls s.

(** The identifiers of the requests issued on the socket [h]. *)
Definition request_ids_on (h : handle) (t : list event) : list Z :=
  map (fun hr => request_id (snd hr))
    (filter (fun hr => Nat.eqb (fst hr) h) (requests t)).

(** The requests of a step carry the identifiers that follow the counter,
    and the counter has moved past them. *)
Definition Numbered (s s' : state) : Prop :=
  exists k : nat,
    _req_id (self s') = _req_id (self s) + Z.of_nat k /\
    request_ids (trace (wd s')) =
    request_ids (trace (wd s)) ++ ids_from (_req_id (self s)) k.

(** *** The loop of [close], in the words of the claim

    The tracked leases are released one after the other.  A release that
    returns, or that raises an error of the [VaultError] family, is
    followed by the release of the next lease, from the state it left.  A
    release that raises an error of another kind ends the loop at once
    with that error: the leases that follow are not attempted. *)
Inductive Releases : list json -> state -> result unit -> state -> Prop :=
| Releases_done (s : state) :
    Releases [] s (Ok tt) s
| Releases_released (lid : json) (rest : list json) (s s1 : state)
    (r : result unit) (s' : state) :
    release_lease lid s = (Ok tt, s1) ->
    Releases rest s1 r s' ->
    Releases (lid :: rest) s r s'
| Releases_swallowed (lid : json) (rest : list json) (s : state)
    (v : vault_exc) (s1 : state) (r : result unit) (s' : state) :
    release_lease lid s = (Raise (Vault v), s1) ->
    Releases rest s1 r s' ->
    Releases (lid :: rest) s r s'
| Releases_stopped (lid : json) (rest : list json) (s : state) (p : py_exc)
    (s1 : state) :
    release_lease lid s = (Raise (Py p), s1) ->
    Releases (lid :: rest) s (Raise (Py p)) s1.

(** What [close] does once the loop has ended with [r0] in the state
    [s0]: an error of the loop is the outcome of [close] and nothing more
    is done; otherwise [close] is called on the socket stored, if any, and
    the socket and the session identifier are cleared. *)
Definition Disconnects (r0 : result unit) (s0 : state) (r : result unit)
  (s' : state) : Prop :=
  match r0 with
  | Raise e => r = Raise e /\ s' = s0
  | Ok _ =>
      r = Ok tt /\
      self s' = with_session_id (with_sock (self s0) None) JNull /\
      wd s' = match _sock (self s0) with
              | Some h => snd (sock_close h (wd s0))
              | None => wd s0
              end
  end.

(** A computation that leaves an observation of the state as it was. *)
Definition preserves {S A X : Type} (obs : S -> X) (m : M S A) : Prop :=
  forall s, obs (snd (m s)) = obs s.

(** The number of sockets created so far. *)
Definition sockets (w : world) : nat := List.length (socks w).
(* ================================================================== *)
(** ** Concrete environments and peers, used to run the model *)

Definition key_hex : string :=
  "000102030405060708090a0b0c0d0e0f101112131415161718191a1b1c1d1e1f".

(** The files of the toy environment: one plain key file for the agent
    [bot], two malformed key files, and an encrypted blob for the agent
    [enc]. *)
Definition toy_files (p : string) : option string :=
  if String.eqb p "~/.sanctum/keys/bot.key" then Some (key_hex ++ String "010" EmptyString)%string
  else if String.eqb p "/keys/short.key" then Some "00ff"%string
  else if String.eqb p "/keys/garbled.key" then Some "zz"%string
  else if String.eqb p "~/.sanctum/keys/enc.key.enc" then Some (key_hex ++ key_hex)%string
  else None.

(** A toy environment: the files above, all readable, an encrypted blob
    that no passphrase opens, and a signature function that returns the
    message. *)
Definition toy_env : env :=
  mk_env
    (fun p => p)
    toy_files
    (fun p => match toy_files p with Some _ => true | None => false end)
    (fun _ _ => repeat "000"%char 32)
    (fun _ _ _ => None)
    (fun _ msg => msg)
    string_of_list_ascii.

(** The frame that carries [v]. *)
Definition frame (v : json) : bytes :=
  match encode_frame v with
  | Ok f => f
  | Raise _ => []
  end.

Definition result_frame (id : Z) (r : json) : rx_event :=
  RxData (frame (JObj [("id"%string, JNum id); ("result"%string, r)])).

Definition error_frame (id : Z) (e : json) : rx_event :=
  RxData (frame (JObj [("id"%string, JNum id); ("error"%string, e)])).

Definition challenge_frame (id : Z) : rx_event :=
  result_frame id (JObj [("session_id"%string, JStr "sess-1");
                         ("challenge"%string, JStr "00ff")]).

Definition verdict_frame (id : Z) (ok : bool) : rx_event :=
  result_frame id (JObj [("authenticated"%string, JBool ok)]).

Definition bot : client := __init__ "bot" None None None None None.

(** A world with no socket yet, in which the coming connections are
    answered as listed. *)
Definition fresh_world (peers : list dial_outcome) : world := mk_world [] peers [].

(** A payload whose encoding has [n + 10] bytes. *)
Definition padding (n : nat) : string := string_of_list_ascii (repeat "a"%char n).
Definition bulky (n : nat) : json := JObj [("pad"%string, JStr (padding n))].

(** A client whose transport is the connected socket 0, on which the peer
    will deliver [inbox]. *)
Definition plugged (c : client) (inbox : list rx_event) (outcomes : list bool)
  : state :=
  mk_state (with_sock c (Some O))
    (mk_world [mk_sock true false inbox outcomes] [] []).

(** A peer that answers the handshake and does not confirm it. *)
Definition refusing_peer : dial_outcome :=
  Accepted [challenge_frame 1; verdict_frame 2 false] [].

(** A peer that confirms the handshake whose first request has the
    identifier [n + 1]. *)
Definition accepting_peer (n : Z) : dial_outcome :=
  Accepted [challenge_frame (n + 1); verdict_frame (n + 2) true] [].

Definition lease_result (lid : string) : json :=
  JObj [("lease_id"%string, JStr lid); ("value"%string, JStr "736563726574");
        ("ttl"%string, JNum 300)].

(** An authenticated client that tracks the leases [lids]. *)
Definition leasing (lids : list json) (inbox : list rx_event)
  (outcomes : list bool) : state :=
  plugged
    (with_leases (with_req_id (with_session_id bot (JStr "sess-1")) 2) lids)
    inbox outcomes.

Definition expired : json :=
  JObj [("code"%string, JStr "LEASE_EXPIRED"); ("message"%string, JStr "gone")].

Definition denied : json :=
  JObj [("code"%string, JStr "ACCESS_DENIED"); ("message"%string, JStr "m");
        ("detail"%string, JStr "d"); ("suggestion"%string, JStr "s")].

(** An unconnected client in front of a peer that will not confirm the
    handshake. *)
Definition bot_start : state := mk_state bot (fresh_world [refusing_peer]).

(** The same handshake, on a transport that is already open. *)
Definition bot_refused : state :=
  plugged bot [challenge_frame 1; verdict_frame 2 false] [].

(** A lease is tracked, and the socket carries the two requests of the
    handshake and fails at the third transmission. *)
Definition bot_refused_leasing : state :=
  plugged (with_leases bot [JStr "L1"])
    [challenge_frame 1; verdict_frame 2 false] [true; true; false].

(** The same client before it connects, the lease carried over from an
    earlier connection. *)
Definition bot_start_leasing : state :=
  mk_state (with_leases bot [JStr "L1"])
    (fresh_world [Accepted [challenge_frame 1; verdict_frame 2 false]
                    [true; true; false]]).

Definition toy_seed : bytes :=
  match fromhex key_hex with
  | Some b => b
  | None => []
  end.

Definition challenge_result : json :=
  JObj [("session_id"%string, JStr "sess-1"); ("challenge"%string, JStr "00ff")].

(** The states that the refused handshake goes through. *)
Definition refused_1 : state :=
  snd (_call "authenticate" (JObj [("agent_name"%string, JStr "bot")]) bot_refused).

Definition refused_2 : state :=
  snd (_call "challenge_response"
         (JObj [("session_id"%string, JStr "sess-1");
                ("signature"%string, JStr "00ff")])
         (mk_state (with_session_id (self refused_1) (JStr "sess-1")) (wd refused_1))).

(** Two leases are tracked and the connection is broken: the coming
    [sendall] raises [OSError]. *)
Definition broken_pipe : state := leasing [JStr "L1"; JStr "L2"] [] [false].

(** Two leases are tracked; the vault answers the first release with a
    [LEASE_EXPIRED] error and the second with a result. *)
Definition draining : state :=
  leasing [JStr "L1"; JStr "L2"]
    [error_frame 3 expired; result_frame 4 (JObj [])] [].

(** The vault hands out the lease identifier [L] twice, then accepts one
    release. *)
Definition double_lease : state :=
  leasing []
    [result_frame 3 (lease_result "L"); result_frame 4 (lease_result "L");
     result_frame 5 (JObj [])] [].

Definition double_lease_1 : state :=
  snd (retrieve_raw "db/password" None double_lease).

Definition double_lease_2 : state :=
  snd (retrieve toy_env "db/password" None double_lease_1).

Definition double_lease_3 : state :=
  snd (release_lease (JStr "L") double_lease_2).

(** One lease, released once; the lease [M] was never tracked. *)
Definition single_lease : state :=
  leasing []
    [result_frame 3 (lease_result "L"); result_frame 4 (JObj []);
     result_frame 5 (JObj [])] [].

Definition single_lease_1 : state :=
  snd (retrieve_raw "db/password" None single_lease).

Definition single_lease_2 : state :=
  snd (release_lease (JStr "L") single_lease_1).

Definition single_lease_3 : state :=
  snd (release_lease (JStr "M") single_lease_2).

(** A peer that announces a message of five mebibytes. *)
Definition oversize_header : bytes := ["000"%char; "080"%char; "000"%char; "000"%char].

Definition flooded : world :=
  mk_world [mk_sock true false [RxData (oversize_header ++ B "junk")] []] [] [].

(** Connect, close, and connect again, to peers that confirm. *)
Definition reconnected : state :=
  session_after toy_env [Connect None; Close; Connect None]
    (mk_state bot (fresh_world [accepting_peer 0; accepting_peer 2])).

(** Clients that differ in where their key comes from. *)
Definition bot_with_key (path : string) : client :=
  __init__ "bot" None None None (Some path) None.

Definition enc_with_passphrase : client :=
  __init__ "enc" None None None None (Some "guess"%string).


(* ================================================================== *)
(** ** Further notions used in the statements *)

(** A byte that is a printable ASCII character. *)
Definition printable (c : ascii) : Prop := (32 <= code c <= 126)%N.

(** Every string of a value, keys included, satisfies [Q]. *)
Fixpoint strings_all (Q : string -> Prop) (v : json) : Prop :=
  match v with
  | JStr s => Q s
  | JArr l =>
      (fix go (l : list json) : Prop :=
         match l with
         | [] => True
         | x :: l' => strings_all Q x /\ go l'
         end) l
  | JObj m =>
      (fix go (m : list (string * json)) : Prop :=
         match m with
         | [] => True
         | (k, x) :: m' => Q k /\ strings_all Q x /\ go m'
         end) m
  | _ => True
  end.

(** A string without a space. *)
Definition spaceless (s : string) : Prop :=
  Forall (fun c => code c <> 32%N) (list_ascii_of_string s).

(** The peer has sent whole chunks only: no end of stream, no error. *)
Definition flowing (r : list rx_event) : Prop :=
  Forall (fun e => match e with
                   | RxData (_ :: _) => True
                   | _ => False
                   end) r.

(** The socket [h] can transfer data, its coming transmissions succeed,
    and the peer has sent the bytes [data], in whole chunks, and nothing
    else. *)
Definition ready (w : world) (h : handle) (data : bytes) : Prop :=
  exists st,
    usable w h = Some st /\ flowing (rx st) /\ stream (rx st) = data /\
    forallb (fun ok => ok) (tx st) = true.

(** The addresses to which [connect] was called, oldest first. *)
Fixpoint connects (t : list event) : list (handle * address) :=
  match t with
  | [] => []
  | EvConnect h a :: t' => (h, a) :: connects t'
  | _ :: t' => connects t'
  end.

(** The byte strings handed to [sendall], oldest first. *)
Fixpoint transmissions (t : list event) : list (handle * bytes) :=
  match t with
  | [] => []
  | EvSendall h data :: t' => (h, data) :: transmissions t'
  | _ :: t' => transmissions t'
  end.

(** *** Further peers *)

(** A world whose socket 0 is connected to a peer that delivers the given
    chunks and then closes. *)
Definition delivering (chunks : list bytes) : world :=
  mk_world [mk_sock true false (map RxData chunks) []] [] [].

(** The bytes [data] cut into chunks of one, two, three, ... bytes. *)
Fixpoint pieces (fuel k : nat) (data : bytes) : list bytes :=
  match fuel, data with
  | O, _ | _, [] => []
  | S fuel', _ :: _ => firstn (S k) data :: pieces fuel' (S k) (skipn (S k) data)
  end.

Definition in_pieces (data : bytes) : list bytes :=
  pieces (List.length data) O data.

(** A reply that carries the result [r]. *)
Definition reply (id r : json) : json :=
  JObj [("id"%string, id); ("result"%string, r)].

(** The two replies of a vault to the handshake. *)
Definition challenge_reply (id sid : json) (challenge : bytes) : json :=
  reply id (JObj [("session_id"%string, sid);
                  ("challenge"%string, JStr (hex challenge))]).

Definition verdict_reply (id a : json) : json :=
  reply id (JObj [("authenticated"%string, a)]).

(** The two requests of the handshake, when the last identifier used is
    [n]. *)
Definition authenticate_request (n : Z) (agent : string) : json :=
  request (n + 1) "authenticate" (JObj [("agent_name"%string, JStr agent)]).

Definition challenge_response_request (n : Z) (sid : json) (signature : bytes)
  : json :=
  request (n + 2) "challenge_response"
    (JObj [("session_id"%string, sid); ("signature"%string, JStr (hex signature))]).

(** The configuration of the client once [connect] has taken its
    override into account. *)
Definition retarget (c : client) (tgt : option target) : client :=
  match tgt with
  | Some (TargetPath p) => with_target c (Some p) None (_port c)
  | Some (TargetHostPort h p) => with_target c None (Some h) (Some p)
  | None => c
  end.

(** The address that a configuration designates: the host and the port
    when there is a host, not empty, and a port, not zero; otherwise the
    socket path, or the default one when there is none or it is empty. *)
Definition designated (E : env) (c : client) : address :=
  match _host c, _port c with
  | Some (String a h), Some p =>
      if p =? 0 then
        AF_UNIX (expanduser E
                   match _socket_path c with
                   | Some (String b q) => String b q
                   | _ => DEFAULT_SOCKET
                   end)
      else AF_INET (String a h) p
  | _, _ =>
      AF_UNIX (expanduser E
                 match _socket_path c with
                 | Some (String b q) => String b q
                 | _ => DEFAULT_SOCKET
                 end)
  end.

(** A computation that calls [connect] on no socket; [tr] reads the trace
    off the state. *)
Definition quiet {S A : Type} (tr : S -> list event) (m : M S A) : Prop :=
  forall s, connects (tr (snd (m s))) = connects (tr s).

Definition state_trace (s : state) : list event := trace (wd s).

(** The number of calls of [connect] in a program. *)
Definition is_connect (c : api_call) : bool :=
  match c with
  | Connect _ => true
  | _ => false
  end.

Definition connect_calls (calls : list api_call) : nat :=
  List.length (filter is_connect calls).

(** A string of white space. *)
Definition blank (s : string) : Prop :=
  Forall (fun c => is_space c = true) (list_ascii_of_string s).

(** The two key files of an agent in the default directory. *)
Definition plain_key_file (E : env) (c : client) : string :=
  path_join (expanduser E DEFAULT_KEY_DIR) (agent_name c ++ ".key").

Definition encrypted_key_file (E : env) (c : client) : string :=
  path_join (expanduser E DEFAULT_KEY_DIR) (agent_name c ++ ".key.enc").

(** The leases still tracked when the vault has answered [resps] to the
    releases of [lids], one after the other: a release that the vault
    accepts removes one occurrence of the lease, one that it refuses
    removes nothing. *)
Fixpoint after_releases (lids resps tracked : list json) : list json :=
  match lids, resps with
  | lid :: lids', resp :: resps' =>
      after_releases lids' resps'
        match raise_on_error resp with
        | Ok _ => if py_in lid tracked then py_remove lid tracked else tracked
        | Raise _ => tracked
        end
  | _, _ => tracked
  end.

(** A reply that [recv] accepts and that is well formed as far as
    [raise_on_error] goes: a result, or an error of the vault. *)
Definition orderly (resp : json) : Prop :=
  wf_json resp = true /\ len (dumps resp) <= MAX_MESSAGE_SIZE /\
  forall p, raise_on_error resp <> Raise (Py p).

(** The frames of replies, one after the other. *)
Definition frames (resps : list json) : bytes := List.concat (map frame resps).
(* ================================================================== *)
(** ** Round trip of the [json] library model *)

Lemma scanstring_escape (s : string) (rest : bytes) :
  scanstring (escape s ++ dq :: rest) = Some (s, rest).
Proof.
  induction s as [|c s IH]; [reflexivity|].
  cbn [escape]. rewrite <- app_assoc.
  destruct c as [[|] [|] [|] [|] [|] [|] [|] [|]];
    cbn; rewrite IH; reflexivity.
Qed.

Lemma code_ascii_of_N (n : N) : (n < 256)%N -> code (ascii_of_N n) = n.
Proof. apply N_ascii_embedding. Qed.

Lemma code_digit_char (d : N) : (d < 10)%N -> code (digit_char d) = (48 + d)%N.
Proof. intros H. unfold digit_char. apply code_ascii_of_N. lia. Qed.

Lemma is_digit_digit_char (d : N) : (d < 10)%N -> is_digit (digit_char d) = true.
Proof.
  intros H. unfold is_digit. rewrite code_digit_char by exact H.
  apply andb_true_intro; split; apply N.leb_le; lia.
Qed.

Lemma digit_val_digit_char (d : N) : (d < 10)%N -> digit_val (digit_char d) = d.
Proof. intros H. unfold digit_val. rewrite code_digit_char by exact H. lia. Qed.

Lemma digits_value_snoc (l : bytes) (c : ascii) :
  digits_value (l ++ [c]) = (10 * digits_value l + digit_val c)%N.
Proof. unfold digits_value. rewrite fold_left_app. reflexivity. Qed.

Lemma pow2_succ (f : nat) : (2 ^ N.of_nat (S f) = 2 * 2 ^ N.of_nat f)%N.
Proof. rewrite Nat2N.inj_succ. apply N.pow_succ_r'. Qed.

Lemma div10_lt_pow (n p : N) : (n < 2 * p)%N -> (10 <= n)%N -> (n / 10 < p)%N.
Proof.
  intros Hn H10.
  assert (H1 : (n / 10 <= n / 2)%N) by (apply N.div_le_compat_l; lia).
  assert (H2 : (n / 2 < p)%N) by (apply N.Div0.div_lt_upper_bound; lia).
  lia.
Qed.

Lemma digits_fuel_value (f : nat) :
  forall n, (n < 2 ^ N.of_nat f)%N -> digits_value (digits_fuel f n) = n.
Proof.
  induction f as [|f IH]; intros n Hn.
  - cbn in Hn. assert (n = 0%N) by lia. subst. reflexivity.
  - rewrite pow2_succ in Hn. cbn [digits_fuel].
    rewrite digits_value_snoc.
    assert (Hm : (n mod 10 < 10)%N) by (apply N.mod_lt; lia).
    rewrite digit_val_digit_char by exact Hm.
    destruct (n <? 10)%N eqn:E.
    + apply N.ltb_lt in E. cbn. rewrite N.mod_small by exact E. reflexivity.
    + apply N.ltb_ge in E. rewrite IH.
      * symmetry. apply N.div_mod. lia.
      * apply div10_lt_pow; assumption.
Qed.

Lemma digits_fuel_all_digits (f : nat) :
  forall n, Forall (fun c => is_digit c = true) (digits_fuel f n).
Proof.
  induction f as [|f IH]; intros n; cbn [digits_fuel]; [constructor|].
  apply Forall_app; split.
  - destruct (n <? 10)%N; [constructor | apply IH].
  - constructor; [|constructor]. apply is_digit_digit_char.
    apply N.mod_lt; lia.
Qed.

(** The leading digit of a positive number is not zero. *)
Lemma digits_fuel_head (f : nat) :
  forall n, (0 < n)%N -> (n < 2 ^ N.of_nat f)%N ->
    exists c tl, digits_fuel f n = c :: tl /\ code c <> 48%N.
Proof.
  induction f as [|f IH]; intros n Hpos Hn.
  - cbn in Hn. lia.
  - rewrite pow2_succ in Hn. cbn [digits_fuel].
    destruct (n <? 10)%N eqn:E.
    + apply N.ltb_lt in E. exists (digit_char (n mod 10)), [].
      split; [reflexivity|].
      rewrite code_digit_char by (apply N.mod_lt; lia).
      rewrite N.mod_small by exact E. lia.
    + apply N.ltb_ge in E.
      destruct (IH (n / 10)%N) as (c & tl & Heq & Hc).
      * apply N.div_str_pos. lia.
      * apply div10_lt_pow; assumption.
      * rewrite Heq. exists c, (tl ++ [digit_char (n mod 10)]).
        split; [reflexivity | exact Hc].
Qed.

Lemma digits_fuel_enough (n : N) :
  (n < 2 ^ N.of_nat (S (N.to_nat (N.log2 n))))%N.
Proof.
  rewrite Nat2N.inj_succ, N2Nat.id.
  destruct n as [|p]; [reflexivity|].
  apply N.log2_spec. reflexivity.
Qed.

Lemma digits_value_digits (n : N) : digits_value (digits n) = n.
Proof. apply digits_fuel_value, digits_fuel_enough. Qed.

Lemma digits_all_digits (n : N) : Forall (fun c => is_digit c = true) (digits n).
Proof. apply digits_fuel_all_digits. Qed.

Lemma digits_zero : digits 0 = ["0"%char].
Proof. reflexivity. Qed.

Lemma digits_head (n : N) :
  (0 < n)%N -> exists c tl, digits n = c :: tl /\ code c <> 48%N.
Proof. intros H. apply digits_fuel_head; [exact H | apply digits_fuel_enough]. Qed.

Lemma span_digits_app (ds rest : bytes) :
  Forall (fun c => is_digit c = true) ds -> num_safe rest = true ->
  span_digits (ds ++ rest) = (ds, rest).
Proof.
  intros Hds Hsafe. induction Hds as [|c ds Hc _ IH]; cbn [app span_digits].
  - destruct rest as [|c r]; [reflexivity|]. cbn in Hsafe.
    apply andb_prop in Hsafe. destruct Hsafe as [Hd _].
    apply negb_true_iff in Hd. cbn [span_digits]. rewrite Hd. reflexivity.
  - rewrite Hc, IH. reflexivity.
Qed.

Lemma float_tail_safe (rest : bytes) : num_safe rest = true -> float_tail rest = false.
Proof.
  destruct rest as [|c [|d r]]; try reflexivity. cbn [num_safe float_tail].
  intros H. apply andb_prop in H. destruct H as [_ H].
  apply negb_true_iff in H. apply orb_false_elim in H. destruct H as [H H3].
  apply orb_false_elim in H. destruct H as [H1 H2].
  rewrite H1, H2, H3. reflexivity.
Qed.

Lemma match_uint_digits (n : N) (rest : bytes) :
  num_safe rest = true -> match_uint (digits n ++ rest) = Some (n, rest).
Proof.
  intros Hsafe. destruct (N.eq_dec n 0) as [->|Hn].
  - reflexivity.
  - destruct (digits_head n) as (c & tl & Heq & Hc); [lia|].
    pose proof (digits_all_digits n) as Hall.
    pose proof (span_digits_app (digits n) rest Hall Hsafe) as Hspan.
    rewrite Heq in Hall, Hspan |- *. cbn [app] in Hspan |- *.
    unfold match_uint. apply N.eqb_neq in Hc. rewrite Hc.
    inversion Hall as [|? ? Hd _]; subst. rewrite Hd.
    rewrite Hspan. rewrite <- Heq, digits_value_digits. reflexivity.
Qed.

Lemma dec_head (z : Z) :
  exists c tl, dec z = c :: tl /\
    ((code c = 45%N /\ z < 0) \/ (is_digit c = true /\ 0 <= z)).
Proof.
  unfold dec. destruct (z <? 0) eqn:E.
  - apply Z.ltb_lt in E. eexists _, _. split; [reflexivity|]. left. split; [reflexivity | exact E].
  - apply Z.ltb_ge in E. pose proof (digits_all_digits (Z.abs_N z)) as Hall.
    unfold digits in *. cbn [digits_fuel] in *.
    destruct ((if (Z.abs_N z <? 10)%N then [] else _) ++ _) as [|c tl] eqn:Hd.
    + apply app_eq_nil in Hd. destruct Hd as [_ Hd]. discriminate.
    + exists c, tl. split; [reflexivity|]. right.
      inversion Hall; subst. split; assumption.
Qed.

Lemma match_number_dec (z : Z) (rest : bytes) :
  num_safe rest = true -> match_number (dec z ++ rest) = Some (z, rest).
Proof.
  intros Hsafe. unfold match_number.
  destruct (dec_head z) as (c & tl & Heq & [[Hc Hz] | [Hc Hz]]).
  - unfold dec in *. apply Z.ltb_lt in Hz. rewrite Hz in *.
    cbn [app]. change (code "-"%char =? 45)%N with true. cbv iota beta.
    rewrite match_uint_digits by exact Hsafe.
    rewrite float_tail_safe by exact Hsafe.
    f_equal. f_equal. apply Z.ltb_lt in Hz. rewrite N2Z.inj_abs_N. lia.
  - assert (Hneg : (code c =? 45)%N = false).
    { unfold is_digit in Hc. apply andb_prop in Hc. destruct Hc as [H1 _].
      apply N.leb_le in H1. apply N.eqb_neq. lia. }
    assert (Hdec : dec z = digits (Z.abs_N z)).
    { unfold dec. apply Z.ltb_ge in Hz. rewrite Hz. reflexivity. }
    rewrite Heq. cbn [app]. rewrite Hneg.
    change (c :: tl ++ rest) with ((c :: tl) ++ rest). rewrite <- Heq, Hdec.
    rewrite match_uint_digits by exact Hsafe.
    rewrite float_tail_safe by exact Hsafe.
    f_equal. f_equal. rewrite N2Z.inj_abs_N. lia.
Qed.

(** *** Dictionaries rebuilt from their own items *)

Lemma dict_get_None_notin {A : Type} (k : string) (m : list (string * A)) :
  dict_get k m = None <-> ~ In k (map fst m).
Proof.
  induction m as [|[k' v] m IH]; cbn; [tauto|].
  destruct (String.eqb_spec k k') as [->|Hne].
  - split; [discriminate | intros H; exfalso; apply H; left; reflexivity].
  - rewrite IH. split; [intros H [E|E]; [congruence | tauto] | tauto].
Qed.

Lemma dict_set_fresh {A : Type} (k : string) (v : A) (m : list (string * A)) :
  dict_get k m = None -> dict_set k v m = m ++ [(k, v)].
Proof.
  induction m as [|[k' v'] m IH]; cbn; [reflexivity|].
  destruct (String.eqb k k'); [discriminate|].
  intros H. rewrite IH by exact H. reflexivity.
Qed.

Lemma dict_of_pairs_acc {A : Type} (pairs : list (string * A)) :
  forall acc, keys_unique pairs = true ->
    (forall k, In k (map fst pairs) -> ~ In k (map fst acc)) ->
    fold_left (fun d kv => dict_set (fst kv) (snd kv) d) pairs acc = acc ++ pairs.
Proof.
  induction pairs as [|[k v] ps IH]; intros acc Hu Hd; cbn [fold_left].
  - rewrite app_nil_r. reflexivity.
  - cbn [keys_unique] in Hu. destruct (dict_get k ps) eqn:Hk; [discriminate|].
    apply dict_get_None_notin in Hk. cbn [fst snd].
    rewrite dict_set_fresh.
    + rewrite IH; [rewrite <- app_assoc; reflexivity | exact Hu |].
      intros k' Hin. rewrite map_app, in_app_iff. cbn.
      intros [H | [H | []]].
      * apply (Hd k'); [right; exact Hin | exact H].
      * subst k'. exact (Hk Hin).
    + apply dict_get_None_notin. apply Hd. left. reflexivity.
Qed.

Lemma dict_of_pairs_unique {A : Type} (m : list (string * A)) :
  keys_unique m = true -> dict_of_pairs m = m.
Proof.
  intros H. unfold dict_of_pairs. rewrite dict_of_pairs_acc; auto.
Qed.

(** *** Values *)

Lemma parse_value_S (f : nat) (s : bytes) :
  parse_value (S f) s =
  match s with
  | [] => None
  | c :: s' =>
      if (code c =? 34)%N then
        match scanstring s' with
        | Some (str, r) => Some (JStr str, r)
        | None => None
        end
      else if (code c =? 123)%N then
        match skip_ws s' with
        | c1 :: r1 =>
            if (code c1 =? 125)%N then Some (JObj [], r1)
            else
              match parse_members f (c1 :: r1) with
              | Some (pairs, r) => Some (JObj (dict_of_pairs pairs), r)
              | None => None
              end
        | [] => None
        end
      else if (code c =? 91)%N then
        match skip_ws s' with
        | c1 :: r1 =>
            if (code c1 =? 93)%N then Some (JArr [], r1)
            else
              match parse_items f (c1 :: r1) with
              | Some (vs, r) => Some (JArr vs, r)
              | None => None
              end
        | [] => None
        end
      else if (code c =? 110)%N then
        match expect (B "ull") s' with
        | Some r => Some (JNull, r)
        | None => None
        end
      else if (code c =? 116)%N then
        match expect (B "rue") s' with
        | Some r => Some (JBool true, r)
        | None => None
        end
      else if (code c =? 102)%N then
        match expect (B "alse") s' with
        | Some r => Some (JBool false, r)
        | None => None
        end
      else
        match match_number s with
        | Some (z, r) => Some (JNum z, r)
        | None => None
        end
  end.
Proof. reflexivity. Qed.

Lemma parse_items_S (f : nat) (s : bytes) :
  parse_items (S f) s =
  match parse_value f s with
  | Some (v, r) =>
      match skip_ws r with
      | c :: r1 =>
          if (code c =? 44)%N then
            match parse_items f (skip_ws r1) with
            | Some (vs, r2) => Some (v :: vs, r2)
            | None => None
            end
          else if (code c =? 93)%N then Some ([v], r1)
          else None
      | [] => None
      end
  | None => None
  end.
Proof. reflexivity. Qed.

Lemma parse_members_S (f : nat) (s : bytes) :
  parse_members (S f) s =
  match s with
  | c :: s1 =>
      if (code c =? 34)%N then
        match scanstring s1 with
        | Some (k, r) =>
            match skip_ws r with
            | c1 :: r1 =>
                if (code c1 =? 58)%N then
                  match parse_value f (skip_ws r1) with
                  | Some (v, r2) =>
                      match skip_ws r2 with
                      | c2 :: r3 =>
                          if (code c2 =? 44)%N then
                            match parse_members f (skip_ws r3) with
                            | Some (kvs, r4) => Some ((k, v) :: kvs, r4)
                            | None => None
                            end
                          else if (code c2 =? 125)%N then Some ([(k, v)], r3)
                          else None
                      | [] => None
                      end
                  | None => None
                  end
                else None
            | [] => None
            end
        | None => None
        end
      else None
  | [] => None
  end.
Proof. reflexivity. Qed.

Lemma digit_code (c : ascii) : is_digit c = true -> (48 <= code c <= 57)%N.
Proof.
  unfold is_digit. intros H. apply andb_prop in H. destruct H as [H1 H2].
  apply N.leb_le in H1. apply N.leb_le in H2. lia.
Qed.

Lemma parse_value_num (f : nat) (c : ascii) (s' : bytes) :
  code c = 45%N \/ is_digit c = true ->
  parse_value (S f) (c :: s') =
  match match_number (c :: s') with
  | Some (z, r) => Some (JNum z, r)
  | None => None
  end.
Proof.
  intros H. rewrite parse_value_S.
  assert (Hc : (code c = 45 \/ 48 <= code c <= 57)%N).
  { destruct H as [H|H]; [left; exact H | right; apply digit_code, H]. }
  repeat match goal with
         | |- context [(code c =? ?k)%N] =>
             let E := fresh "E" in
             destruct (N.eqb_spec (code c) k) as [E|E]; [exfalso; lia|]
         end.
  reflexivity.
Qed.

Lemma dumps_head (v : json) :
  exists c tl, dumps v = c :: tl /\ is_ws c = false /\ (code c =? 93)%N = false.
Proof.
  destruct v as [|[|]|z|s|l|m]; try (eexists _, _; repeat split; reflexivity).
  cbn [dumps]. destruct (dec_head z) as (c & tl & Heq & H).
  exists c, tl. split; [exact Heq|].
  assert (Hc : (code c = 45 \/ 48 <= code c <= 57)%N).
  { destruct H as [[H _]|[H _]]; [left; exact H | right; apply digit_code, H]. }
  unfold is_ws.
  repeat match goal with
         | |- context [(code c =? ?k)%N] =>
             let E := fresh "E" in
             destruct (N.eqb_spec (code c) k) as [E|E]; [exfalso; lia|]
         end.
  split; reflexivity.
Qed.

Lemma skip_ws_keep (c : ascii) (s : bytes) :
  is_ws c = false -> skip_ws (c :: s) = c :: s.
Proof. intros H. cbn [skip_ws]. rewrite H. reflexivity. Qed.

Lemma skip_ws_dumps (v : json) (rest : bytes) :
  skip_ws (dumps v ++ rest) = dumps v ++ rest.
Proof.
  destruct (dumps_head v) as (c & tl & Heq & Hws & _).
  rewrite Heq. cbn. rewrite Hws. reflexivity.
Qed.

Lemma parse_items_rt (l : list json) :
  Forall rt l -> forallb wf_json l = true -> l <> [] ->
  forall f rest, (list_sum (map (fun x => S (size x)) l) <= f)%nat ->
    parse_items f (join_items "]"%char (map dumps l) ++ rest) = Some (l, rest).
Proof.
  induction 1 as [|x l Hx Hl IH]; intros Hwf Hne f rest Hf; [congruence|].
  cbn [forallb] in Hwf. apply andb_prop in Hwf. destruct Hwf as [Hwx Hwl].
  cbn [map list_sum fold_right] in Hf. destruct f as [|f]; [lia|].
  rewrite parse_items_S. cbn [map join_items]. rewrite <- app_assoc.
  destruct l as [|y l'].
  - cbn [map app]. rewrite (Hx Hwx) by (reflexivity || lia). reflexivity.
  - rewrite (Hx Hwx) by (reflexivity || lia).
    cbn [map]. set (tail := join_items "]"%char (dumps y :: map dumps l')).
    cbn [app]. rewrite skip_ws_keep by reflexivity.
    change (code ","%char =? 44)%N with true. cbv beta iota.
    subst tail. cbn [join_items]. rewrite <- app_assoc, skip_ws_dumps, app_assoc.
    change (dumps y ++ match map dumps l' with
                       | [] => ["]"%char]
                       | _ :: _ => ","%char :: join_items "]"%char (map dumps l')
                       end)
      with (join_items "]"%char (map dumps (y :: l'))).
    rewrite IH;
      [reflexivity | exact Hwl | discriminate
      | cbn [map list_sum fold_right] in Hf |- *; lia].
Qed.

Lemma quote_app (k : string) (rest : bytes) :
  quote k ++ rest = dq :: escape k ++ dq :: rest.
Proof. unfold quote. cbn [app]. rewrite <- app_assoc. reflexivity. Qed.

Lemma parse_members_rt (m : list (string * json)) :
  Forall (fun kv => rt (snd kv)) m ->
  forallb (fun kv => wf_json (snd kv)) m = true -> m <> [] ->
  forall f rest, (list_sum (map (fun kv => S (size (snd kv))) m) <= f)%nat ->
    parse_members f (join_items "}"%char (map dump_member m) ++ rest)
    = Some (m, rest).
Proof.
  induction 1 as [|[k x] m Hx Hm IH]; intros Hwf Hne f rest Hf; [congruence|].
  cbn [forallb snd] in Hwf. apply andb_prop in Hwf. destruct Hwf as [Hwx Hwm].
  cbn [map list_sum fold_right snd] in Hf. destruct f as [|f]; [lia|].
  cbn [snd] in Hx.
  rewrite parse_members_S. cbn [map join_items]. unfold dump_member at 1.
  cbn [fst snd]. rewrite <- !app_assoc, quote_app.
  change (code dq =? 34)%N with true. cbv beta iota.
  rewrite scanstring_escape. cbn [app].
  rewrite skip_ws_keep by reflexivity.
  change (code ":"%char =? 58)%N with true. cbv beta iota.
  rewrite skip_ws_dumps.
  destruct m as [|[k' y] m'].
  - cbn [map app]. rewrite (Hx Hwx) by (reflexivity || lia). reflexivity.
  - rewrite (Hx Hwx) by (reflexivity || lia).
    cbn [map]. set (tail := join_items "}"%char (dump_member (k', y) :: map dump_member m')).
    cbn [app]. rewrite skip_ws_keep by reflexivity.
    change (code ","%char =? 44)%N with true. cbv beta iota.
    assert (Hskip : skip_ws (tail ++ rest) = tail ++ rest).
    { assert (E : exists tl, tail ++ rest = dq :: tl).
      { subst tail. cbn [join_items]. unfold dump_member at 1. cbn [fst].
        rewrite <- !app_assoc, quote_app. eexists. reflexivity. }
      destruct E as [tl E]. rewrite E. reflexivity. }
    rewrite Hskip. subst tail.
    change (dump_member (k', y) :: map dump_member m')
      with (map dump_member ((k', y) :: m')).
    rewrite IH;
      [reflexivity | exact Hwm | discriminate
      | cbn [map list_sum fold_right] in Hf |- *; lia].
Qed.

Lemma keys_unique_wf (m : list (string * json)) :
  wf_json (JObj m) = true ->
  keys_unique m = true /\ forallb (fun kv => wf_json (snd kv)) m = true.
Proof. cbn [wf_json]. intros H. apply andb_prop in H. exact H. Qed.

Lemma parse_dumps (v : json) : rt v.
Proof.
  induction v as [| b | z | s | l IHl | m IHm] using json_ind;
    intros Hwf f rest Hf Hsafe;
    (destruct f as [|f]; [cbn in Hf; lia|]).
  - reflexivity.
  - destruct b; reflexivity.
  - cbn [dumps]. destruct (dec_head z) as (c & tl & Heq & H).
    pose proof (match_number_dec z rest Hsafe) as Hnum.
    rewrite Heq in Hnum |- *. cbn [app] in Hnum |- *.
    rewrite parse_value_num.
    + rewrite Hnum. reflexivity.
    + destruct H as [[H _]|[H _]]; [left | right]; exact H.
  - cbn [dumps]. rewrite quote_app, parse_value_S.
    change (code dq =? 34)%N with true. cbv beta iota.
    rewrite scanstring_escape. reflexivity.
  - cbn [dumps wf_json size] in *. cbn [app]. rewrite parse_value_S.
    change (code "["%char =? 34)%N with false.
    change (code "["%char =? 123)%N with false.
    change (code "["%char =? 91)%N with true. cbv beta iota.
    destruct l as [|x l']; [reflexivity|].
    pose proof (parse_items_rt (x :: l') IHl Hwf ltac:(discriminate) f rest
                  ltac:(lia)) as Hitems.
    cbn [map join_items] in Hitems |- *. rewrite <- app_assoc in Hitems |- *.
    rewrite skip_ws_dumps.
    destruct (dumps_head x) as (c & tl & Heq & _ & Hc).
    rewrite Heq in Hitems |- *. cbn [app] in Hitems |- *.
    rewrite Hc, Hitems. reflexivity.
  - apply keys_unique_wf in Hwf. destruct Hwf as [Hu Hwm].
    cbn [dumps size] in *. cbn [app]. rewrite parse_value_S.
    change (code "{"%char =? 34)%N with false.
    change (code "{"%char =? 123)%N with true. cbv beta iota.
    destruct m as [|[k x] m']; [reflexivity|].
    pose proof (parse_members_rt ((k, x) :: m') IHm Hwm ltac:(discriminate) f rest
                  ltac:(lia)) as Hmem.
    change (map (fun kv => quote (fst kv) ++ ":"%char :: dumps (snd kv)) ((k, x) :: m'))
      with (map dump_member ((k, x) :: m')).
    cbn [map join_items] in Hmem |- *. unfold dump_member at 1 in Hmem.
    unfold dump_member at 1. cbn [fst snd] in Hmem |- *.
    rewrite <- !app_assoc, quote_app in Hmem. rewrite <- !app_assoc, quote_app.
    rewrite skip_ws_keep by reflexivity.
    change (code dq =? 125)%N with false. cbv beta iota.
    rewrite Hmem. rewrite dict_of_pairs_unique by exact Hu. reflexivity.
Qed.

Lemma join_items_length (c : ascii) (xs : list bytes) :
  (list_sum (map (fun x => S (List.length x)) xs)
   <= List.length (join_items c xs))%nat.
Proof.
  unfold list_sum.
  induction xs as [|x xs IH]; cbn [map fold_right join_items]; [cbn; lia|].
  rewrite length_app. destruct xs as [|y xs'].
  - cbn. lia.
  - cbn [List.length]. cbn [map fold_right] in IH |- *. lia.
Qed.

Lemma list_sum_le {A : Type} (f g : A -> nat) (l : list A) :
  Forall (fun x => (f x <= g x)%nat) l ->
  (list_sum (map f l) <= list_sum (map g l))%nat.
Proof.
  unfold list_sum.
  induction 1 as [|x l Hx _ IH]; cbn [map fold_right] in *; lia.
Qed.

Lemma size_le_dumps (v : json) : (size v <= List.length (dumps v))%nat.
Proof.
  induction v as [| b | z | s | l IHl | m IHm] using json_ind.
  - cbn. lia.
  - destruct b; cbn; lia.
  - cbn [size dumps]. destruct (dec_head z) as (c & tl & Heq & _).
    rewrite Heq. cbn. lia.
  - cbn. lia.
  - cbn [size dumps List.length]. apply le_n_S.
    etransitivity; [|apply join_items_length]. rewrite map_map.
    apply list_sum_le. eapply Forall_impl; [|exact IHl]. cbn. intros; lia.
  - cbn [size dumps List.length]. apply le_n_S.
    etransitivity; [|apply join_items_length]. rewrite map_map.
    apply list_sum_le. eapply Forall_impl; [|exact IHm].
    intros [k x] H. cbn [fst snd] in *. rewrite length_app. cbn [List.length]. lia.
Qed.

(** [json.loads(json.dumps(v)) == v] *)
Lemma loads_dumps (v : json) : wf_json v = true -> loads (dumps v) = Some v.
Proof.
  intros Hwf. unfold loads.
  pose proof (skip_ws_dumps v []) as Hs. rewrite app_nil_r in Hs. rewrite Hs.
  pose proof (parse_dumps v Hwf (2 * List.length (dumps v) + 2)%nat []) as H.
  rewrite app_nil_r in H. rewrite H; [reflexivity | | reflexivity].
  pose proof (size_le_dumps v). lia.
Qed.

(* ================================================================== *)
(** ** The frame codec *)

Lemma len_app {A : Type} (l1 l2 : list A) : len (l1 ++ l2) = len l1 + len l2.
Proof. unfold len. rewrite length_app. lia. Qed.

Lemma len_nonneg {A : Type} (l : list A) : 0 <= len l.
Proof. unfold len. lia. Qed.

Lemma code_byte_of (z : Z) : Z.of_N (code (byte_of z)) = z mod 256.
Proof.
  unfold byte_of. pose proof (Z.mod_pos_bound z 256 ltac:(lia)) as Hb.
  rewrite code_ascii_of_N by lia. lia.
Qed.

Lemma pack_u32_ok (n : Z) :
  0 <= n < 4294967296 ->
  exists header, pack_u32 n = Ok header /\ len header = 4 /\ unpack_u32 header = n.
Proof.
  intros Hn. unfold pack_u32.
  replace ((0 <=? n) && (n <? 4294967296)) with true
    by (symmetry; apply andb_true_intro; split; [apply Z.leb_le | apply Z.ltb_lt]; lia).
  eexists. split; [reflexivity|]. split; [reflexivity|].
  unfold unpack_u32. cbn [fold_left]. rewrite !code_byte_of.
  Z.to_euclidean_division_equations. lia.
Qed.

Lemma pack_u32_raises (n : Z) :
  4294967296 <= n -> pack_u32 n = Raise (Py StructError).
Proof.
  intros Hn. unfold pack_u32.
  replace (n <? 4294967296) with false by (symmetry; apply Z.ltb_ge; lia).
  rewrite andb_false_r. reflexivity.
Qed.

Lemma firstn_len_app {A : Type} (l1 l2 : list A) :
  firstn (Z.to_nat (len l1)) (l1 ++ l2) = l1.
Proof.
  unfold len. rewrite Nat2Z.id, firstn_app, Nat.sub_diag, firstn_all.
  cbn. apply app_nil_r.
Qed.

Lemma skipn_len_app {A : Type} (l1 l2 : list A) :
  skipn (Z.to_nat (len l1)) (l1 ++ l2) = l2.
Proof.
  unfold len. rewrite Nat2Z.id, skipn_app, Nat.sub_diag, skipn_all.
  reflexivity.
Qed.

(** Decoding a buffer that starts with a header and the payload it
    announces. *)
Lemma decode_frame_app (header payload t : bytes) :
  len header = 4 -> unpack_u32 header = len payload ->
  decode_frame (header ++ payload ++ t) =
  match py_loads payload with
  | Ok obj => Ok (obj, t)
  | Raise e => Raise e
  end.
Proof.
  intros Hh Hu. unfold decode_frame.
  assert (Hf : firstn 4 (header ++ payload ++ t) = header).
  { change 4%nat with (Z.to_nat 4). rewrite <- Hh. apply firstn_len_app. }
  assert (Hs : skipn 4 (header ++ payload ++ t) = payload ++ t).
  { change 4%nat with (Z.to_nat 4). rewrite <- Hh. apply skipn_len_app. }
  rewrite Hf, Hs, Hu.
  pose proof (len_nonneg payload). pose proof (len_nonneg t).
  replace (len (header ++ payload ++ t) <? 4) with false
    by (symmetry; apply Z.ltb_ge; rewrite !len_app; lia).
  replace (len (header ++ payload ++ t) <? 4 + len payload) with false
    by (symmetry; apply Z.ltb_ge; rewrite !len_app; lia).
  rewrite firstn_len_app.
  replace (4 + len payload) with (len (header ++ payload))
    by (rewrite len_app; lia).
  rewrite app_assoc, skipn_len_app. reflexivity.
Qed.

Lemma encode_frame_ok (p : json) :
  len (dumps p) < 4294967296 ->
  exists header,
    encode_frame p = Ok (header ++ dumps p) /\
    len header = 4 /\ unpack_u32 header = len (dumps p).
Proof.
  intros Hn. pose proof (len_nonneg (dumps p)).
  destruct (pack_u32_ok (len (dumps p)) ltac:(lia)) as (h & Hp & Hl & Hu).
  exists h. unfold encode_frame. rewrite Hp. auto.
Qed.

Lemma decode_encode (p : json) (f t : bytes) :
  wf_json p = true -> encode_frame p = Ok f ->
  decode_frame (f ++ t) = Ok (p, t).
Proof.
  intros Hwf He. unfold encode_frame in He.
  destruct (pack_u32 (len (dumps p))) as [h|e] eqn:Hp; [|discriminate].
  injection He as <-.
  assert (Hn : 0 <= len (dumps p) < 4294967296).
  { unfold pack_u32 in Hp.
    destruct ((0 <=? len (dumps p)) && (len (dumps p) <? 4294967296)) eqn:Hb;
      [|discriminate].
    apply andb_prop in Hb. destruct Hb as [H1 H2].
    apply Z.leb_le in H1. apply Z.ltb_lt in H2. lia. }
  destruct (pack_u32_ok _ Hn) as (h' & Hp' & Hl & Hu).
  rewrite Hp in Hp'. injection Hp' as <-.
  rewrite <- app_assoc, decode_frame_app by assumption.
  unfold py_loads. rewrite loads_dumps by exact Hwf. reflexivity.
Qed.

(** *** Payloads of a chosen size *)

Lemma escape_padding (n : nat) : escape (padding n) = repeat "a"%char n.
Proof.
  induction n as [|n IH]; [reflexivity|].
  unfold padding in *. cbn [repeat string_of_list_ascii escape]. rewrite IH.
  reflexivity.
Qed.

Lemma len_dumps_bulky (n : nat) : len (dumps (bulky n)) = Z.of_nat n + 10.
Proof.
  unfold bulky. cbn [dumps map join_items fst snd]. unfold quote at 2.
  rewrite escape_padding. unfold len. cbn [List.length app].
  rewrite !length_app. cbn [List.length app]. rewrite !length_app, repeat_length.
  change (List.length (quote "pad")) with 5%nat. cbn [List.length]. lia.
Qed.

Lemma wf_bulky (n : nat) : wf_json (bulky n) = true.
Proof. reflexivity. Qed.

Lemma frame_ok (p : json) :
  len (dumps p) < 4294967296 ->
  encode_frame p = Ok (frame p) /\
  unpack_u32 (firstn 4 (frame p)) = len (dumps p).
Proof.
  intros Hn. destruct (encode_frame_ok p Hn) as (h & He & Hl & Hu).
  unfold frame. rewrite He. split; [reflexivity|].
  change 4%nat with (Z.to_nat 4). rewrite <- Hl, firstn_len_app. exact Hu.
Qed.

Lemma bulky_frame (n : nat) :
  Z.of_nat n + 10 < 4294967296 ->
  unpack_u32 (firstn 4 (frame (bulky n))) = Z.of_nat n + 10 /\
  decode_frame (frame (bulky n)) = Ok (bulky n, []).
Proof.
  intros Hn. destruct (frame_ok (bulky n)) as [He Hu].
  { rewrite len_dumps_bulky. exact Hn. }
  split.
  - rewrite Hu. apply len_dumps_bulky.
  - generalize dependent (frame (bulky n)). intros f He _.
    rewrite <- (app_nil_r f). apply decode_encode; [apply wf_bulky | exact He].
Qed.

Lemma bulky_too_long (n : nat) :
  4294967296 <= Z.of_nat n + 10 ->
  encode_frame (bulky n) = Raise (Py StructError).
Proof.
  intros Hn. unfold encode_frame. rewrite pack_u32_raises; [reflexivity|].
  rewrite len_dumps_bulky. exact Hn.
Qed.

(* ================================================================== *)
(** ** What the socket operations do to the world *)

Lemma requests_app (t1 t2 : list event) :
  requests (t1 ++ t2) = requests t1 ++ requests t2.
Proof.
  induction t1 as [|e t1 IH]; [reflexivity|].
  destruct e; cbn [app requests]; rewrite IH; reflexivity.
Qed.

Lemma closes_app (t1 t2 : list event) :
  closes (t1 ++ t2) = closes t1 ++ closes t2.
Proof.
  induction t1 as [|e t1 IH]; [reflexivity|].
  destruct e; cbn [app closes]; rewrite IH; reflexivity.
Qed.

Lemma nth_error_list_set {A : Type} (l : list A) :
  forall n x m,
    nth_error (list_set n x l) m =
    if Nat.eqb n m then
      match nth_error l m with Some _ => Some x | None => None end
    else nth_error l m.
Proof.
  induction l as [|y l IH]; intros n x m.
  - replace (list_set n x []) with (@nil A) by (destruct n; reflexivity).
    destruct (Nat.eqb n m), m; reflexivity.
  - destruct n as [|n], m as [|m]; cbn [list_set nth_error Nat.eqb]; try reflexivity.
    apply IH.
Qed.

Lemma length_list_set {A : Type} (l : list A) :
  forall n x, List.length (list_set n x l) = List.length l.
Proof.
  induction l as [|y l IH]; intros [|n] x; cbn; auto.
Qed.

Lemma closed_in_list_set (ss : list sock_state) (h : handle) (st : sock_state) :
  closed st = false ->
  forall h', closed_in (list_set h st ss) h' = true -> closed_in ss h' = true.
Proof.
  intros Hst h'. unfold closed_in. rewrite nth_error_list_set.
  destruct (Nat.eqb h h'); [|auto].
  destruct (nth_error ss h'); [rewrite Hst|]; discriminate.
Qed.

Lemma closed_in_app (ss : list sock_state) (st : sock_state) :
  closed st = false ->
  forall h', closed_in (ss ++ [st]) h' = true -> closed_in ss h' = true.
Proof.
  intros Hst h'. unfold closed_in.
  destruct (Nat.lt_ge_cases h' (List.length ss)) as [Hlt|Hge].
  - rewrite nth_error_app1 by exact Hlt. auto.
  - rewrite nth_error_app2 by exact Hge.
    destruct (h' - List.length ss)%nat as [|k]; cbn.
    + rewrite Hst. discriminate.
    + destruct k; discriminate.
Qed.

Lemma Step_refl (w : world) : Step [] w w.
Proof. split; [symmetry; apply app_nil_r | split; auto]. Qed.

Lemma Step_trans (a b : list (handle * json)) (w1 w2 w3 : world) :
  Step a w1 w2 -> Step b w2 w3 -> Step (a ++ b) w1 w3.
Proof.
  intros (Hr1 & Hc1 & Hn1) (Hr2 & Hc2 & Hn2). split; [|split].
  - rewrite Hr2, Hr1, app_assoc. reflexivity.
  - rewrite Hc2, Hc1. reflexivity.
  - intros h H. apply Hn1, Hn2, H.
Qed.

(** A step that logs [evs] and leaves the table of sockets [ss]. *)
Lemma Step_intro (w : world) (evs : list event) (ss : list sock_state)
  (d : list dial_outcome) :
  closes evs = [] ->
  (forall h, closed_in ss h = true -> closed_in (socks w) h = true) ->
  Step (requests evs) w (mk_world ss d (trace w ++ evs)).
Proof.
  intros Hc Hs. split; [|split]; cbn [trace].
  - apply requests_app.
  - rewrite closes_app, Hc. apply app_nil_r.
  - exact Hs.
Qed.


Lemma socket_socket_step (w w' : world) (r : result handle) :
  socket_socket w = (r, w') ->
  r = Ok (List.length (socks w)) /\ Step [] w w' /\
  is_closed w' (List.length (socks w)) = false.
Proof.
  unfold socket_socket. intros [= <- <-]. split; [reflexivity|]. split.
  - split; [symmetry; apply app_nil_r | split; [reflexivity|]].
    apply closed_in_app. reflexivity.
  - unfold is_closed, closed_in. cbn [socks].
    rewrite nth_error_app2 by apply Nat.le_refl. rewrite Nat.sub_diag. reflexivity.
Qed.

Lemma sock_connect_step (h : handle) (a : address) (w w' : world) (r : result unit) :
  sock_connect h a w = (r, w') -> Step [] w w'.
Proof.
  unfold sock_connect, bind, log. cbn [socks dial trace].
  destruct (dial w) as [|[|rx0 tx0] rest]; intros [= <- <-];
    apply (Step_intro w [EvConnect h a]); auto.
  apply closed_in_list_set. reflexivity.
Qed.

Lemma sock_sendall_step (h : handle) (data : bytes) (w w' : world) (r : result unit) :
  sock_sendall h data w = (r, w') -> Step [] w w'.
Proof.
  unfold sock_sendall, bind, log, usable. cbn [socks dial trace].
  destruct (nth_error (socks w) h) as [st|];
    [destruct (connected st && negb (closed st)); [destruct (tx st) as [|[|] t]|]|];
    intros [= <- <-]; apply (Step_intro w [EvSendall h data]); auto;
    apply closed_in_list_set; reflexivity.
Qed.

Lemma sock_recv_step (h : handle) (n : Z) (w w' : world) (r : result bytes) :
  sock_recv h n w = (r, w') -> Step [] w w'.
Proof.
  unfold sock_recv, bind, log, usable. cbn [socks dial trace].
  destruct (nth_error (socks w) h) as [st|];
    [destruct (connected st && negb (closed st));
     [destruct (rx st) as [|[chunk|] t]; [| destruct (len chunk <=? n) |]|]|];
    intros [= <- <-]; apply (Step_intro w [EvRecv h n]); auto;
    apply closed_in_list_set; reflexivity.
Qed.

Lemma send_step (h : handle) (obj : json) (w w' : world) (r : result unit) :
  send h obj w = (r, w') -> Step [(h, obj)] w w'.
Proof.
  unfold send, bind at 1, log. cbn [socks dial trace].
  set (w1 := mk_world (socks w) (dial w) (trace w ++ [EvRequest h obj])).
  assert (H1 : Step [(h, obj)] w w1)
    by (apply (Step_intro w [EvRequest h obj]); auto).
  unfold bind, of_result. destruct (pack_u32 (len (dumps obj))) as [hd|e].
  - intros H. apply sock_sendall_step in H.
    rewrite <- (app_nil_r [(h, obj)]). eapply Step_trans; eassumption.
  - intros [= <- <-]. exact H1.
Qed.

Lemma read_loop_step (fuel : nat) (h : handle) (n : Z) :
  forall buf w r w', read_loop fuel h n buf w = (r, w') -> Step [] w w'.
Proof.
  induction fuel as [|fuel IH]; intros buf w r w'; cbn [read_loop];
    destruct (len buf <? n); try (intros [= <- <-]; apply Step_refl).
  unfold bind. destruct (sock_recv h (n - len buf) w) as [[chunk|e] w1] eqn:Hr.
  - apply sock_recv_step in Hr. destruct chunk as [|c chunk].
    + intros [= <- <-]. exact Hr.
    + intros H. apply IH in H. change (@nil (handle * json)) with (@nil (handle * json) ++ []).
      eapply Step_trans; eassumption.
  - apply sock_recv_step in Hr. intros [= <- <-]. exact Hr.
Qed.

Lemma recv_step (h : handle) (w w' : world) (r : result json) :
  recv h w = (r, w') -> Step [] w w'.
Proof.
  unfold recv, _read_exact, bind.
  destruct (read_loop (Z.to_nat 4) h 4 [] w) as [[hd|e] w1] eqn:H1.
  - apply read_loop_step in H1.
    destruct (unpack_u32 hd >? MAX_MESSAGE_SIZE).
    + intros [= <- <-]. exact H1.
    + destruct (read_loop _ h (unpack_u32 hd) [] w1) as [[body|e] w2] eqn:H2;
        apply read_loop_step in H2; intros [= <- <-];
        change (@nil (handle * json)) with (@nil (handle * json) ++ []);
        eapply Step_trans; eassumption.
  - apply read_loop_step in H1. intros [= <- <-]. exact H1.
Qed.

Lemma sock_close_effect (h : handle) (w w' : world) (r : result unit) :
  sock_close h w = (r, w') ->
  r = Ok tt /\ trace w' = trace w ++ [EvClose h].
Proof.
  unfold sock_close, bind, log. cbn [socks dial trace].
  destruct (nth_error (socks w) h); intros [= <- <-]; auto.
Qed.

(* ================================================================== *)
(** ** What the methods of the client do *)

Lemma _call_spec (method : string) (params : json) (s s' : state) (r : result json) :
  _call method params s = (r, s') ->
  match _sock (self s) with
  | None => r = Raise not_connected /\ s' = s
  | Some h =>
      self s' = with_req_id (self s) (_req_id (self s) + 1) /\
      Step [(h, request (_req_id (self s) + 1) method params)] (wd s) (wd s')
  end.
Proof.
  unfold _call, bind at 1, get_self. destruct (_sock (self s)) as [h|] eqn:Hs.
  - unfold _next_id, bind, get_self, set_self, ret, lift, of_result. cbn [self wd].
    destruct (send h _ (wd s)) as [[u|e] w1] eqn:Hsend; apply send_step in Hsend;
      cbn [self wd].
    + destruct (recv h w1) as [[resp|e] w2] eqn:Hrecv; apply recv_step in Hrecv;
        pose proof (Step_trans _ _ _ _ _ Hsend Hrecv) as H; cbn [app] in H;
        cbn [self wd].
      * destruct (raise_on_error resp); intros [= <- <-]; cbn [self wd]; auto.
      * intros [= <- <-]; cbn [self wd]; auto.
    + intros [= <- <-]; cbn [self wd]; auto.
  - unfold raise. intros [= <- <-]. auto.
Qed.

Lemma ids_from_app (n : Z) (a b : nat) :
  ids_from n (a + b) = ids_from n a ++ ids_from (n + Z.of_nat a) b.
Proof.
  revert n. induction a as [|a IH]; intros n.
  - cbn. rewrite Z.add_0_r. reflexivity.
  - cbn [Nat.add ids_from app]. rewrite IH. do 3 f_equal. lia.
Qed.

Lemma Rpc_refl (sk : option handle) (s : state) : Rpc sk [] s s.
Proof.
  split; [apply Step_refl | split; [cbn; lia | split; [reflexivity | constructor]]].
Qed.

Lemma Rpc_trans (sk : option handle) (a b : list (handle * json)) (s1 s2 s3 : state) :
  Rpc sk a s1 s2 -> Rpc sk b s2 s3 -> Rpc sk (a ++ b) s1 s3.
Proof.
  intros (Hs1 & Hn1 & Hi1 & Hh1) (Hs2 & Hn2 & Hi2 & Hh2). split; [|split; [|split]].
  - eapply Step_trans; eassumption.
  - rewrite Hn2, Hn1, len_app. lia.
  - rewrite map_app, length_app, ids_from_app, Hi1, Hi2, Hn1. reflexivity.
  - apply Forall_app. auto.
Qed.

(** Assignments to attributes other than the counter do nothing else. *)
Lemma Rpc_set (sk : option handle) (s : state) (c : client) :
  _req_id c = _req_id (self s) -> Rpc sk [] s (mk_state c (wd s)).
Proof.
  intros H.
  split; [apply Step_refl | split; [cbn; lia | split; [reflexivity | constructor]]].
Qed.

Lemma _call_rpc (method : string) (params : json) (s s' : state) (r : result json) :
  _call method params s = (r, s') ->
  exists reqs,
    Rpc (_sock (self s)) reqs s s' /\ (List.length reqs <= 1)%nat /\
    self s' = with_req_id (self s) (_req_id (self s')).
Proof.
  intros H. apply _call_spec in H. destruct (_sock (self s)) as [h|].
  - destruct H as [Hself Hstep]. eexists. split; [|split].
    + split; [exact Hstep | split; [rewrite Hself; reflexivity | split; [reflexivity|]]].
      constructor; [reflexivity | constructor].
    + cbn. lia.
    + rewrite Hself. reflexivity.
  - destruct H as [_ ->]. exists []. split; [apply Rpc_refl | split; [cbn; lia|]].
    destruct (self s); reflexivity.
Qed.

(** The handshake issues two requests at most and touches nothing but
    the session identifier and the counter. *)
Lemma _authenticate_rpc (E : env) (s s' : state) (r : result unit) :
  _authenticate E s = (r, s') ->
  exists reqs,
    Rpc (_sock (self s)) reqs s s' /\ (List.length reqs <= 2)%nat /\
    self s' = with_req_id (with_session_id (self s) (_session_id (self s')))
                (_req_id (self s')).
Proof.
  unfold _authenticate, bind, get_self, set_self, of_result, ret, raise.
  assert (Hid : self s = with_req_id (with_session_id (self s) (_session_id (self s)))
                          (_req_id (self s))) by (destruct (self s); reflexivity).
  destruct (_resolve_key E (self s)) as [sk|e];
    [|intros [= <- <-]; exists []; split; [apply Rpc_refl | split; [cbn; lia | exact Hid]]].
  destruct (_call "authenticate" _ s) as [[r1|e] s1] eqn:H1;
    apply _call_rpc in H1; destruct H1 as (q1 & Hq1 & Hl1 & Hs1);
    [|intros [= <- <-]; exists q1; split; [exact Hq1 | split; [lia|]];
      rewrite Hs1; destruct (self s); reflexivity].
  destruct (py_getitem r1 "session_id") as [sid|e];
    [|intros [= <- <-]; exists q1; split; [exact Hq1 | split; [lia|]];
      rewrite Hs1; destruct (self s); reflexivity].
  cbn [self wd].
  set (s2 := mk_state (with_session_id (self s1) sid) (wd s1)).
  assert (Hq2 : Rpc (_sock (self s)) q1 s s2).
  { rewrite <- (app_nil_r q1). eapply Rpc_trans; [exact Hq1|].
    apply Rpc_set. reflexivity. }
  assert (Hs2 : self s2 = with_req_id (with_session_id (self s) sid) (_req_id (self s1))).
  { subst s2. cbn [self]. rewrite Hs1. destruct (self s); reflexivity. }
  destruct (py_getitem r1 "challenge") as [ch|e];
    [|intros [= <- <-]; exists q1; split; [exact Hq2 | split; [lia|]];
      rewrite Hs2; reflexivity].
  destruct (py_fromhex ch) as [challenge|e];
    [|intros [= <- <-]; exists q1; split; [exact Hq2 | split; [lia|]];
      rewrite Hs2; reflexivity].
  fold s2.
  destruct (_call "challenge_response" _ s2) as [[r2|e] s3] eqn:H3;
    apply _call_rpc in H3; destruct H3 as (q3 & Hq3 & Hl3 & Hs3);
    (replace (_sock (self s2)) with (_sock (self s)) in Hq3 by (rewrite Hs2; reflexivity));
    pose proof (Rpc_trans _ _ _ _ _ _ Hq2 Hq3) as Hq;
    assert (Hlen : (List.length (q1 ++ q3) <= 2)%nat) by (rewrite length_app; lia);
    assert (Hs : self s3 = with_req_id (with_session_id (self s) (_session_id (self s3)))
                             (_req_id (self s3)))
      by (rewrite Hs3, Hs2; reflexivity).
  - destruct (py_get r2 "authenticated" JNull) as [a|e];
      [destruct (negb (py_truthy a))|]; intros [= <- <-]; eauto.
  - intros [= <- <-]; eauto.
Qed.

Lemma Step_not_closed (reqs : list (handle * json)) (w w' : world) (h : handle) :
  Step reqs w w' -> is_closed w h = false -> is_closed w' h = false.
Proof.
  intros (_ & _ & Hn) Hc. destruct (is_closed w' h) eqn:E; [|reflexivity].
  apply Hn in E. congruence.
Qed.

(** Opening the transport: a new socket is created, stored in [_sock],
    and connected; the connection may be refused. *)
Lemma open_transport_spec (c0 : client) (a : address) (s0 s2 : state) (r : result unit) :
  (sock <- lift socket_socket ;;
   set_self (with_sock c0 (Some sock)) ;;
   lift (sock_connect sock a)) s0 = (r, s2) ->
  self s2 = with_sock c0 (Some (List.length (socks (wd s0)))) /\
  Step [] (wd s0) (wd s2) /\
  is_closed (wd s2) (List.length (socks (wd s0))) = false.
Proof.
  unfold bind, lift, set_self.
  destruct (socket_socket (wd s0)) as [r0 w1] eqn:H0.
  apply socket_socket_step in H0. destruct H0 as (-> & Hst1 & Hc1).
  cbn [self wd].
  destruct (sock_connect _ a w1) as [r1 w2] eqn:H1.
  apply sock_connect_step in H1.
  intros [= <- <-]. cbn [self wd]. split; [reflexivity|]. split.
  - change (@nil (handle * json)) with (@nil (handle * json) ++ []).
    eapply Step_trans; eassumption.
  - eapply Step_not_closed; eassumption.
Qed.

Lemma connect_spec (E : env) (tgt : option target) (s s' : state) (r : result unit) :
  connect E tgt s = (r, s') ->
  exists reqs,
    Rpc (Some (List.length (socks (wd s)))) reqs s s' /\
    (List.length reqs <= 2)%nat /\
    _sock (self s') = Some (List.length (socks (wd s))) /\
    is_closed (wd s') (List.length (socks (wd s))) = false /\
    _leases (self s') = _leases (self s).
Proof.
  unfold connect. unfold bind at 1, get_self. unfold bind at 1.
  set (s0 := match tgt with
             | Some (TargetPath p) =>
                 mk_state (with_target (self s) (Some p) None (_port (self s))) (wd s)
             | Some (TargetHostPort h p) =>
                 mk_state (with_target (self s) None (Some h) (Some p)) (wd s)
             | None => s
             end).
  assert (H0 : match tgt with
               | Some (TargetPath p) =>
                   set_self (with_target (self s) (Some p) None (_port (self s)))
               | Some (TargetHostPort h p) =>
                   set_self (with_target (self s) None (Some h) (Some p))
               | None => ret tt
               end s = (Ok tt, s0))
    by (destruct tgt as [[p|h p]|]; subst s0; try reflexivity; destruct s; reflexivity).
  rewrite H0. clear H0.
  assert (Hw0 : wd s0 = wd s) by (destruct tgt as [[p|h p]|]; reflexivity).
  assert (Hr0 : _req_id (self s0) = _req_id (self s))
    by (destruct tgt as [[p|h p]|]; reflexivity).
  assert (Hl0 : _leases (self s0) = _leases (self s))
    by (destruct tgt as [[p|h p]|]; reflexivity).
  clearbody s0. unfold bind at 1, get_self. unfold bind at 1.
  match goal with
  | |- context [(if ?b then ?m1 else ?m2) s0] =>
      destruct ((if b then m1 else m2) s0) as [[u|e] s2] eqn:Hopen
  end.
  - assert (Hs2 : self s2 = with_sock (self s0) (Some (List.length (socks (wd s0)))) /\
                  Step [] (wd s0) (wd s2) /\
                  is_closed (wd s2) (List.length (socks (wd s0))) = false).
    { destruct (str_truthy (_host (self s0)) && port_truthy (_port (self s0)));
        [destruct (_host (self s0)), (_port (self s0)); try discriminate|];
        eapply open_transport_spec; exact Hopen. }
    rewrite Hw0 in Hs2. destruct Hs2 as (Hself & Hstep & Hclosed).
    intros Hauth. apply _authenticate_rpc in Hauth.
    destruct Hauth as (reqs & Hrpc & Hlen & Hs').
    rewrite Hself in Hrpc. cbn [_sock with_sock] in Hrpc.
    exists reqs. split; [|split; [exact Hlen | split; [|split]]].
    + change reqs with ([] ++ reqs). eapply Rpc_trans; [|exact Hrpc].
      split; [exact Hstep | split; [|split; [reflexivity | constructor]]].
      rewrite Hself. cbn. lia.
    + rewrite Hs', Hself. reflexivity.
    + destruct Hrpc as (Hst & _). eapply Step_not_closed; eassumption.
    + rewrite Hs', Hself. cbn. exact Hl0.
  - assert (Hs2 : self s2 = with_sock (self s0) (Some (List.length (socks (wd s0)))) /\
                  Step [] (wd s0) (wd s2) /\
                  is_closed (wd s2) (List.length (socks (wd s0))) = false).
    { destruct (str_truthy (_host (self s0)) && port_truthy (_port (self s0))) eqn:Hb;
        [destruct (_host (self s0)), (_port (self s0));
         try (cbn in Hb; rewrite ?andb_false_r in Hb; discriminate)|];
        eapply open_transport_spec; exact Hopen. }
    rewrite Hw0 in Hs2. destruct Hs2 as (Hself & Hstep & Hclosed).
    intros [= <- <-]. exists []. split; [|split; [cbn; lia | split; [|split]]].
    + split; [exact Hstep | split; [|split; [reflexivity | constructor]]].
      rewrite Hself. cbn. lia.
    + rewrite Hself. reflexivity.
    + exact Hclosed.
    + rewrite Hself. exact Hl0.
Qed.

Lemma release_lease_spec (lid : json) (s s' : state) (r : result unit) :
  release_lease lid s = (r, s') ->
  match _sock (self s) with
  | None => r = Raise not_connected /\ s' = s
  | Some h =>
      Step [(h, release_request (_req_id (self s)) lid)] (wd s) (wd s') /\
      self s' = with_leases (with_req_id (self s) (_req_id (self s) + 1))
                  (_leases (self s')) /\
      _leases (self s') =
      match r with
      | Ok _ =>
          if py_in lid (_leases (self s)) then py_remove lid (_leases (self s))
          else _leases (self s)
      | Raise _ => _leases (self s)
      end
  end.
Proof.
  unfold release_lease, bind.
  destruct (_call "release_lease" _ s) as [[r1|e] s1] eqn:H1; apply _call_spec in H1;
    destruct (_sock (self s)) as [h|].
  - destruct H1 as [Hself Hstep]. unfold get_self, set_self, ret.
    rewrite Hself. cbn [_leases with_req_id].
    destruct (py_in lid (_leases (self s))); intros [= <- <-]; cbn [self wd];
      [|rewrite Hself]; auto.
  - destruct H1 as [H1 _]. discriminate.
  - destruct H1 as [Hself Hstep]. intros [= <- <-]. rewrite Hself. auto.
  - intros [= <- <-]. destruct H1 as [[= ->] ->]. auto.
Qed.

Lemma release_each_spec (lids : list json) :
  forall s s' r, release_each lids s = (r, s') ->
    (forall v, r <> Raise (Vault v)) /\
    match _sock (self s) with
    | None => r = Ok tt /\ s' = s
    | Some h =>
        exists tried rest,
          lids = tried ++ rest /\ (r = Ok tt -> rest = []) /\
          Step (release_requests h (_req_id (self s)) tried) (wd s) (wd s') /\
          self s' = with_leases (with_req_id (self s) (_req_id (self s) + len tried))
                      (_leases (self s'))
    end.
Proof.
  induction lids as [|lid lids IH]; intros s s' r; cbn [release_each].
  - unfold ret. intros [= <- <-]. split; [discriminate|].
    destruct (_sock (self s)) as [h|]; [|auto].
    exists [], []. cbn. rewrite Z.add_0_r.
    split; [reflexivity | split; [reflexivity | split; [apply Step_refl|]]].
    destruct (self s); reflexivity.
  - unfold bind, except_VaultError_pass.
    destruct (release_lease lid s) as [r1 s1] eqn:H1.
    apply release_lease_spec in H1.
    destruct (_sock (self s)) as [h|] eqn:Hsock.
    + destruct H1 as (Hstep1 & Hself1 & _).
      assert (Hsock1 : _sock (self s1) = Some h) by (rewrite Hself1; exact Hsock).
      assert (Hcont : forall r2 s2, release_each lids s1 = (r2, s2) ->
                (forall v, r2 <> Raise (Vault v)) /\
                exists tried rest,
                  lid :: lids = tried ++ rest /\ (r2 = Ok tt -> rest = []) /\
                  Step (release_requests h (_req_id (self s)) tried) (wd s) (wd s2) /\
                  self s2 = with_leases
                              (with_req_id (self s) (_req_id (self s) + len tried))
                              (_leases (self s2))).
      { intros r2 s2 H2. apply IH in H2. rewrite Hsock1 in H2.
        destruct H2 as (Hv & tried & rest & Hl & Hok & Hstep2 & Hself2).
        split; [exact Hv|]. exists (lid :: tried), rest.
        split; [rewrite Hl; reflexivity | split; [exact Hok | split]].
        - cbn [release_requests]. change (?x :: ?l) with ([x] ++ l).
          eapply Step_trans; [exact Hstep1|].
          replace (_req_id (self s) + 1) with (_req_id (self s1))
            by (rewrite Hself1; reflexivity).
          exact Hstep2.
        - rewrite Hself2 at 1. rewrite Hself1.
          unfold with_leases, with_req_id, len. cbn. f_equal. lia. }
      destruct r1 as [u|[v|p]].
      * apply Hcont.
      * apply Hcont.
      * intros [= <- <-]. split; [discriminate|].
        exists [lid], lids. split; [reflexivity | split; [discriminate | split]].
        -- exact Hstep1.
        -- rewrite Hself1. cbn. destruct (self s); reflexivity.
    + destruct H1 as [-> ->]. unfold not_connected, vault_error.
      intros H2. apply IH in H2. rewrite Hsock in H2. exact H2.
Qed.

Lemma close_spec (s s' : state) (r : result unit) :
  close s = (r, s') ->
  (forall v, r <> Raise (Vault v)) /\
  match r with
  | Ok _ =>
      _sock (self s') = None /\ _session_id (self s') = JNull /\
      match _sock (self s) with
      | Some h =>
          exists t,
            trace (wd s') = t ++ [EvClose h] /\
            requests t = requests (trace (wd s))
                           ++ release_requests h (_req_id (self s)) (_leases (self s)) /\
            closes t = closes (trace (wd s))
      | None => wd s' = wd s
      end
  | Raise _ =>
      _sock (self s') = _sock (self s) /\
      _session_id (self s') = _session_id (self s) /\
      closes (trace (wd s')) = closes (trace (wd s))
  end.
Proof.
  unfold close, bind at 1, get_self. unfold bind at 1.
  destruct (release_each (_leases (self s)) s) as [r1 s1] eqn:H1.
  apply release_each_spec in H1. destruct H1 as [Hv H1].
  destruct (_sock (self s)) as [h|] eqn:Hsock.
  - destruct H1 as (tried & rest & Hl & Hok & (Hreq & Hcl & _) & Hself).
    destruct r1 as [u|e].
    + destruct u. rewrite (Hok eq_refl), app_nil_r in Hl. subst tried.
      unfold bind, get_self, set_self, lift, ret. rewrite Hself.
      cbn [_sock with_leases with_req_id]. rewrite Hsock.
      destruct (sock_close h (wd s1)) as [r2 w2] eqn:H2.
      apply sock_close_effect in H2. destruct H2 as [-> Ht].
      cbn [self wd]. intros [= <- <-]. cbn [self wd].
      split; [discriminate|]. split; [reflexivity|]. split; [reflexivity|].
      exists (trace (wd s1)). auto.
    + intros [= <- <-]. split; [exact Hv|]. rewrite Hself. cbn.
      split; [exact Hsock | split; [reflexivity | exact Hcl]].
  - destruct H1 as [-> ->]. unfold bind, get_self, set_self, ret.
    rewrite Hsock. intros [= <- <-]. cbn. split; [discriminate|]. auto.
Qed.

Lemma close_idempotent (s s' : state) :
  close s = (Ok tt, s') -> close s' = (Ok tt, s').
Proof.
  intros H. apply close_spec in H. destruct H as (_ & Hsock & Hsid & _).
  unfold close, bind at 1, get_self. unfold bind at 1.
  destruct (release_each (_leases (self s')) s') as [r1 s1] eqn:H1.
  apply release_each_spec in H1. rewrite Hsock in H1. destruct H1 as (_ & -> & ->).
  unfold bind, get_self, set_self, ret. rewrite Hsock.
  destruct s' as [c w]. destruct c. cbn in *. subst. reflexivity.
Qed.

(** *** Numbering of the requests *)

Lemma Numbered_refl (s : state) : Numbered s s.
Proof. exists O. cbn. rewrite Z.add_0_r, app_nil_r. auto. Qed.

Lemma Numbered_trans (s1 s2 s3 : state) :
  Numbered s1 s2 -> Numbered s2 s3 -> Numbered s1 s3.
Proof.
  intros (a & Ha & Hia) (b & Hb & Hib). exists (a + b)%nat. split.
  - rewrite Hb, Ha, Nat2Z.inj_add. lia.
  - rewrite Hib, Hia, Ha, ids_from_app, app_assoc. reflexivity.
Qed.

Lemma Rpc_Numbered (sk : option handle) (reqs : list (handle * json)) (s s' : state) :
  Rpc sk reqs s s' -> Numbered s s'.
Proof.
  intros ((Hreq & _) & Hn & Hi & _). exists (List.length reqs). split; [exact Hn|].
  unfold request_ids. rewrite Hreq, map_app, Hi. reflexivity.
Qed.

Lemma Numbered_set (s : state) (c : client) :
  _req_id c = _req_id (self s) -> Numbered s (mk_state c (wd s)).
Proof. intros H. eapply Rpc_Numbered. apply (Rpc_set None). exact H. Qed.

Lemma release_requests_ids (h : handle) (lids : list json) :
  forall n, map (fun hr => request_id (snd hr)) (release_requests h n lids)
            = ids_from n (List.length lids).
Proof.
  induction lids as [|lid lids IH]; intros n; [reflexivity|].
  cbn [release_requests map List.length ids_from snd]. rewrite IH. reflexivity.
Qed.

Lemma release_lease_numbered (lid : json) (s s' : state) (r : result unit) :
  release_lease lid s = (r, s') -> Numbered s s'.
Proof.
  intros H. apply release_lease_spec in H. destruct (_sock (self s)) as [h|].
  - destruct H as ((Hreq & _) & Hself & _). exists 1%nat. split.
    + rewrite Hself. reflexivity.
    + unfold request_ids. rewrite Hreq, map_app. reflexivity.
  - destruct H as [_ ->]. apply Numbered_refl.
Qed.

Lemma release_each_numbered (lids : list json) (s s' : state) (r : result unit) :
  release_each lids s = (r, s') -> Numbered s s'.
Proof.
  intros H. apply release_each_spec in H. destruct H as [_ H].
  destruct (_sock (self s)) as [h|].
  - destruct H as (tried & rest & _ & _ & (Hreq & _) & Hself).
    exists (List.length tried). split.
    + rewrite Hself. reflexivity.
    + unfold request_ids. rewrite Hreq, map_app, release_requests_ids. reflexivity.
  - destruct H as [_ ->]. apply Numbered_refl.
Qed.

Lemma close_numbered (s s' : state) (r : result unit) :
  close s = (r, s') -> Numbered s s'.
Proof.
  unfold close, bind at 1, get_self. unfold bind at 1.
  destruct (release_each (_leases (self s)) s) as [r1 s1] eqn:H1.
  apply release_each_numbered in H1.
  destruct r1 as [u|e]; [|intros [= <- <-]; exact H1].
  unfold bind, get_self, set_self, lift, ret.
  destruct (_sock (self s1)) as [h|].
  - destruct (sock_close h (wd s1)) as [r2 w2] eqn:H2.
    apply sock_close_effect in H2. destruct H2 as [-> Ht].
    cbn [self wd]. intros [= <- <-].
    eapply Numbered_trans; [exact H1|]. exists O. cbn [self wd].
    unfold request_ids. rewrite Ht, requests_app. cbn.
    rewrite !app_nil_r, Z.add_0_r. auto.
  - intros [= <- <-]. eapply Numbered_trans; [exact H1|].
    apply Numbered_set. reflexivity.
Qed.

Lemma _call_numbered (method : string) (params : json) (s s' : state) (r : result json) :
  _call method params s = (r, s') -> Numbered s s'.
Proof.
  intros H. apply _call_rpc in H. destruct H as (reqs & H & _).
  eapply Rpc_Numbered. exact H.
Qed.

Lemma connect_numbered (E : env) (tgt : option target) (s s' : state) (r : result unit) :
  connect E tgt s = (r, s') -> Numbered s s'.
Proof.
  intros H. apply connect_spec in H. destruct H as (reqs & H & _).
  eapply Rpc_Numbered. exact H.
Qed.

Lemma retrieve_raw_numbered (path : string) (ttl : option Z) (s s' : state)
  (r : result json) :
  retrieve_raw path ttl s = (r, s') -> Numbered s s'.
Proof.
  unfold retrieve_raw, bind at 1, get_self. unfold bind at 1.
  destruct (_call "retrieve" _ s) as [[r1|e] s1] eqn:H1; apply _call_numbered in H1;
    [|intros [= <- <-]; exact H1].
  unfold bind, of_result, get_self, set_self, ret.
  destruct (py_getitem r1 "lease_id"); intros [= <- <-]; [|exact H1].
  eapply Numbered_trans; [exact H1|]. apply Numbered_set. reflexivity.
Qed.

Lemma retrieve_numbered (E : env) (path : string) (ttl : option Z) (s s' : state)
  (r : result string) :
  retrieve E path ttl s = (r, s') -> Numbered s s'.
Proof.
  unfold retrieve, bind at 1, get_self. unfold bind at 1.
  destruct (_call "retrieve" _ s) as [[r1|e] s1] eqn:H1; apply _call_numbered in H1;
    [|intros [= <- <-]; exact H1].
  unfold bind, of_result, get_self, set_self, ret.
  destruct (py_getitem r1 "lease_id"); [|intros [= <- <-]; exact H1].
  destruct (py_getitem r1 "value") as [v|]; [destruct (py_fromhex v)|];
    intros [= <- <-];
    (eapply Numbered_trans; [exact H1|]; apply Numbered_set; reflexivity).
Qed.

Lemma list_numbered (s s' : state) (r : result json) :
  list_ s = (r, s') -> Numbered s s'.
Proof.
  unfold list_, bind at 1, get_self. unfold bind.
  destruct (_call "list" _ s) as [[r1|e] s1] eqn:H1; apply _call_numbered in H1;
    unfold of_result; intros [= <- <-]; exact H1.
Qed.

Lemma use_numbered (path operation : string) (params : option json) (s s' : state)
  (r : result json) :
  use path operation params s = (r, s') -> Numbered s s'.
Proof.
  unfold use, bind, get_self. apply _call_numbered.
Qed.

Lemma perform_numbered (E : env) (c : api_call) (s : state) :
  Numbered s (perform E c s).
Proof.
  destruct c; cbn [perform].
  - destruct (connect E tgt s) eqn:H. eapply connect_numbered, H.
  - destruct (close s) eqn:H. eapply close_numbered, H.
  - destruct (retrieve E path ttl s) eqn:H. eapply retrieve_numbered, H.
  - destruct (retrieve_raw path ttl s) eqn:H. eapply retrieve_raw_numbered, H.
  - destruct (list_ s) eqn:H. eapply list_numbered, H.
  - destruct (release_lease lease_id s) eqn:H. eapply release_lease_numbered, H.
  - destruct (use path operation params s) eqn:H. eapply use_numbered, H.
Qed.

Lemma session_after_numbered (E : env) (calls : list api_call) :
  forall s, Numbered s (session_after E calls s).
Proof.
  induction calls as [|c calls IH]; intros s; cbn [session_after fold_left].
  - apply Numbered_refl.
  - eapply Numbered_trans; [apply perform_numbered | apply IH].
Qed.

(* ================================================================== *)
(** ** Equality of values, and the list of leases *)

Lemma dict_get_unique_in (k : string) (x : json) (m : list (string * json)) :
  keys_unique m = true -> In (k, x) m -> dict_get k m = Some x.
Proof.
  induction m as [|[k' y] m IH]; intros Hu Hin; [destruct Hin|].
  cbn [keys_unique] in Hu. destruct (dict_get k' m) eqn:Hk; [discriminate|].
  cbn [dict_get]. destruct Hin as [[= -> ->]|Hin].
  - rewrite String.eqb_refl. reflexivity.
  - destruct (String.eqb_spec k k') as [->|Hne]; [|apply IH; assumption].
    apply dict_get_None_notin in Hk. exfalso. apply Hk.
    apply (in_map fst) in Hin. exact Hin.
Qed.

Lemma py_eq_refl (v : json) : wf_json v = true -> py_eq v v = true.
Proof.
  induction v as [| b | z | s | l IHl | m IHm] using json_ind; intros Hwf.
  - reflexivity.
  - destruct b; reflexivity.
  - cbn. apply Z.eqb_refl.
  - cbn. apply String.eqb_refl.
  - cbn [py_eq wf_json] in *. induction IHl as [|x l Hx _ IH]; [reflexivity|].
    cbn [forallb] in Hwf. apply andb_prop in Hwf. destruct Hwf as [Hwx Hwl].
    rewrite (Hx Hwx), (IH Hwl). reflexivity.
  - apply keys_unique_wf in Hwf. destruct Hwf as [Hu Hwm].
    cbn [py_eq]. rewrite Nat.eqb_refl. cbn [andb].
    assert (Hsub : forall m1, incl m1 m ->
              Forall (fun kv => wf_json (snd kv) = true -> py_eq (snd kv) (snd kv) = true) m1 ->
              forallb (fun kv => wf_json (snd kv)) m1 = true ->
              (fix go (m1 : list (string * json)) : bool :=
                 match m1 with
                 | [] => true
                 | (k, x) :: m1' =>
                     match dict_get k m with
                     | Some y => py_eq x y
                     | None => false
                     end && go m1'
                 end) m1 = true).
    { induction m1 as [|[k x] m1 IH1]; intros Hincl Hall Hw; [reflexivity|].
      inversion Hall as [|? ? Hx Hall']; subst.
      cbn [forallb snd] in Hw. apply andb_prop in Hw. destruct Hw as [Hwx Hw1].
      rewrite (dict_get_unique_in k x m Hu) by (apply Hincl; left; reflexivity).
      cbn [snd] in Hx. rewrite (Hx Hwx). cbn [andb].
      apply IH1; [intros y Hy; apply Hincl; right; exact Hy | assumption | assumption]. }
    apply Hsub; [apply incl_refl | exact IHm | exact Hwm].
Qed.

Lemma py_in_count (x : json) (l : list json) :
  py_in x l = false <-> py_count x l = O.
Proof.
  unfold py_in. induction l as [|y l IH]; cbn [existsb py_count]; [tauto|].
  destruct (py_eq y x); cbn [orb Nat.add].
  - split; discriminate.
  - exact IH.
Qed.

Lemma py_in_app_self (x : json) (l : list json) :
  wf_json x = true -> py_in x (l ++ [x]) = true.
Proof.
  intros Hwf. unfold py_in. rewrite existsb_app. cbn.
  rewrite (py_eq_refl x Hwf). rewrite orb_true_r. reflexivity.
Qed.

Lemma py_count_app_self (x : json) (l : list json) :
  wf_json x = true -> py_count x (l ++ [x]) = S (py_count x l).
Proof.
  intros Hwf. induction l as [|y l IH]; cbn [app py_count].
  - rewrite (py_eq_refl x Hwf). reflexivity.
  - rewrite IH. lia.
Qed.

Lemma py_count_remove (x : json) (l : list json) :
  py_count x (py_remove x l) = Nat.pred (py_count x l).
Proof.
  induction l as [|y l IH]; [reflexivity|]. cbn [py_remove py_count].
  destruct (py_eq y x) eqn:E; cbn [Nat.add Nat.pred]; [reflexivity|].
  cbn [py_count]. rewrite E. exact IH.
Qed.

(* ================================================================== *)
(** ** Reading from a socket *)

Lemma unread_list_set (w : world) (h : handle) (st st' : sock_state)
  (d : list dial_outcome) (t : list event) :
  nth_error (socks w) h = Some st ->
  unread (mk_world (list_set h st' (socks w)) d t) h = stream (rx st').
Proof.
  intros H. unfold unread. cbn [socks]. rewrite nth_error_list_set, Nat.eqb_refl, H.
  reflexivity.
Qed.

Lemma sock_recv_stream (h : handle) (k : Z) (w w' : world) (chunk : bytes) :
  0 <= k -> sock_recv h k w = (Ok chunk, w') ->
  unread w h = chunk ++ unread w' h /\ len chunk <= k.
Proof.
  intros Hk. unfold sock_recv, bind, log, usable. cbn [socks dial trace].
  destruct (nth_error (socks w) h) as [st|] eqn:Hn; [|discriminate].
  destruct (connected st && negb (closed st)); [|discriminate].
  assert (Hu : unread w h = stream (rx st)) by (unfold unread; rewrite Hn; reflexivity).
  destruct (rx st) as [|[c|] r] eqn:Hrx.
  - intros [= <- <-]. unfold unread. cbn [socks]. rewrite Hn, Hrx. split; [reflexivity|].
    cbn. exact Hk.
  - destruct (len c <=? k) eqn:Hle; intros [= <- <-];
      rewrite (unread_list_set _ h st) by exact Hn; cbn [rx stream]; rewrite Hu.
    + split; [reflexivity | apply Z.leb_le; exact Hle].
    + cbn [stream]. rewrite app_assoc, firstn_skipn. split; [reflexivity|].
      unfold len. rewrite length_firstn. lia.
  - discriminate.
Qed.

(** [_read_exact] returns exactly [n] bytes, taken from the front of what
    the peer has sent. *)
Lemma read_loop_stream (fuel : nat) (h : handle) (n : Z) :
  forall buf w out w',
    n - len buf <= Z.of_nat fuel -> len buf <= n ->
    read_loop fuel h n buf w = (Ok out, w') ->
    exists got, out = buf ++ got /\ unread w h = got ++ unread w' h /\ len out = n.
Proof.
  induction fuel as [|fuel IH]; intros buf w out w' Hfuel Hle; cbn [read_loop];
    destruct (len buf <? n) eqn:Hlt;
    try (apply Z.ltb_lt in Hlt; lia);
    try (apply Z.ltb_ge in Hlt; unfold ret; intros [= <- <-];
         exists []; rewrite app_nil_r; split; [reflexivity | split; [reflexivity | lia]]).
  apply Z.ltb_lt in Hlt. unfold bind.
  destruct (sock_recv h (n - len buf) w) as [[chunk|e] w1] eqn:Hr; [|discriminate].
  apply sock_recv_stream in Hr; [|lia]. destruct Hr as [Hu Hlen].
  destruct chunk as [|c chunk]; [discriminate|].
  intros H. apply IH in H.
  - destruct H as (got & Hout & Hu1 & Hn). exists ((c :: chunk) ++ got).
    split; [rewrite Hout, app_assoc; reflexivity | split; [|exact Hn]].
    rewrite Hu, Hu1, app_assoc. reflexivity.
  - rewrite len_app. unfold len in *. cbn [List.length] in *. lia.
  - rewrite len_app. lia.
Qed.

Lemma _read_exact_stream (h : handle) (n : Z) (w w' : world) (out : bytes) :
  0 <= n -> _read_exact h n w = (Ok out, w') ->
  unread w h = out ++ unread w' h /\ len out = n.
Proof.
  intros Hn H. unfold _read_exact in H. apply read_loop_stream in H.
  - destruct H as (got & -> & Hu & Hl). auto.
  - cbn. lia.
  - cbn. exact Hn.
Qed.

(* ================================================================== *)
(** ** Increasing identifiers *)

Lemma ids_from_lower (k : nat) : forall n, Forall (fun i => n < i) (ids_from n k).
Proof.
  induction k as [|k IH]; intros n; cbn [ids_from]; constructor; [lia|].
  eapply Forall_impl; [|apply IH]. cbn. intros; lia.
Qed.

Lemma ids_from_sorted (k : nat) : forall n, StronglySorted Z.lt (ids_from n k).
Proof.
  induction k as [|k IH]; intros n; cbn [ids_from]; constructor; [apply IH|].
  apply ids_from_lower.
Qed.

Lemma sorted_map_filter {A : Type} (f : A -> Z) (p : A -> bool) (l : list A) :
  StronglySorted Z.lt (map f l) -> StronglySorted Z.lt (map f (filter p l)).
Proof.
  induction l as [|x l IH]; cbn [map filter]; intros H; [constructor|].
  inversion H as [|? ? Hs Hall]; subst. destruct (p x); cbn [map]; [|auto].
  constructor; [auto|]. rewrite Forall_map in *. rewrite Forall_forall in *.
  intros y Hy. apply filter_In in Hy. apply Hall. tauto.
Qed.

(* ================================================================== *)
(** ** The loop of [close] and what follows it *)

Section Preserves.

Context {S X : Type} (obs : S -> X).

Lemma preserves_ret {A : Type} (a : A) : preserves obs (ret a).
Proof. intros s. reflexivity. Qed.

Lemma preserves_raise {A : Type} (e : exn) : preserves obs (@raise S A e).
Proof. intros s. reflexivity. Qed.

Lemma preserves_of_result {A : Type} (r : result A) : preserves obs (of_result r).
Proof. intros s. reflexivity. Qed.

Lemma preserves_bind {A B : Type} (m : M S A) (k : A -> M S B) :
  preserves obs m -> (forall a, preserves obs (k a)) -> preserves obs (bind m k).
Proof.
  intros Hm Hk s. unfold bind. specialize (Hm s).
  destruct (m s) as [[a|e] s1]; cbn [snd] in *; [rewrite Hk|]; exact Hm.
Qed.

Lemma preserves_except (m : M S unit) :
  preserves obs m -> preserves obs (except_VaultError_pass m).
Proof.
  intros Hm s. unfold except_VaultError_pass. specialize (Hm s).
  destruct (m s) as [[u|[v|p]] s1]; exact Hm.
Qed.

End Preserves.

Lemma preserves_lift {A X : Type} (obs : world -> X) (m : M world A) :
  preserves obs m -> preserves (fun s => obs (wd s)) (lift m).
Proof.
  intros Hm s. unfold lift. specialize (Hm (wd s)).
  destruct (m (wd s)) as [r w1]. exact Hm.
Qed.

Lemma preserves_get_self {X : Type} (obs : world -> X) :
  preserves (fun s => obs (wd s)) get_self.
Proof. intros s. reflexivity. Qed.

Lemma preserves_set_self {X : Type} (obs : world -> X) (c : client) :
  preserves (fun s => obs (wd s)) (set_self c).
Proof. intros s. reflexivity. Qed.

(** *** The table of sockets does not shrink *)

Lemma sockets_sock_sendall (h : handle) (data : bytes) :
  preserves sockets (sock_sendall h data).
Proof.
  intros w. unfold sock_sendall, bind, log, usable, sockets. cbn [socks dial trace].
  destruct (nth_error (socks w) h) as [st|];
    [destruct (connected st && negb (closed st)); [destruct (tx st) as [|[|] t]|]|];
    cbn [snd socks]; rewrite ?length_list_set; reflexivity.
Qed.

Lemma sockets_sock_recv (h : handle) (n : Z) : preserves sockets (sock_recv h n).
Proof.
  intros w. unfold sock_recv, bind, log, usable, sockets. cbn [socks dial trace].
  destruct (nth_error (socks w) h) as [st|];
    [destruct (connected st && negb (closed st));
     [destruct (rx st) as [|[chunk|] t]; [| destruct (len chunk <=? n) |]|]|];
    cbn [snd socks]; rewrite ?length_list_set; reflexivity.
Qed.

Lemma sockets_sock_close (h : handle) : preserves sockets (sock_close h).
Proof.
  intros w. unfold sock_close, bind, log, sockets. cbn [socks dial trace].
  destruct (nth_error (socks w) h); cbn [snd socks]; rewrite ?length_list_set;
    reflexivity.
Qed.

Lemma sockets_send (h : handle) (obj : json) : preserves sockets (send h obj).
Proof.
  unfold send. apply preserves_bind; [intros w; reflexivity|].
  intros _. apply preserves_bind; [apply preserves_of_result|].
  intros hd. apply sockets_sock_sendall.
Qed.

Lemma sockets_read_loop (h : handle) (n : Z) (fuel : nat) :
  forall buf, preserves sockets (read_loop fuel h n buf).
Proof.
  induction fuel as [|fuel IH]; intros buf; cbn [read_loop];
    destruct (len buf <? n); try apply preserves_ret.
  apply preserves_bind; [apply sockets_sock_recv|].
  intros [|c chunk]; [apply preserves_raise | apply IH].
Qed.

Lemma sockets_recv (h : handle) : preserves sockets (recv h).
Proof.
  unfold recv, _read_exact. apply preserves_bind; [apply sockets_read_loop|].
  intros hd. destruct (unpack_u32 hd >? MAX_MESSAGE_SIZE); [apply preserves_raise|].
  apply preserves_bind; [apply sockets_read_loop|]. intros body.
  apply preserves_of_result.
Qed.

Create HintDb preserves.

#[local] Hint Resolve preserves_ret preserves_raise preserves_of_result
  preserves_get_self preserves_set_self preserves_lift preserves_except
  sockets_send sockets_recv sockets_sock_close : preserves.

Ltac preserves_step :=
  match goal with
  | |- preserves _ (bind _ _) => apply preserves_bind; [|intros ?]
  | |- preserves _ (match ?x with _ => _ end) => destruct x
  | |- preserves _ _ => solve [auto with preserves]
  end.

Lemma sockets__call (method : string) (params : json) :
  preserves (fun s => sockets (wd s)) (_call method params).
Proof. unfold _call, _next_id. repeat preserves_step. Qed.

#[local] Hint Resolve sockets__call : preserves.

Lemma sockets__authenticate (E : env) :
  preserves (fun s => sockets (wd s)) (_authenticate E).
Proof. unfold _authenticate. repeat preserves_step. Qed.

Lemma sockets_release_lease (lid : json) :
  preserves (fun s => sockets (wd s)) (release_lease lid).
Proof. unfold release_lease. repeat preserves_step. Qed.

#[local] Hint Resolve sockets_release_lease : preserves.

Lemma sockets_release_each (lids : list json) :
  preserves (fun s => sockets (wd s)) (release_each lids).
Proof.
  induction lids as [|lid rest IH]; cbn [release_each]; [apply preserves_ret|].
  apply preserves_bind; [auto with preserves | intros _; exact IH].
Qed.

(** [connect] is: take the override into account, open a socket to the
    designated address, authenticate. *)
Lemma connect_unfold (E : env) (tgt : option target) (s : state) :
  connect E tgt s
  = ((sock <- lift socket_socket ;;
      set_self (with_sock (retarget (self s) tgt) (Some sock)) ;;
      lift (sock_connect sock (designated E (retarget (self s) tgt)))) ;;
     _authenticate E) (mk_state (retarget (self s) tgt) (wd s)).
Proof.
  destruct s as [c w]. unfold connect. unfold bind at 1, get_self.
  unfold bind at 1. cbn [self wd].
  assert (H0 : match tgt with
               | Some (TargetPath p) => set_self (with_target c (Some p) None (_port c))
               | Some (TargetHostPort h p) => set_self (with_target c None (Some h) (Some p))
               | None => ret tt
               end (mk_state c w) = (Ok tt, mk_state (retarget c tgt) w))
    by (destruct tgt as [[p|h p]|]; reflexivity).
  rewrite H0. clear H0. generalize (retarget c tgt). clear c. intros c.
  unfold bind at 1, get_self. cbn [self wd]. unfold bind at 1. unfold bind at 3.
  unfold designated.
  destruct (_host c) as [[|a hs]|], (_port c) as [p|],
    (_socket_path c) as [[|b q]|];
    cbn [str_truthy port_truthy andb]; try destruct (p =? 0); reflexivity.
Qed.

(** [connect] leaves the socket it created in the table. *)
Lemma connect_socket_present (E : env) (tgt : option target) (s : state) :
  (List.length (socks (wd s)) < sockets (wd (snd (connect E tgt s))))%nat.
Proof.
  rewrite connect_unfold. unfold bind at 1.
  assert (Hopen : forall c0 a s0,
            sockets (wd (snd ((sock <- lift socket_socket ;;
                               set_self (with_sock c0 (Some sock)) ;;
                               lift (sock_connect sock a)) s0)))
            = S (List.length (socks (wd s0)))).
  { intros c0 a s0.
    unfold bind, lift, set_self, socket_socket, sock_connect, bind, log, sockets.
    cbn [self wd socks dial trace].
    destruct (dial (wd s0)) as [|[|rx0 tx0] rest]; cbn [snd wd socks];
      rewrite ?length_list_set, length_app; cbn [List.length]; lia. }
  specialize (Hopen (retarget (self s) tgt) (designated E (retarget (self s) tgt))
                (mk_state (retarget (self s) tgt) (wd s))).
  cbn [wd] in Hopen.
  match type of Hopen with
  | context [snd ?x] => destruct x as [[u|e] s1]
  end; cbn [snd] in *; [|lia].
  rewrite (sockets__authenticate E s1). lia.
Qed.

(** *** The loop *)

Lemma release_each_Releases (lids : list json) :
  forall s, Releases lids s (fst (release_each lids s)) (snd (release_each lids s)).
Proof.
  induction lids as [|lid rest IH]; intros s; cbn [release_each].
  - apply Releases_done.
  - unfold bind, except_VaultError_pass.
    destruct (release_lease lid s) as [[u|[v|p]] s1] eqn:H; cbn [fst snd].
    + destruct u. eapply Releases_released; [exact H|].
      specialize (IH s1). destruct (release_each rest s1) as [r s']. exact IH.
    + eapply Releases_swallowed; [exact H|].
      specialize (IH s1). destruct (release_each rest s1) as [r s']. exact IH.
    + apply Releases_stopped. exact H.
Qed.

Lemma close_unfold (s : state) :
  close s
  = match release_each (_leases (self s)) s with
    | (Raise e, s0) => (Raise e, s0)
    | (Ok _, s0) =>
        (Ok tt,
         mk_state (with_session_id (with_sock (self s0) None) JNull)
           match _sock (self s0) with
           | Some h => snd (sock_close h (wd s0))
           | None => wd s0
           end)
    end.
Proof.
  unfold close. unfold bind at 1, get_self. unfold bind at 1.
  destruct (release_each (_leases (self s)) s) as [[u|e] s0]; [|reflexivity].
  unfold bind, get_self, set_self, ret, lift.
  destruct (_sock (self s0)) as [h|] eqn:Hs.
  - destruct (sock_close h (wd s0)) as [r w'] eqn:Hc.
    apply sock_close_effect in Hc. destruct Hc as [-> _]. reflexivity.
  - destruct s0 as [c w]. destruct c. cbn in *. subst. reflexivity.
Qed.

(** [close] is the loop, then the disconnection. *)
Lemma close_Disconnects (s s' : state) (r : result unit) :
  close s = (r, s') ->
  exists r0 s0, Releases (_leases (self s)) s r0 s0 /\ Disconnects r0 s0 r s'.
Proof.
  rewrite close_unfold. pose proof (release_each_Releases (_leases (self s)) s) as H.
  destruct (release_each (_leases (self s)) s) as [[u|e] s0]; cbn [fst snd] in H;
    intros [= <- <-].
  - destruct u. exists (Ok tt), s0. split; [exact H|]. cbn. auto.
  - exists (Raise e), s0. split; [exact H|]. cbn. auto.
Qed.

Lemma close_no_leases (s : state) :
  _leases (self s) = [] -> exists s', close s = (Ok tt, s').
Proof.
  intros H. rewrite close_unfold, H. cbn [release_each]. unfold ret. eauto.
Qed.

(** A [close] that raises has closed nothing. *)
Lemma close_raise_open (s s' : state) (e : exn) :
  close s = (Raise e, s') ->
  forall h, is_closed (wd s') h = true -> is_closed (wd s) h = true.
Proof.
  rewrite close_unfold.
  destruct (release_each (_leases (self s)) s) as [[u|e0] s0] eqn:H; [discriminate|].
  intros [= <- <-]. apply release_each_spec in H. destruct H as (_ & H).
  destruct (_sock (self s)) as [h0|].
  - destruct H as (tried & rest & _ & _ & (_ & _ & Hst) & _). exact Hst.
  - destruct H as (_ & ->). auto.
Qed.

(** A [close] that returns has closed the socket that was stored. *)
Lemma close_closes_socket (s s' : state) (h : handle) :
  _sock (self s) = Some h ->
  (h < sockets (wd s))%nat ->
  close s = (Ok tt, s') ->
  is_closed (wd s') h = true.
Proof.
  intros Hsock Hlt. rewrite close_unfold.
  pose proof (sockets_release_each (_leases (self s)) s) as Hn.
  destruct (release_each (_leases (self s)) s) as [[u|e0] s0] eqn:H; [|discriminate].
  cbn [snd] in Hn. intros [= <-]. cbn [wd].
  apply release_each_spec in H. destruct H as (_ & H). rewrite Hsock in H.
  destruct H as (tried & rest & _ & _ & _ & Hself).
  rewrite Hself. cbn [_sock with_leases with_req_id]. rewrite Hsock.
  unfold sock_close, bind, log. cbn [socks dial trace].
  destruct (nth_error (socks (wd s0)) h) as [st|] eqn:Hnth.
  - cbn [snd]. unfold is_closed, closed_in. cbn [socks].
    rewrite nth_error_list_set, Nat.eqb_refl, Hnth. reflexivity.
  - apply nth_error_None in Hnth. unfold sockets in *. lia.
Qed.

Lemma Releases_functional (lids : list json) (s : state) (r0 : result unit)
  (s0 : state) :
  Releases lids s r0 s0 -> release_each lids s = (r0, s0).
Proof.
  induction 1 as [s | lid rest s s1 r s' Hrel _ IH | lid rest s v s1 r s' Hrel _ IH
                 | lid rest s p s1 Hrel]; cbn [release_each].
  - reflexivity.
  - unfold bind, except_VaultError_pass. rewrite Hrel. exact IH.
  - unfold bind, except_VaultError_pass. rewrite Hrel. exact IH.
  - unfold bind, except_VaultError_pass. rewrite Hrel. reflexivity.
Qed.

Lemma close_after_loop (s s' : state) (r r0 : result unit) (s0 : state) :
  close s = (r, s') ->
  release_each (_leases (self s)) s = (r0, s0) ->
  Disconnects r0 s0 r s'.
Proof.
  rewrite close_unfold. intros H Hloop. rewrite Hloop in H.
  destruct r0 as [u|e]; injection H as <- <-; cbn; auto.
Qed.

(** The handshake leaves the leases alone. *)
Lemma _call_leases (method : string) (params : json) (s s' : state)
  (r : result json) :
  _call method params s = (r, s') -> _leases (self s') = _leases (self s).
Proof.
  intros H. apply _call_rpc in H. destruct H as (_ & _ & _ & ->). reflexivity.
Qed.

(* ================================================================== *)
(** * The claims *)

(** ** C1: a handshake that is not confirmed *)

(** C1 (as amended).  When the result of [challenge_response] has an
    [authenticated] field that is false, absent or otherwise falsy, the
    handshake raises [AuthError("Authentication not confirmed",
    code="AUTH_FAILED")]; the session identifier received from
    [authenticate] stays stored in the client, and so does its socket; the
    tracked leases are those of before.  A later [close] that returns
    clears both, and [close] returns whenever no lease is tracked.  A
    later [close] that raises leaves both stored; it can raise only when a
    lease is tracked, and then an error outside the [VaultError]
    family. *)
Theorem handshake_not_confirmed
  (E : env) (s s1 s2 : state) (sk challenge : bytes) (r1 r2 sid a : json)
  (c : string) :
  _resolve_key E (self s) = Ok sk ->
  _call "authenticate"
    (JObj [("agent_name"%string, JStr (agent_name (self s)))]) s = (Ok r1, s1) ->
  py_getitem r1 "session_id" = Ok sid ->
  py_getitem r1 "challenge" = Ok (JStr c) ->
  fromhex c = Some challenge ->
  _call "challenge_response"
    (JObj [("session_id"%string, sid);
           ("signature"%string, JStr (hex (ed25519_sign E sk challenge)))])
    (mk_state (with_session_id (self s1) sid) (wd s1)) = (Ok r2, s2) ->
  py_get r2 "authenticated" JNull = Ok a ->
  py_truthy a = false ->
  _authenticate E s = (Raise not_confirmed, s2) /\
  _session_id (self s2) = sid /\
  _sock (self s2) = _sock (self s) /\
  _leases (self s2) = _leases (self s) /\
  (forall r s3,
     close s2 = (r, s3) ->
     (r = Ok tt -> _sock (self s3) = None /\ _session_id (self s3) = JNull) /\
     (forall e,
        r = Raise e ->
        (exists p, e = Py p) /\ _leases (self s) <> [] /\
        _sock (self s3) = _sock (self s) /\ _session_id (self s3) = sid)) /\
  (_leases (self s) = [] -> exists s3, close s2 = (Ok tt, s3)).
Proof.
  intros Hkey H1 Hsid Hch Hhex H2 Ha Hfalse.
  assert (Hsession : _session_id (self s2) = sid).
  { pose proof H2 as H. apply _call_rpc in H. destruct H as (_ & _ & _ & ->).
    reflexivity. }
  assert (Hsock : _sock (self s2) = _sock (self s)).
  { pose proof H1 as H. apply _call_rpc in H. destruct H as (_ & _ & _ & Hs1).
    pose proof H2 as H. apply _call_rpc in H. destruct H as (_ & _ & _ & ->).
    cbn [self _sock with_req_id with_session_id]. rewrite Hs1. reflexivity. }
  assert (Hleases : _leases (self s2) = _leases (self s)).
  { rewrite (_call_leases _ _ _ _ _ H2). cbn [self _leases with_session_id].
    exact (_call_leases _ _ _ _ _ H1). }
  split; [|split; [exact Hsession | split; [exact Hsock | split; [exact Hleases|]]]].
  - unfold _authenticate, bind, get_self, of_result, set_self, ret, raise.
    rewrite Hkey, H1, Hsid. cbn [self wd]. rewrite Hch. cbn [py_fromhex].
    rewrite Hhex. cbn [_session_id with_session_id]. rewrite H2, Ha, Hfalse.
    reflexivity.
  - split.
    + intros r s3 Hclose. pose proof (close_spec s2 s3 r Hclose) as [Hv Hspec].
      split.
      * intros ->. destruct Hspec as (Hs & Hi & _). auto.
      * intros e ->. destruct Hspec as (Hs & Hi & _).
        split; [destruct e as [v|p]; [exfalso; exact (Hv v eq_refl) | eauto]|].
        split; [|split; [rewrite Hs; exact Hsock | rewrite Hi; exact Hsession]].
        intros Hnil. rewrite <- Hleases in Hnil.
        destruct (close_no_leases s2 Hnil) as (s3' & Hok). congruence.
    + intros Hnil. apply close_no_leases. rewrite Hleases. exact Hnil.
Qed.

Lemma handshake_not_confirmed_witness :
  (_resolve_key toy_env (self bot_refused) = Ok toy_seed /\
   _call "authenticate"
     (JObj [("agent_name"%string, JStr (agent_name (self bot_refused)))]) bot_refused
   = (Ok challenge_result, refused_1) /\
   py_getitem challenge_result "session_id" = Ok (JStr "sess-1") /\
   py_getitem challenge_result "challenge" = Ok (JStr "00ff") /\
   fromhex "00ff" = Some ["000"%char; "255"%char] /\
   _call "challenge_response"
     (JObj [("session_id"%string, JStr "sess-1");
            ("signature"%string,
             JStr (hex (ed25519_sign toy_env toy_seed ["000"%char; "255"%char])))])
     (mk_state (with_session_id (self refused_1) (JStr "sess-1")) (wd refused_1))
   = (Ok (JObj [("authenticated"%string, JBool false)]), refused_2) /\
   py_get (JObj [("authenticated"%string, JBool false)]) "authenticated" JNull
   = Ok (JBool false) /\
   py_truthy (JBool false) = false /\
   _leases (self bot_refused) = []) /\
  (_authenticate toy_env bot_refused = (Raise not_confirmed, refused_2) /\
   _session_id (self refused_2) = JStr "sess-1" /\
   _sock (self refused_2) = _sock (self bot_refused) /\
   exists s3,
     close refused_2 = (Ok tt, s3) /\
     _sock (self s3) = None /\ _session_id (self s3) = JNull).
Proof.
  split.
  - repeat split; vm_compute; reflexivity.
  - destruct (handshake_not_confirmed toy_env bot_refused refused_1 refused_2 toy_seed
                ["000"%char; "255"%char] challenge_result
                (JObj [("authenticated"%string, JBool false)]) (JStr "sess-1")
                (JBool false) "00ff")
      as (Hauth & Hsid & Hsock & _ & Hclose & Hreturns);
      try (vm_compute; reflexivity).
    destruct (Hreturns eq_refl) as (s3 & Hs3).
    destruct (proj1 (Hclose _ _ Hs3) eq_refl) as (Hs & Hi).
    split; [exact Hauth | split; [exact Hsid | split; [exact Hsock|]]].
    exists s3. exact (conj Hs3 (conj Hs Hi)).
Defined.

(** The claim as stated fails: after the refused handshake the session
    identifier is still stored. *)
Lemma handshake_keeps_session_id :
  fst (_authenticate toy_env bot_refused) = Raise not_confirmed /\
  _session_id (self bot_refused) = JNull /\
  _session_id (self (snd (_authenticate toy_env bot_refused))) = JStr "sess-1" /\
  _session_id (self (snd (_authenticate toy_env bot_refused))) <> JNull.
Proof.
  vm_compute. repeat split; discriminate.
Qed.

(** A [close] after the refused handshake can raise: a lease is tracked
    and the socket does not transmit its release.  The session identifier
    and the socket are then still stored. *)
Example close_after_refusal_can_raise :
  fst (_authenticate toy_env bot_refused_leasing) = Raise not_confirmed /\
  fst (close (snd (_authenticate toy_env bot_refused_leasing))) = Raise (Py OSError) /\
  _session_id (self (snd (close (snd (_authenticate toy_env bot_refused_leasing)))))
  = JStr "sess-1" /\
  _sock (self (snd (close (snd (_authenticate toy_env bot_refused_leasing)))))
  = Some O.
Proof.
  vm_compute. repeat split.
Qed.

(** ** C2: a handshake that fails inside [connect] *)

(** C2 (as amended).  When [connect] fails, for whatever reason, it has
    called [close] on no socket: the socket it created is still stored in
    [_sock] and is not closed, and the leases are those of before.
    Closing the socket is left to a later [close()] of the caller.  A
    [close()] that returns has called [close] on that socket, which is
    then closed, and [close()] returns whenever no lease is tracked.  A
    [close()] that raises has not closed it: the socket is still stored
    and open; this can happen only when a lease is tracked, and the error
    is then outside the [VaultError] family. *)
Theorem failed_connect_keeps_transport
  (E : env) (tgt : option target) (s s' : state) (e : exn) :
  connect E tgt s = (Raise e, s') ->
  closes (trace (wd s')) = closes (trace (wd s)) /\
  _sock (self s') = Some (List.length (socks (wd s))) /\
  is_closed (wd s') (List.length (socks (wd s))) = false /\
  _leases (self s') = _leases (self s) /\
  (forall r s'',
     close s' = (r, s'') ->
     (r = Ok tt ->
        closes (trace (wd s''))
        = closes (trace (wd s')) ++ [List.length (socks (wd s))] /\
        is_closed (wd s'') (List.length (socks (wd s))) = true /\
        _sock (self s'') = None) /\
     (forall e0,
        r = Raise e0 ->
        (exists p, e0 = Py p) /\ _leases (self s) <> [] /\
        closes (trace (wd s'')) = closes (trace (wd s')) /\
        is_closed (wd s'') (List.length (socks (wd s))) = false /\
        _sock (self s'') = Some (List.length (socks (wd s))))) /\
  (_leases (self s) = [] -> exists s'', close s' = (Ok tt, s'')).
Proof.
  intros H. pose proof (connect_socket_present E tgt s) as Hpresent.
  rewrite H in Hpresent. cbn [snd] in Hpresent.
  apply connect_spec in H.
  destruct H as (reqs & ((_ & Hcl & _) & _) & _ & Hsock & Hopen & Hleases).
  split; [exact Hcl | split; [exact Hsock | split; [exact Hopen|]]].
  split; [exact Hleases|]. split.
  - intros r s'' Hclose. pose proof (close_spec s' s'' r Hclose) as [Hv Hspec].
    split.
    + intros ->. destruct Hspec as (Hs & _ & Hc). rewrite Hsock in Hc.
      destruct Hc as (t & Ht & _ & Hct).
      split; [rewrite Ht, closes_app, Hct; reflexivity|].
      split; [|exact Hs].
      exact (close_closes_socket s' s'' _ Hsock Hpresent Hclose).
    + intros e0 ->. destruct Hspec as (Hs & _ & Hc).
      split; [destruct e0 as [v|p]; [exfalso; exact (Hv v eq_refl) | eauto]|].
      split; [|split; [exact Hc | split; [|rewrite Hs; exact Hsock]]].
      * intros Hnil. rewrite <- Hleases in Hnil.
        destruct (close_no_leases s' Hnil) as (s3 & Hok). congruence.
      * destruct (is_closed (wd s'') (List.length (socks (wd s)))) eqn:Hc2;
          [|reflexivity].
        apply (close_raise_open s' s'' _ Hclose) in Hc2. congruence.
  - intros Hnil. apply close_no_leases. rewrite Hleases. exact Hnil.
Qed.

Lemma failed_connect_keeps_transport_witness :
  (connect toy_env None bot_start
   = (Raise not_confirmed, snd (connect toy_env None bot_start)) /\
   _leases (self bot_start) = []) /\
  closes (trace (wd (snd (connect toy_env None bot_start)))) = [] /\
  _sock (self (snd (connect toy_env None bot_start))) = Some O /\
  is_closed (wd (snd (connect toy_env None bot_start))) O = false /\
  exists s'',
    close (snd (connect toy_env None bot_start)) = (Ok tt, s'') /\
    closes (trace (wd s'')) = [O] /\
    is_closed (wd s'') O = true.
Proof.
  assert (H : connect toy_env None bot_start
              = (Raise not_confirmed, snd (connect toy_env None bot_start)))
    by (vm_compute; reflexivity).
  split; [split; [exact H | reflexivity]|].
  destruct (failed_connect_keeps_transport toy_env None bot_start _ not_confirmed H)
    as (Hcl & Hsock & Hopen & _ & Hclose & Hreturns).
  destruct (Hreturns eq_refl) as (s'' & Hs'').
  destruct (proj1 (Hclose _ _ Hs'') eq_refl) as (Hc & Hd & _).
  split; [exact Hcl | split; [exact Hsock | split; [exact Hopen|]]].
  exists s''. split; [exact Hs'' | split; [|exact Hd]].
  rewrite Hc, Hcl. reflexivity.
Defined.

(** The claim as stated fails: the handshake is refused, and [connect]
    raises with the socket it opened still open and no [close] called. *)
Lemma failed_connect_closes_nothing :
  fst (connect toy_env None bot_start) = Raise not_confirmed /\
  closes (trace (wd (snd (connect toy_env None bot_start)))) = [] /\
  _sock (self (snd (connect toy_env None bot_start))) = Some O /\
  is_closed (wd (snd (connect toy_env None bot_start))) O = false.
Proof.
  vm_compute. repeat split.
Qed.

(** A [close()] after the failed [connect] can raise and leave the socket
    open: a lease was carried over from an earlier connection and the new
    socket does not transmit its release. *)
Example close_after_failed_connect_can_raise :
  fst (connect toy_env None bot_start_leasing) = Raise not_confirmed /\
  fst (close (snd (connect toy_env None bot_start_leasing))) = Raise (Py OSError) /\
  closes (trace (wd (snd (close (snd (connect toy_env None bot_start_leasing)))))) = [] /\
  is_closed (wd (snd (close (snd (connect toy_env None bot_start_leasing))))) O = false /\
  _sock (self (snd (close (snd (connect toy_env None bot_start_leasing))))) = Some O.
Proof.
  vm_compute. repeat split.
Qed.

(** ** C3: [close] *)

(** C3 (as amended).  [close] releases the tracked leases in order.  A
    release that raises an error of the [VaultError] family is swallowed
    and the loop goes on with the next lease; no such error leaves
    [close].  A release that raises an error of another kind, an
    [OSError] of the socket for one, is not swallowed: [close] raises it
    at once, in the state that the release left, so that the leases that
    follow are not attempted, [close] is not called on the socket, and
    [_sock] and [_session_id] stay.  When the loop ends without such an
    error, a release request has been issued for every tracked lease, in
    order (when a socket was stored; without one every attempt fails at
    once with "Not connected" and the world is untouched), then [close] is
    called on the socket, and [_sock] and [_session_id] are cleared; a
    second [close] then changes nothing and raises nothing. *)
Theorem close_releases_then_disconnects (s s' : state) (r : result unit) :
  close s = (r, s') ->
  (forall v, r <> Raise (Vault v)) /\
  (r = Ok tt ->
     match _sock (self s) with
     | Some h =>
         exists t,
           trace (wd s') = t ++ [EvClose h] /\
           requests t = requests (trace (wd s))
                          ++ release_requests h (_req_id (self s)) (_leases (self s)) /\
           closes t = closes (trace (wd s))
     | None => wd s' = wd s
     end /\
     _sock (self s') = None /\
     _session_id (self s') = JNull /\
     close s' = (Ok tt, s')) /\
  (forall p, r = Raise (Py p) ->
     _sock (self s') = _sock (self s) /\
     _session_id (self s') = _session_id (self s) /\
     closes (trace (wd s')) = closes (trace (wd s))) /\
  (exists r0 s0, Releases (_leases (self s)) s r0 s0) /\
  (forall r0 s0, Releases (_leases (self s)) s r0 s0 -> Disconnects r0 s0 r s') /\
  (forall lid rest p s1,
     _leases (self s) = lid :: rest ->
     release_lease lid s = (Raise (Py p), s1) ->
     r = Raise (Py p) /\ s' = s1) /\
  (forall lid rest v s1,
     _leases (self s) = lid :: rest ->
     release_lease lid s = (Raise (Vault v), s1) ->
     exists r0 s0, Releases rest s1 r0 s0 /\ Disconnects r0 s0 r s').
Proof.
  intros H. pose proof (close_spec s s' r H) as [Hv Hspec].
  assert (Hloop : forall r0 s0,
            Releases (_leases (self s)) s r0 s0 -> Disconnects r0 s0 r s').
  { intros r0 s0 Hrel. apply Releases_functional in Hrel.
    exact (close_after_loop s s' r r0 s0 H Hrel). }
  split; [exact Hv | split; [|split; [|split; [|split; [exact Hloop | split]]]]].
  - intros ->. destruct Hspec as (Hsock & Hsid & Hw).
    split; [exact Hw | split; [exact Hsock | split; [exact Hsid|]]].
    eapply close_idempotent. exact H.
  - intros p ->. exact Hspec.
  - exists (fst (release_each (_leases (self s)) s)),
      (snd (release_each (_leases (self s)) s)).
    apply release_each_Releases.
  - intros lid rest p s1 Hl Hrel.
    assert (Hr : Releases (_leases (self s)) s (Raise (Py p)) s1)
      by (rewrite Hl; apply Releases_stopped; exact Hrel).
    exact (Hloop _ _ Hr).
  - intros lid rest v s1 Hl Hrel.
    exists (fst (release_each rest s1)), (snd (release_each rest s1)).
    pose proof (release_each_Releases rest s1) as Hrest.
    split; [exact Hrest|]. apply Hloop. rewrite Hl.
    eapply Releases_swallowed; [exact Hrel | exact Hrest].
Qed.

Lemma close_releases_then_disconnects_witness :
  (close draining = (Ok tt, snd (close draining)) /\
   _leases (self draining) = [JStr "L1"; JStr "L2"] /\
   fst (release_lease (JStr "L1") draining)
   = Raise (Vault (mk_vault_exc LeaseExpired (JStr "gone") (JStr "LEASE_EXPIRED")
                     JNull JNull JNull (JObj [])))) /\
  (exists t,
     trace (wd (snd (close draining))) = t ++ [EvClose O] /\
     requests t = [(O, release_request 2 (JStr "L1"));
                   (O, release_request 3 (JStr "L2"))]) /\
  _sock (self (snd (close draining))) = None /\
  _session_id (self (snd (close draining))) = JNull /\
  close (snd (close draining)) = (Ok tt, snd (close draining)) /\
  exists r0 s0,
    Releases [JStr "L2"] (snd (release_lease (JStr "L1") draining)) r0 s0 /\
    Disconnects r0 s0 (Ok tt) (snd (close draining)).
Proof.
  assert (H : close draining = (Ok tt, snd (close draining)))
    by (vm_compute; reflexivity).
  assert (Hrel : release_lease (JStr "L1") draining
                 = (Raise (Vault (mk_vault_exc LeaseExpired (JStr "gone")
                                    (JStr "LEASE_EXPIRED") JNull JNull JNull (JObj []))),
                    snd (release_lease (JStr "L1") draining)))
    by (vm_compute; reflexivity).
  split; [split; [exact H | split; [reflexivity | vm_compute; reflexivity]]|].
  destruct (close_releases_then_disconnects draining _ (Ok tt) H)
    as (_ & Hok & _ & _ & _ & _ & Hgo).
  destruct (Hok eq_refl) as (Ht & Hs & Hi & Hagain).
  change (_sock (self draining)) with (Some O) in Ht.
  destruct Ht as (t & Ht & Hq & _).
  split; [exists t; split; [exact Ht | exact Hq]|].
  split; [exact Hs | split; [exact Hi | split; [exact Hagain|]]].
  exact (Hgo (JStr "L1") [JStr "L2"] _ _ eq_refl Hrel).
Defined.

(** The claim as stated fails: the first release fails with [OSError];
    [close] raises it, the second lease is never attempted, the socket is
    not closed and the session identifier is not cleared. *)
Lemma close_stops_at_socket_error :
  fst (close broken_pipe) = Raise (Py OSError) /\
  _leases (self broken_pipe) = [JStr "L1"; JStr "L2"] /\
  requests (trace (wd (snd (close broken_pipe))))
  = [(O, release_request 2 (JStr "L1"))] /\
  closes (trace (wd (snd (close broken_pipe)))) = [] /\
  _sock (self (snd (close broken_pipe))) = Some O /\
  _session_id (self (snd (close broken_pipe))) = JStr "sess-1".
Proof.
  vm_compute. repeat split.
Qed.

(** ** C4: the list of active leases *)

Lemma retrieve_raw_ok (path : string) (ttl : option Z) (s s' : state) (r : json) :
  retrieve_raw path ttl s = (Ok r, s') ->
  exists lid,
    py_getitem r "lease_id" = Ok lid /\
    _leases (self s') = _leases (self s) ++ [lid].
Proof.
  unfold retrieve_raw, bind at 1, get_self. unfold bind at 1.
  destruct (_call "retrieve" _ s) as [[r1|e] s1] eqn:H1; [|discriminate].
  apply _call_rpc in H1. destruct H1 as (_ & _ & _ & Hs1).
  unfold bind, of_result, get_self, set_self, ret.
  destruct (py_getitem r1 "lease_id") as [lid|] eqn:Hl; [|discriminate].
  intros [= <- <-]. exists lid. split; [exact Hl|].
  cbn [self _leases with_leases]. rewrite Hs1. reflexivity.
Qed.

Lemma retrieve_ok (E : env) (path : string) (ttl : option Z) (s s' : state) (v : string) :
  retrieve E path ttl s = (Ok v, s') ->
  exists r, retrieve_raw path ttl s = (Ok r, s').
Proof.
  intros H. unfold retrieve in H. unfold retrieve_raw.
  unfold bind, get_self, of_result, set_self, ret in *.
  destruct (_call "retrieve" _ s) as [[r1|e] s1]; [|discriminate].
  destruct (py_getitem r1 "lease_id") as [lid|]; [|discriminate].
  cbn [self wd] in *.
  destruct (py_getitem r1 "value") as [x|]; [|discriminate].
  destruct (py_fromhex x); [|discriminate].
  injection H as _ <-. exists r1. reflexivity.
Qed.

(** C4 (as amended).  The active leases are kept in a list.  A successful
    [retrieve_raw] appends the [lease_id] of its result once: the
    identifier is then present, with one occurrence more than before; a
    successful [retrieve] does what [retrieve_raw] does.  A successful
    [release_lease] removes one occurrence, the first, of the identifier:
    the identifier is absent afterwards when it had been tracked once.
    [release_lease] on an absent identifier leaves the list alone; present
    or absent, [release_lease] raises only what its RPC call raises. *)
Theorem lease_tracking :
  (forall path ttl s r s',
     retrieve_raw path ttl s = (Ok r, s') ->
     exists lid,
       py_getitem r "lease_id" = Ok lid /\
       _leases (self s') = _leases (self s) ++ [lid] /\
       (wf_json lid = true ->
        py_in lid (_leases (self s')) = true /\
        py_count lid (_leases (self s')) = S (py_count lid (_leases (self s))))) /\
  (forall E path ttl s v s',
     retrieve E path ttl s = (Ok v, s') ->
     exists r, retrieve_raw path ttl s = (Ok r, s')) /\
  (forall lid s s',
     release_lease lid s = (Ok tt, s') ->
     py_count lid (_leases (self s')) = Nat.pred (py_count lid (_leases (self s))) /\
     (py_count lid (_leases (self s)) <= 1 -> py_in lid (_leases (self s')) = false)%nat) /\
  (forall lid s r s',
     release_lease lid s = (r, s') ->
     (py_in lid (_leases (self s)) = false -> _leases (self s') = _leases (self s)) /\
     r = match fst (_call "release_lease" (JObj [("lease_id"%string, lid)]) s) with
         | Ok _ => Ok tt
         | Raise e => Raise e
         end).
Proof.
  split; [|split; [|split]].
  - intros path ttl s r s' H. apply retrieve_raw_ok in H.
    destruct H as (lid & Hl & Hs). exists lid. split; [exact Hl | split; [exact Hs|]].
    intros Hwf. rewrite Hs. split; [apply py_in_app_self | apply py_count_app_self]; exact Hwf.
  - intros E path ttl s v s'. apply retrieve_ok.
  - intros lid s s' H.
    assert (Hl : _leases (self s') =
                 if py_in lid (_leases (self s)) then py_remove lid (_leases (self s))
                 else _leases (self s)).
    { apply release_lease_spec in H. destruct (_sock (self s)) as [h|].
      - destruct H as (_ & _ & H). exact H.
      - destruct H as [H _]. discriminate. }
    assert (Hc : py_count lid (_leases (self s'))
                 = Nat.pred (py_count lid (_leases (self s)))).
    { rewrite Hl. destruct (py_in lid (_leases (self s))) eqn:Hin.
      - apply py_count_remove.
      - apply py_in_count in Hin. rewrite Hin. reflexivity. }
    split; [exact Hc|]. intros Hone. apply py_in_count. rewrite Hc. lia.
  - intros lid s r s'. unfold release_lease, bind.
    destruct (_call "release_lease" _ s) as [[r1|e] s1] eqn:H1; cbn [fst].
    + apply _call_rpc in H1. destruct H1 as (_ & _ & _ & Hs1).
      unfold get_self, set_self, ret.
      destruct (py_in lid (_leases (self s1))) eqn:Hin; intros [= <- <-].
      * split; [|reflexivity]. intros Habs. rewrite Hs1 in Hin.
        cbn [_leases with_req_id] in Hin. congruence.
      * split; [|reflexivity]. intros _. rewrite Hs1. reflexivity.
    + apply _call_rpc in H1. destruct H1 as (_ & _ & _ & Hs1).
      intros [= <- <-]. split; [|reflexivity]. intros _. rewrite Hs1. reflexivity.
Qed.

Lemma lease_tracking_witness :
  (retrieve_raw "db/password" None single_lease
   = (Ok (lease_result "L"), single_lease_1) /\
   wf_json (JStr "L") = true /\
   release_lease (JStr "L") single_lease_1 = (Ok tt, single_lease_2) /\
   (py_count (JStr "L") (_leases (self single_lease_1)) <= 1)%nat /\
   py_in (JStr "M") (_leases (self single_lease_2)) = false /\
   release_lease (JStr "M") single_lease_2 = (Ok tt, single_lease_3)) /\
  (_leases (self single_lease_1) = [JStr "L"] /\
   py_in (JStr "L") (_leases (self single_lease_1)) = true /\
   py_in (JStr "L") (_leases (self single_lease_2)) = false /\
   _leases (self single_lease_3) = _leases (self single_lease_2)).
Proof.
  destruct lease_tracking as (Hadd & _ & Hdel & Habs).
  assert (H1 : retrieve_raw "db/password" None single_lease
               = (Ok (lease_result "L"), single_lease_1)) by (vm_compute; reflexivity).
  assert (H2 : release_lease (JStr "L") single_lease_1 = (Ok tt, single_lease_2))
    by (vm_compute; reflexivity).
  assert (H3 : release_lease (JStr "M") single_lease_2 = (Ok tt, single_lease_3))
    by (vm_compute; reflexivity).
  assert (Hone : (py_count (JStr "L") (_leases (self single_lease_1)) <= 1)%nat)
    by (vm_compute; lia).
  assert (Hm : py_in (JStr "M") (_leases (self single_lease_2)) = false)
    by (vm_compute; reflexivity).
  split; [exact (conj H1 (conj eq_refl (conj H2 (conj Hone (conj Hm H3)))))|].
  destruct (Hadd _ _ _ _ _ H1) as (lid & Hlid & Hl & Hin).
  assert (lid = JStr "L") by (vm_compute in Hlid; congruence). subst lid.
  split; [exact Hl|]. split; [apply Hin; reflexivity|].
  split; [apply (Hdel _ _ _ H2); exact Hone|].
  apply (Habs _ _ _ _ H3). exact Hm.
Defined.

(** The claim as stated fails: the vault returns the identifier [L] for
    two retrievals; one successful release later [L] is still tracked. *)
Lemma released_lease_still_tracked :
  fst (retrieve_raw "db/password" None double_lease) = Ok (lease_result "L") /\
  fst (retrieve toy_env "db/password" None double_lease_1) = Ok "secret"%string /\
  fst (release_lease (JStr "L") double_lease_2) = Ok tt /\
  _leases (self double_lease_2) = [JStr "L"; JStr "L"] /\
  py_in (JStr "L") (_leases (self double_lease_3)) = true.
Proof.
  vm_compute. repeat split.
Qed.

(** ** C5: the dispatch of errors *)

(** C5 (as amended).  [raise_on_error] returns without raising exactly when
    the response has no [error] field or has one that is [null].  A bare
    string yields a [VaultError] whose message is that string, with no
    code.  A structured error whose code (["INTERNAL_ERROR"] when absent)
    is hashable yields the class that the table gives for the code, and
    [VaultError] when the table has no row for it; the exception carries
    the code, the message (["Unknown error"] when absent), [detail],
    [suggestion], [docs_url] and [context] as received. *)
Theorem error_dispatch (m : list (string * json)) :
  (raise_on_error (JObj m) = Ok tt <->
   dict_get "error" m = None \/ dict_get "error" m = Some JNull) /\
  (forall msg,
     dict_get "error" m = Some (JStr msg) ->
     raise_on_error (JObj m)
     = Raise (Vault (mk_vault_exc VaultError (JStr msg) JNull JNull JNull JNull JNull))) /\
  (forall err cls,
     dict_get "error" m = Some (JObj err) ->
     exception_class (dict_get_default "code" err (JStr "INTERNAL_ERROR")) = Ok cls ->
     raise_on_error (JObj m)
     = Raise (Vault (mk_vault_exc cls
                       (dict_get_default "message" err (JStr "Unknown error"))
                       (dict_get_default "code" err (JStr "INTERNAL_ERROR"))
                       (dict_get_default "detail" err JNull)
                       (dict_get_default "suggestion" err JNull)
                       (dict_get_default "docs_url" err JNull)
                       (dict_get_default "context" err (JObj []))))) /\
  (exception_class (JStr "AUTH_FAILED") = Ok AuthError /\
   exception_class (JStr "ACCESS_DENIED") = Ok AccessDenied /\
   exception_class (JStr "CREDENTIAL_NOT_FOUND") = Ok CredentialNotFound /\
   exception_class (JStr "VAULT_LOCKED") = Ok VaultLocked /\
   exception_class (JStr "LEASE_EXPIRED") = Ok LeaseExpired /\
   exception_class (JStr "RATE_LIMITED") = Ok RateLimited /\
   exception_class (JStr "SESSION_EXPIRED") = Ok SessionExpired /\
   (forall c, dict_get c CODE_TO_EXCEPTION = None ->
      exception_class (JStr c) = Ok VaultError) /\
   (forall b, exception_class (JBool b) = Ok VaultError) /\
   (forall z, exception_class (JNum z) = Ok VaultError) /\
   exception_class JNull = Ok VaultError).
Proof.
  split; [|split; [|split]].
  - unfold raise_on_error, py_get.
    destruct (dict_get "error" m) as [[| b | z | s | l | err]|]; split;
      try (intros _; reflexivity); try discriminate; try tauto;
      try (intros [H|H]; discriminate).
    destruct (exception_class _); discriminate.
  - intros msg H. unfold raise_on_error, py_get. rewrite H. reflexivity.
  - intros err cls H Hc. unfold raise_on_error, py_get. rewrite H, Hc. reflexivity.
  - repeat split; try reflexivity.
    intros c Hc. cbn [exception_class]. rewrite Hc. reflexivity.
Qed.

Lemma error_dispatch_witness :
  (dict_get "error" [("id"%string, JNum 1); ("error"%string, denied)] = Some denied /\
   exception_class (dict_get_default "code"
                      [("code"%string, JStr "ACCESS_DENIED"); ("message"%string, JStr "m");
                       ("detail"%string, JStr "d"); ("suggestion"%string, JStr "s")]
                      (JStr "INTERNAL_ERROR")) = Ok AccessDenied) /\
  raise_on_error (JObj [("id"%string, JNum 1); ("error"%string, denied)])
  = Raise (Vault (mk_vault_exc AccessDenied (JStr "m") (JStr "ACCESS_DENIED")
                    (JStr "d") (JStr "s") JNull (JObj []))).
Proof.
  split; [split; reflexivity|].
  exact (proj1 (proj2 (proj2 (error_dispatch
                                [("id"%string, JNum 1); ("error"%string, denied)])))
           _ AccessDenied eq_refl eq_refl).
Defined.

(** The claim as stated fails: this response has an [error] field and
    [raise_on_error] does not raise. *)
Lemma null_error_does_not_raise :
  dict_get "error" [("id"%string, JNum 1); ("result"%string, JObj []);
                    ("error"%string, JNull)] = Some JNull /\
  raise_on_error (JObj [("id"%string, JNum 1); ("result"%string, JObj []);
                        ("error"%string, JNull)]) = Ok tt.
Proof.
  split; reflexivity.
Qed.

(** ** C6: frames above the maximum size *)

(** C6 (as amended).  When the four bytes of the header announce more than
    [MAX_MESSAGE_SIZE] bytes, [recv] raises [VaultError("Response too
    large", code="INTERNAL_ERROR")] in the world that the reading of the
    header left: nothing was read after the header, and what follows it is
    still unread.  [decode_frame] does not compare the announced length
    with the maximum: it rejects a frame, with "Incomplete frame body",
    when the buffer holds less than the header announces, and decodes the
    payload of a complete frame whatever its size. *)
Theorem oversize_frames :
  (forall h w header w1,
     _read_exact h 4 w = (Ok header, w1) ->
     unpack_u32 header > MAX_MESSAGE_SIZE ->
     recv h w = (Raise too_large, w1) /\
     len header = 4 /\
     unread w h = header ++ unread w1 h) /\
  (forall data,
     4 <= len data ->
     len data < 4 + unpack_u32 (firstn 4 data) ->
     decode_frame data = Raise incomplete_body) /\
  (forall header payload t,
     len header = 4 ->
     unpack_u32 header = len payload ->
     decode_frame (header ++ payload ++ t)
     = match py_loads payload with
       | Ok obj => Ok (obj, t)
       | Raise e => Raise e
       end).
Proof.
  split; [|split].
  - intros h w header w1 Hread Hbig.
    pose proof (_read_exact_stream h 4 w w1 header ltac:(lia) Hread) as [Hu Hl].
    split; [|split; assumption].
    unfold recv, bind. rewrite Hread.
    apply Z.gtb_gt in Hbig. rewrite Hbig. reflexivity.
  - intros data H4 Hshort. unfold decode_frame.
    replace (len data <? 4) with false by (symmetry; apply Z.ltb_ge; lia).
    apply Z.ltb_lt in Hshort. rewrite Hshort. reflexivity.
  - apply decode_frame_app.
Qed.

Lemma oversize_frames_witness :
  (_read_exact O 4 flooded = (Ok oversize_header, snd (_read_exact O 4 flooded)) /\
   unpack_u32 oversize_header > MAX_MESSAGE_SIZE) /\
  (recv O flooded = (Raise too_large, snd (_read_exact O 4 flooded)) /\
   len oversize_header = 4 /\
   unread flooded O = oversize_header ++ unread (snd (_read_exact O 4 flooded)) O) /\
  trace (snd (recv O flooded)) = [EvRecv O 4] /\
  unread (snd (recv O flooded)) O = B "junk".
Proof.
  assert (H1 : _read_exact O 4 flooded
               = (Ok oversize_header, snd (_read_exact O 4 flooded)))
    by (vm_compute; reflexivity).
  assert (H2 : unpack_u32 oversize_header > MAX_MESSAGE_SIZE) by (vm_compute; reflexivity).
  split; [split; assumption|].
  split; [exact (proj1 oversize_frames O flooded oversize_header _ H1 H2)|].
  split; vm_compute; reflexivity.
Defined.

(** The claim as stated fails for the decoding in memory: a complete frame
    that announces ten bytes more than the maximum is decoded. *)
Lemma decode_frame_accepts_oversize :
  unpack_u32 (firstn 4 (frame (bulky (Z.to_nat MAX_MESSAGE_SIZE)))) > MAX_MESSAGE_SIZE /\
  decode_frame (frame (bulky (Z.to_nat MAX_MESSAGE_SIZE)))
  = Ok (bulky (Z.to_nat MAX_MESSAGE_SIZE), []).
Proof.
  assert (Hid : Z.of_nat (Z.to_nat MAX_MESSAGE_SIZE) = MAX_MESSAGE_SIZE)
    by (apply Z2Nat.id; discriminate).
  generalize dependent (Z.to_nat MAX_MESSAGE_SIZE). intros n Hid.
  destruct (bulky_frame n) as [Hu Hd].
  { rewrite Hid. reflexivity. }
  split; [|exact Hd]. rewrite Hu, Hid. reflexivity.
Qed.

(** ** C7: the round trip of the frame codec *)

(** C7 (as amended).  For every payload whose compact JSON text is shorter
    than 2^32 bytes, [encode_frame] returns a frame; decoding the frame
    returns the payload and an empty remainder; decoding the frame followed
    by any bytes [t] returns the payload and [t]; decoding two frames in a
    row returns the first payload and a remainder whose decoding returns
    the second payload and an empty remainder. *)
Theorem frame_round_trip (p : json) :
  wf_json p = true ->
  len (dumps p) < 4294967296 ->
  exists f,
    encode_frame p = Ok f /\
    decode_frame f = Ok (p, []) /\
    (forall t, decode_frame (f ++ t) = Ok (p, t)) /\
    (forall q g,
       wf_json q = true -> encode_frame q = Ok g ->
       decode_frame (f ++ g) = Ok (p, g) /\ decode_frame g = Ok (q, [])).
Proof.
  intros Hwf Hn. destruct (encode_frame_ok p Hn) as (h & He & _).
  exists (h ++ dumps p). split; [exact He|].
  assert (Hall : forall t, decode_frame ((h ++ dumps p) ++ t) = Ok (p, t))
    by (intros t; apply decode_encode; assumption).
  split; [|split].
  - rewrite <- (app_nil_r (h ++ dumps p)). apply Hall.
  - exact Hall.
  - intros q g Hq Hg. split; [apply Hall|].
    rewrite <- (app_nil_r g). apply decode_encode; assumption.
Qed.

Lemma frame_round_trip_witness :
  (wf_json (request 1 "authenticate" (JObj [("agent_name"%string, JStr "test")])) = true /\
   len (dumps (request 1 "authenticate" (JObj [("agent_name"%string, JStr "test")])))
   < 4294967296) /\
  exists f,
    encode_frame (request 1 "authenticate" (JObj [("agent_name"%string, JStr "test")]))
    = Ok f /\
    decode_frame f
    = Ok (request 1 "authenticate" (JObj [("agent_name"%string, JStr "test")]), []) /\
    (forall t,
       decode_frame (f ++ t)
       = Ok (request 1 "authenticate" (JObj [("agent_name"%string, JStr "test")]), t)) /\
    (forall q g,
       wf_json q = true -> encode_frame q = Ok g ->
       decode_frame (f ++ g)
       = Ok (request 1 "authenticate" (JObj [("agent_name"%string, JStr "test")]), g) /\
       decode_frame g = Ok (q, [])).
Proof.
  assert (H1 : wf_json (request 1 "authenticate"
                          (JObj [("agent_name"%string, JStr "test")])) = true)
    by reflexivity.
  assert (H2 : len (dumps (request 1 "authenticate"
                             (JObj [("agent_name"%string, JStr "test")])))
               < 4294967296) by (vm_compute; reflexivity).
  split; [split; assumption|].
  exact (frame_round_trip _ H1 H2).
Defined.

(** The claim as stated fails: the text of this payload has 2^32 + 10
    bytes, and [encode_frame] raises [struct.error]. *)
Lemma frame_too_long_to_encode :
  wf_json (bulky (Z.to_nat 4294967296)) = true /\
  encode_frame (bulky (Z.to_nat 4294967296)) = Raise (Py StructError).
Proof.
  assert (Hid : Z.of_nat (Z.to_nat 4294967296) = 4294967296)
    by (apply Z2Nat.id; discriminate).
  generalize dependent (Z.to_nat 4294967296). intros n Hid.
  split; [apply wf_bulky|]. apply bulky_too_long. rewrite Hid. discriminate.
Qed.

(** ** C8: the numbering of requests *)

(** C8 (as amended).  The identifiers come from one counter of the client
    object, set to 0 by [__init__] and advanced by one by [_next_id] for
    every request; no call resets it, [connect] and [close] included.
    Whatever calls a program makes on a new client, the requests issued
    carry, in order, the identifiers 1, 2, 3, ...; on every connection the
    identifiers are therefore increasing and distinct, and it is the first
    connection only that starts at 1. *)
Theorem request_ids_count_up
  (E : env) (agent : string) (socket_path host : option string) (port : option Z)
  (key_path passphrase : option string) (peers : list dial_outcome)
  (calls : list api_call) :
  let s := session_after E calls
             (mk_state (__init__ agent socket_path host port key_path passphrase)
                (fresh_world peers)) in
  request_ids (trace (wd s)) = ids_from 0 (Z.to_nat (_req_id (self s))) /\
  (forall h, StronglySorted Z.lt (request_ids_on h (trace (wd s)))) /\
  (forall s0,
     _next_id s0
     = (Ok (_req_id (self s0) + 1),
        mk_state (with_req_id (self s0) (_req_id (self s0) + 1)) (wd s0))).
Proof.
  intros s.
  destruct (session_after_numbered E calls
              (mk_state (__init__ agent socket_path host port key_path passphrase)
                 (fresh_world peers))) as (k & Hk & Hids).
  fold s in Hk, Hids. cbn in Hk, Hids.
  assert (Hall : request_ids (trace (wd s)) = ids_from 0 (Z.to_nat (_req_id (self s))))
    by (rewrite Hk, Nat2Z.id; exact Hids).
  split; [exact Hall | split].
  - intros h. unfold request_ids_on. apply sorted_map_filter.
    change (StronglySorted Z.lt (request_ids (trace (wd s)))).
    rewrite Hall. apply ids_from_sorted.
  - intros s0. reflexivity.
Qed.

(** The claim as stated fails: on the second connection of one client the
    first request has the identifier 3. *)
Lemma second_connection_starts_at_3 :
  _sock (self reconnected) = Some 1%nat /\
  request_ids_on 0%nat (trace (wd reconnected)) = [1; 2] /\
  request_ids_on 1%nat (trace (wd reconnected)) = [3; 4].
Proof.
  vm_compute. repeat split.
Qed.

(** ** C9: failures of the key resolution *)

(** C9 (as amended).  With an explicit key path the key comes from
    [_load_signing_key]: the file is read as hexadecimal text, and a text
    that decodes to a number of bytes other than 32 raises
    [AuthError(..., code="AUTH_FAILED")].  The other failures are not
    turned into authentication errors: malformed hexadecimal text raises
    [ValueError] in both loaders, an unreadable file raises [OSError], and
    a blob that the passphrase does not decrypt raises the [CryptoError]
    of the cryptographic library. *)
Theorem key_resolution_failures (E : env) :
  (forall c kp,
     _key_path c = Some kp -> kp <> EmptyString ->
     _resolve_key E c = _load_signing_key E (expanduser E kp)) /\
  (forall path text seed,
     files E path = Some text -> fromhex (strip text) = Some seed ->
     len seed <> 32 ->
     _load_signing_key E path
     = Raise (vault_error AuthError
                ("Key file has " ++ string_of_list_ascii (dec (len seed))
                   ++ " bytes, expected 32") "AUTH_FAILED")) /\
  (forall path text seed,
     files E path = Some text -> fromhex (strip text) = Some seed ->
     len seed = 32 ->
     _load_signing_key E path = Ok seed) /\
  (forall path text pw,
     files E path = Some text -> fromhex (strip text) = None ->
     _load_signing_key E path = Raise (Py ValueError) /\
     _load_encrypted_key E path pw = Raise (Py ValueError)) /\
  (forall path,
     files E path = None -> _load_signing_key E path = Raise (Py OSError)) /\
  (forall path text pw blob,
     files E path = Some text -> fromhex (strip text) = Some blob ->
     len (firstn 24 (skipn 16 blob)) = 24 ->
     secretbox_decrypt E (pbkdf2_hmac_sha256 E (B pw) (firstn 16 blob))
       (skipn 40 blob) (firstn 24 (skipn 16 blob)) = None ->
     _load_encrypted_key E path pw = Raise (Py CryptoError)).
Proof.
  split; [|split; [|split; [|split; [|split]]]].
  - intros c kp Hkp Hne. unfold _resolve_key. rewrite Hkp.
    destruct kp; [congruence | reflexivity].
  - intros path text seed Hf Hx Hl. unfold _load_signing_key, read_text.
    rewrite Hf, Hx. apply Z.eqb_neq in Hl. rewrite Hl. reflexivity.
  - intros path text seed Hf Hx Hl. unfold _load_signing_key, read_text, SigningKey.
    rewrite Hf, Hx. apply Z.eqb_eq in Hl. rewrite Hl. reflexivity.
  - intros path text pw Hf Hx.
    unfold _load_signing_key, _load_encrypted_key, read_text. rewrite Hf, Hx. auto.
  - intros path Hf. unfold _load_signing_key, read_text. rewrite Hf. reflexivity.
  - intros path text pw blob Hf Hx Hn Hd.
    unfold _load_encrypted_key, read_text, SecretBox_decrypt. rewrite Hf, Hx.
    apply Z.eqb_eq in Hn. rewrite Hn, Hd. reflexivity.
Qed.

Lemma key_resolution_failures_witness :
  (_key_path (bot_with_key "/keys/short.key") = Some "/keys/short.key"%string /\
   "/keys/short.key"%string <> EmptyString /\
   files toy_env "/keys/short.key" = Some "00ff"%string /\
   fromhex (strip "00ff") = Some ["000"%char; "255"%char] /\
   len ["000"%char; "255"%char] <> 32) /\
  _resolve_key toy_env (bot_with_key "/keys/short.key")
  = Raise (vault_error AuthError "Key file has 2 bytes, expected 32" "AUTH_FAILED").
Proof.
  assert (H1 : _key_path (bot_with_key "/keys/short.key") = Some "/keys/short.key"%string)
    by reflexivity.
  assert (H2 : "/keys/short.key"%string <> EmptyString) by discriminate.
  assert (H3 : files toy_env "/keys/short.key" = Some "00ff"%string) by reflexivity.
  assert (H4 : fromhex (strip "00ff") = Some ["000"%char; "255"%char])
    by (vm_compute; reflexivity).
  assert (H5 : len ["000"%char; "255"%char] <> 32) by (vm_compute; discriminate).
  split; [exact (conj H1 (conj H2 (conj H3 (conj H4 H5))))|].
  destruct (key_resolution_failures toy_env) as (Hpath & Hshort & _).
  rewrite (Hpath _ _ H1 H2).
  exact (Hshort _ _ _ H3 H4 H5).
Defined.

(** The claim as stated fails: a key file with malformed hexadecimal text
    raises [ValueError], and an encrypted key with a wrong passphrase
    raises [CryptoError]; neither is an [AuthError]. *)
Lemma key_failures_not_auth_errors :
  files toy_env "/keys/garbled.key" = Some "zz"%string /\
  _resolve_key toy_env (bot_with_key "/keys/garbled.key") = Raise (Py ValueError) /\
  _resolve_key toy_env enc_with_passphrase = Raise (Py CryptoError).
Proof.
  vm_compute. repeat split.
Qed.

(** ** C10: [connect] on a connected client *)




(* ================================================================== *)
(** * Further properties of the code *)

(** ** The frame codec *)

Lemma encode_frame_inv (p : json) (f : bytes) :
  encode_frame p = Ok f ->
  exists h,
    f = h ++ dumps p /\ len h = 4 /\ unpack_u32 h = len (dumps p) /\
    len (dumps p) < 4294967296.
Proof.
  intros He. unfold encode_frame in He.
  destruct (pack_u32 (len (dumps p))) as [h|e] eqn:Hp; [|discriminate].
  injection He as <-.
  assert (Hn : 0 <= len (dumps p) < 4294967296).
  { unfold pack_u32 in Hp.
    destruct ((0 <=? len (dumps p)) && (len (dumps p) <? 4294967296)) eqn:Hb;
      [|discriminate].
    apply andb_prop in Hb. destruct Hb as [H1 H2].
    apply Z.leb_le in H1. apply Z.ltb_lt in H2. lia. }
  destruct (pack_u32_ok _ Hn) as (h' & Hp' & Hl & Hu).
  rewrite Hp in Hp'. injection Hp' as <-.
  exists h. repeat split; try assumption. lia.
Qed.

(** X1.  In a frame returned by [encode_frame] the first four bytes, read
    as a big-endian number, give the length of the rest, and the rest is
    the compact JSON text of the payload. *)
Theorem frame_length_prefix (p : json) (f : bytes) :
  encode_frame p = Ok f ->
  len f = 4 + len (dumps p) /\
  skipn 4 f = dumps p /\
  unpack_u32 (firstn 4 f) = len (skipn 4 f).
Proof.
  intros He. destruct (encode_frame_inv p f He) as (h & -> & Hl & Hu & _).
  assert (Hs : skipn 4 (h ++ dumps p) = dumps p).
  { change 4%nat with (Z.to_nat 4). rewrite <- Hl. apply skipn_len_app. }
  split; [rewrite len_app; lia | split; [exact Hs|]].
  rewrite Hs. change 4%nat with (Z.to_nat 4). rewrite <- Hl, firstn_len_app.
  exact Hu.
Qed.

Lemma frame_length_prefix_witness :
  encode_frame (JObj [("hello"%string, JStr "world")])
  = Ok (frame (JObj [("hello"%string, JStr "world")])) /\
  len (frame (JObj [("hello"%string, JStr "world")])) = 4 + 17 /\
  unpack_u32 (firstn 4 (frame (JObj [("hello"%string, JStr "world")]))) = 17.
Proof.
  assert (H : encode_frame (JObj [("hello"%string, JStr "world")])
              = Ok (frame (JObj [("hello"%string, JStr "world")])))
    by (vm_compute; reflexivity).
  split; [exact H|].
  destruct (frame_length_prefix _ _ H) as (Hl & Hs & Hu).
  split; [exact Hl|]. rewrite Hu, Hs. reflexivity.
Defined.

(** X2.  Every proper prefix of a frame is rejected by [decode_frame]: as
    an incomplete header when it has fewer than four bytes, as an
    incomplete body otherwise. *)
Theorem truncated_frame_rejected (p : json) (f : bytes) (k : nat) :
  encode_frame p = Ok f ->
  (k < List.length f)%nat ->
  decode_frame (firstn k f)
  = Raise (if (k <? 4)%nat then incomplete_header else incomplete_body).
Proof.
  intros He Hk. destruct (encode_frame_inv p f He) as (h & -> & Hl & Hu & _).
  assert (Hlen : len (firstn k (h ++ dumps p)) = Z.of_nat k).
  { unfold len. rewrite length_firstn. lia. }
  unfold decode_frame. rewrite Hlen.
  destruct (Nat.ltb_spec k 4) as [H4|H4].
  - replace (Z.of_nat k <? 4) with true by (symmetry; apply Z.ltb_lt; lia).
    reflexivity.
  - replace (Z.of_nat k <? 4) with false by (symmetry; apply Z.ltb_ge; lia).
    assert (Hf : firstn 4 (firstn k (h ++ dumps p)) = h).
    { rewrite firstn_firstn, Nat.min_l by exact H4.
      change 4%nat with (Z.to_nat 4). rewrite <- Hl. apply firstn_len_app. }
    rewrite Hf, Hu.
    replace (Z.of_nat k <? 4 + len (dumps p)) with true; [reflexivity|].
    symmetry. apply Z.ltb_lt. rewrite length_app in Hk. unfold len in *. lia.
Qed.

Lemma truncated_frame_rejected_witness :
  (encode_frame (JObj [("id"%string, JNum 1)])
   = Ok (frame (JObj [("id"%string, JNum 1)])) /\
   (9 < List.length (frame (JObj [("id"%string, JNum 1)])))%nat) /\
  decode_frame (firstn 9 (frame (JObj [("id"%string, JNum 1)])))
  = Raise incomplete_body.
Proof.
  assert (H1 : encode_frame (JObj [("id"%string, JNum 1)])
               = Ok (frame (JObj [("id"%string, JNum 1)])))
    by (vm_compute; reflexivity).
  assert (H2 : (9 < List.length (frame (JObj [("id"%string, JNum 1)])))%nat)
    by (vm_compute; lia).
  split; [exact (conj H1 H2)|].
  exact (truncated_frame_rejected _ _ 9%nat H1 H2).
Defined.

(** *** The text of a payload *)

Lemma Forall_join_items (P : ascii -> Prop) (c : ascii) (xs : list bytes) :
  P c -> P ","%char -> Forall (Forall P) xs -> Forall P (join_items c xs).
Proof.
  intros Hc Hcomma Hxs. induction Hxs as [|x xs Hx _ IH]; cbn [join_items].
  - constructor; [exact Hc | constructor].
  - apply Forall_app. split; [exact Hx|]. destruct xs as [|y xs'].
    + constructor; [exact Hc | constructor].
    + constructor; [exact Hcomma | exact IH].
Qed.

Lemma escape_char_printable (c : ascii) : Forall printable (escape_char c).
Proof.
  destruct c as [[|] [|] [|] [|] [|] [|] [|] [|]];
    repeat (constructor; [unfold printable; vm_compute; split; discriminate|]);
    constructor.
Qed.

Lemma escape_printable (s : string) : Forall printable (escape s).
Proof.
  induction s as [|c s IH]; cbn [escape]; [constructor|].
  apply Forall_app. split; [apply escape_char_printable | exact IH].
Qed.

Lemma escape_char_spaceless (c : ascii) :
  code c <> 32%N -> Forall (fun b => code b <> 32%N) (escape_char c).
Proof.
  destruct c as [[|] [|] [|] [|] [|] [|] [|] [|]]; intros Hc;
    try (exfalso; apply Hc; reflexivity);
    repeat (constructor; [vm_compute; discriminate|]); constructor.
Qed.

Lemma escape_spaceless (s : string) :
  spaceless s -> Forall (fun b => code b <> 32%N) (escape s).
Proof.
  unfold spaceless. induction s as [|c s IH]; cbn [escape list_ascii_of_string];
    intros H; [constructor|].
  inversion H as [|? ? Hc Hs]; subst.
  apply Forall_app. split; [apply escape_char_spaceless; exact Hc | apply IH; exact Hs].
Qed.

Lemma digits_fuel_Forall (P : ascii -> Prop) (f : nat) :
  (forall d, (d < 10)%N -> P (digit_char d)) ->
  forall n, Forall P (digits_fuel f n).
Proof.
  intros Hd. induction f as [|f IH]; intros n; cbn [digits_fuel]; [constructor|].
  apply Forall_app. split.
  - destruct (n <? 10)%N; [constructor | apply IH].
  - constructor; [|constructor]. apply Hd. apply N.mod_lt. lia.
Qed.

(** The bytes of [dumps p] satisfy [P] when the bytes of the syntax do and
    the escaped strings of [p] do. *)
Lemma dumps_Forall (P : ascii -> Prop) (Q : string -> Prop) :
  Forall P (B "null") -> Forall P (B "true") -> Forall P (B "false") ->
  Forall P (B "[]{},:-") -> P dq ->
  (forall d, (d < 10)%N -> P (digit_char d)) ->
  (forall s, Q s -> Forall P (escape s)) ->
  forall p, strings_all Q p -> Forall P (dumps p).
Proof.
  intros Hnull Htrue Hfalse Hsyn Hdq Hdig Hesc.
  assert (Hs : forall c, In c (B "[]{},:-") -> P c)
    by (apply Forall_forall; exact Hsyn).
  assert (Hquote : forall s, Q s -> Forall P (quote s)).
  { intros s Hq. unfold quote. constructor; [exact Hdq|].
    apply Forall_app. split; [apply Hesc; exact Hq | constructor; [exact Hdq | constructor]]. }
  induction p as [| b | z | s | l IHl | m IHm] using json_ind; intros Hstr;
    cbn [dumps].
  - exact Hnull.
  - destruct b; assumption.
  - unfold dec, digits. destruct (z <? 0).
    + constructor; [apply Hs; cbn; tauto|]. apply digits_fuel_Forall. exact Hdig.
    + apply digits_fuel_Forall. exact Hdig.
  - apply Hquote. exact Hstr.
  - constructor; [apply Hs; cbn; tauto|].
    apply Forall_join_items; [apply Hs; cbn; tauto | apply Hs; cbn; tauto|].
    cbn [strings_all] in Hstr.
    induction IHl as [|x l Hx _ IH]; cbn [map]; constructor.
    + apply Hx. apply Hstr.
    + apply IH. apply Hstr.
  - constructor; [apply Hs; cbn; tauto|].
    apply Forall_join_items; [apply Hs; cbn; tauto | apply Hs; cbn; tauto|].
    cbn [strings_all] in Hstr.
    induction IHm as [|[k x] m Hx _ IH]; cbn [map]; constructor.
    + cbn [fst snd] in *. destruct Hstr as (Hk & Hv & _).
      apply Forall_app. split; [apply Hquote; exact Hk|].
      constructor; [apply Hs; cbn; tauto | apply Hx; exact Hv].
    + apply IH. apply Hstr.
Qed.

Lemma strings_all_True (p : json) : strings_all (fun _ => True) p.
Proof.
  induction p as [| b | z | s | l IHl | m IHm] using json_ind; cbn [strings_all];
    try exact I.
  - induction IHl as [|x l Hx _ IH]; [exact I | split; assumption].
  - induction IHm as [|[k x] m Hx _ IH]; [exact I | cbn [snd] in Hx; auto].
Qed.

Lemma digit_char_code (d : N) : (d < 10)%N -> (48 <= code (digit_char d) <= 57)%N.
Proof. intros H. rewrite code_digit_char by exact H. lia. Qed.

(** X3.  The payload of a frame is compact: every byte that [encode_frame]
    and [send] put after the header is a printable ASCII character, so no
    line break or tabulation occurs, and no space occurs either unless a
    string of the payload contains one. *)
Theorem payload_text_compact (p : json) :
  Forall printable (dumps p) /\
  (strings_all spaceless p -> Forall (fun b => code b <> 32%N) (dumps p)).
Proof.
  split.
  - apply (dumps_Forall printable (fun _ => True));
      try (match goal with |- Forall _ _ => idtac end;
           repeat (apply Forall_cons;
                   [unfold printable; vm_compute; split; discriminate|]);
           apply Forall_nil).
    + unfold printable. vm_compute. split; discriminate.
    + intros d Hd. unfold printable. pose proof (digit_char_code d Hd). lia.
    + intros s _. apply escape_printable.
    + apply strings_all_True.
  - apply (dumps_Forall (fun b => code b <> 32%N) spaceless);
      try (match goal with |- Forall _ _ => idtac end;
           repeat (apply Forall_cons; [vm_compute; discriminate|]);
           apply Forall_nil).
    + vm_compute. discriminate.
    + intros d Hd. pose proof (digit_char_code d Hd). lia.
    + apply escape_spaceless.
Qed.

Lemma payload_text_compact_witness :
  strings_all spaceless
    (JObj [("key"%string, JStr "value"); ("nested"%string, JObj [("a"%string, JNum 1)])]) /\
  Forall (fun b => code b <> 32%N)
    (dumps (JObj [("key"%string, JStr "value");
                  ("nested"%string, JObj [("a"%string, JNum 1)])])).
Proof.
  assert (H : strings_all spaceless
                (JObj [("key"%string, JStr "value");
                       ("nested"%string, JObj [("a"%string, JNum 1)])])).
  { cbn [strings_all]. unfold spaceless. cbn [list_ascii_of_string].
    repeat split; repeat (constructor; [vm_compute; discriminate|]); constructor. }
  split; [exact H|].
  exact (proj2 (payload_text_compact _) H).
Defined.

(* ================================================================== *)
(** ** Reading and writing on a socket *)

Lemma usable_nth (w : world) (h : handle) (st : sock_state) :
  usable w h = Some st -> nth_error (socks w) h = Some st.
Proof.
  unfold usable. destruct (nth_error (socks w) h) as [st0|]; [|discriminate].
  destruct (connected st0 && negb (closed st0)); [|discriminate]. congruence.
Qed.

Lemma usable_list_set (w : world) (h : handle) (st0 : sock_state)
  (r : list rx_event) (t : list bool) (d : list dial_outcome) (tr : list event) :
  nth_error (socks w) h = Some st0 ->
  usable (mk_world (list_set h (mk_sock true false r t) (socks w)) d tr) h
  = Some (mk_sock true false r t).
Proof.
  intros H. unfold usable. cbn [socks].
  rewrite nth_error_list_set, Nat.eqb_refl, H. reflexivity.
Qed.

Lemma ready_intro (w : world) (h : handle) (st0 : sock_state)
  (r : list rx_event) (t : list bool) (d : list dial_outcome) (tr : list event) :
  nth_error (socks w) h = Some st0 ->
  flowing r -> forallb (fun ok => ok) t = true ->
  ready (mk_world (list_set h (mk_sock true false r t) (socks w)) d tr) h (stream r).
Proof.
  intros Hn Hf Ht. exists (mk_sock true false r t).
  rewrite (usable_list_set w h st0) by exact Hn. cbn [rx tx]. auto.
Qed.

Lemma ready_trace (w : world) (h : handle) (data : bytes) (tr : list event) :
  ready w h data -> ready (mk_world (socks w) (dial w) tr) h data.
Proof. intros H. exact H. Qed.

(** One [sock.recv] on a ready socket: a chunk from the front of what is
    unread, empty only at the end of the stream. *)
Lemma sock_recv_ready (h : handle) (k : Z) (w : world) (data : bytes) :
  0 < k -> ready w h data ->
  exists chunk rest w',
    sock_recv h k w = (Ok chunk, w') /\ data = chunk ++ rest /\
    ready w' h rest /\ len chunk <= k /\ (chunk = [] -> data = []).
Proof.
  intros Hk Hr. pose proof Hr as (st & Hu & Hf & Hs & Ht).
  pose proof (usable_nth _ _ _ Hu) as Hn.
  unfold sock_recv, bind, log.
  change (usable (mk_world (socks w) (dial w) (trace w ++ [EvRecv h k])) h)
    with (usable w h).
  rewrite Hu. cbn [socks dial trace].
  destruct (rx st) as [|[c|] r] eqn:Hrx.
  - cbn [stream] in Hs. subst data. exists [], [].
    eexists. split; [reflexivity|]. split; [reflexivity|].
    split; [|split; [cbn; lia | reflexivity]].
    apply ready_trace. exists st. rewrite Hrx. auto.
  - inversion Hf as [|? ? Hc Hf']; subst. destruct c as [|a c]; [contradiction|].
    cbn [stream] in *.
    destruct (len (a :: c) <=? k) eqn:Hle.
    + exists (a :: c), (stream r). eexists. split; [reflexivity|].
      split; [reflexivity|]. split; [|split; [apply Z.leb_le; exact Hle | discriminate]].
      apply (ready_intro w h st r (tx st)); assumption.
    + apply Z.leb_gt in Hle.
      exists (firstn (Z.to_nat k) (a :: c)),
        (skipn (Z.to_nat k) (a :: c) ++ stream r).
      eexists. split; [reflexivity|].
      split; [rewrite app_assoc, firstn_skipn; reflexivity|].
      split; [|split].
      * apply (ready_intro w h st (RxData (skipn (Z.to_nat k) (a :: c)) :: r) (tx st));
          [exact Hn | | exact Ht].
        constructor; [|exact Hf'].
        destruct (skipn (Z.to_nat k) (a :: c)) eqn:Hsk; [|exact I].
        apply (f_equal (@List.length ascii)) in Hsk. rewrite length_skipn in Hsk.
        unfold len in Hle. cbn [List.length] in *. lia.
      * unfold len. rewrite length_firstn. lia.
      * destruct (Z.to_nat k) eqn:Hz; [lia|]. cbn [firstn]. discriminate.
  - inversion Hf as [|? ? Hc _]. contradiction.
Qed.

(** The loop of [_read_exact] on a ready socket: it takes what is missing
    from the front of the unread bytes when they suffice, and raises at
    the end of the stream when they do not. *)
Lemma read_loop_ready (h : handle) (n : Z) (fuel : nat) :
  forall buf w data,
    ready w h data -> len buf <= n -> n - len buf <= Z.of_nat fuel ->
    exists w',
      read_loop fuel h n buf w
      = (if n - len buf <=? len data
         then Ok (buf ++ firstn (Z.to_nat (n - len buf)) data)
         else Raise connection_closed, w') /\
      ready w' h (skipn (Z.to_nat (n - len buf)) data).
Proof.
  induction fuel as [|fuel IH]; intros buf w data Hr Hle Hfuel; cbn [read_loop];
    destruct (len buf <? n) eqn:Hlt;
    try (apply Z.ltb_lt in Hlt; lia);
    try (apply Z.ltb_ge in Hlt; exists w;
         replace (n - len buf) with 0 by lia;
         pose proof (len_nonneg data);
         replace (0 <=? len data) with true by (symmetry; apply Z.leb_le; lia);
         cbn [Z.to_nat firstn skipn]; rewrite app_nil_r; split; [reflexivity | exact Hr]).
  apply Z.ltb_lt in Hlt. unfold bind.
  destruct (sock_recv_ready h (n - len buf) w data ltac:(lia) Hr)
    as (chunk & rest & w1 & Hrecv & Hdata & Hr1 & Hlen & Hnil).
  rewrite Hrecv. destruct chunk as [|c chunk].
  - rewrite (Hnil eq_refl) in *. cbn [app] in Hdata. subst rest.
    exists w1. replace (n - len buf <=? len []) with false
      by (symmetry; apply Z.leb_gt; cbn; lia).
    rewrite skipn_nil. split; [reflexivity | exact Hr1].
  - assert (Hc : 1 <= len (c :: chunk)) by (unfold len; cbn [List.length]; lia).
    destruct (IH (buf ++ c :: chunk) w1 rest Hr1) as (w' & Hloop & Hr');
      [rewrite len_app; lia | rewrite len_app; lia |].
    rewrite len_app in Hloop, Hr'.
    replace (n - (len buf + len (c :: chunk)))
      with (n - len buf - len (c :: chunk)) in Hloop, Hr' by lia.
    exists w'. rewrite Hloop. subst data.
    assert (Hto : Z.to_nat (n - len buf)
                  = (List.length (c :: chunk)
                     + Z.to_nat (n - len buf - len (c :: chunk)))%nat)
      by (unfold len in *; lia).
    rewrite Hto, firstn_app_2, skipn_app.
    rewrite (skipn_all2 (c :: chunk)) by lia.
    replace (List.length (c :: chunk)
             + Z.to_nat (n - len buf - len (c :: chunk)) - List.length (c :: chunk))%nat
      with (Z.to_nat (n - len buf - len (c :: chunk))) by lia.
    split; [|exact Hr'].
    rewrite len_app.
    destruct (n - len buf - len (c :: chunk) <=? len rest) eqn:H1.
    + apply Z.leb_le in H1.
      replace (n - len buf <=? len (c :: chunk) + len rest) with true
        by (symmetry; apply Z.leb_le; lia).
      rewrite <- app_assoc. reflexivity.
    + apply Z.leb_gt in H1.
      replace (n - len buf <=? len (c :: chunk) + len rest) with false
        by (symmetry; apply Z.leb_gt; lia).
      reflexivity.
Qed.

Lemma _read_exact_ready (h : handle) (w : world) (data rest : bytes) :
  ready w h (data ++ rest) ->
  exists w', _read_exact h (len data) w = (Ok data, w') /\ ready w' h rest.
Proof.
  intros Hr. unfold _read_exact.
  destruct (read_loop_ready h (len data) (Z.to_nat (len data)) [] w (data ++ rest) Hr)
    as (w' & Hloop & Hr').
  - cbn. apply len_nonneg.
  - cbn. pose proof (len_nonneg data). lia.
  - exists w'. rewrite Hloop. replace (len data - len []) with (len data) in * by (cbn; lia).
    rewrite len_app. pose proof (len_nonneg rest).
    replace (len data <=? len data + len rest) with true
      by (symmetry; apply Z.leb_le; lia).
    rewrite firstn_len_app. rewrite skipn_len_app in Hr'. cbn [app].
    split; [reflexivity | exact Hr'].
Qed.

(** X4.  [_read_exact] reassembles what the peer sends: when the bytes
    [data ++ rest] arrive on a usable socket, in chunks of any sizes,
    asking for as many bytes as [data] has returns [data] and leaves
    [rest] unread.  When the stream ends before [n] bytes have come,
    [_read_exact] raises [VaultError("Connection closed")] with nothing
    left to read. *)
Theorem read_exact_reassembles (h : handle) (w : world) :
  (forall data rest,
     ready w h (data ++ rest) ->
     exists w', _read_exact h (len data) w = (Ok data, w') /\ ready w' h rest) /\
  (forall data n,
     ready w h data -> len data < n ->
     exists w', _read_exact h n w = (Raise connection_closed, w') /\ ready w' h []).
Proof.
  split; [intros data rest; apply _read_exact_ready|].
  intros data n Hr Hlt. unfold _read_exact. pose proof (len_nonneg data).
  destruct (read_loop_ready h n (Z.to_nat n) [] w data Hr) as (w' & Hloop & Hr').
  - cbn. lia.
  - cbn. lia.
  - exists w'. rewrite Hloop. replace (n - len []) with n in * by (cbn; lia).
    replace (n <=? len data) with false by (symmetry; apply Z.leb_gt; lia).
    rewrite skipn_all2 in Hr' by (unfold len in *; lia).
    split; [reflexivity | exact Hr'].
Qed.

Lemma read_exact_reassembles_witness :
  ready (delivering [B "ab"; B "cde"; B "f"]) O (B "abcd" ++ B "ef") /\
  (exists w',
     _read_exact O (len (B "abcd")) (delivering [B "ab"; B "cde"; B "f"])
     = (Ok (B "abcd"), w') /\ ready w' O (B "ef")).
Proof.
  assert (H : ready (delivering [B "ab"; B "cde"; B "f"]) O (B "abcd" ++ B "ef")).
  { eexists. split; [reflexivity|]. cbn [rx tx map].
    split; [repeat constructor | split; reflexivity]. }
  split; [exact H|].
  exact (proj1 (read_exact_reassembles O _) (B "abcd") (B "ef") H).
Defined.

Lemma recv_ready (h : handle) (w : world) (resp : json) (rest : bytes) :
  wf_json resp = true -> len (dumps resp) <= MAX_MESSAGE_SIZE ->
  ready w h (frame resp ++ rest) ->
  exists w', recv h w = (Ok resp, w') /\ ready w' h rest.
Proof.
  intros Hwf Hsz Hr.
  assert (H32 : len (dumps resp) < 4294967296)
    by (unfold MAX_MESSAGE_SIZE in Hsz; lia).
  destruct (encode_frame_ok resp H32) as (hd & He & Hl & Hu).
  unfold frame in Hr. rewrite He, <- app_assoc in Hr.
  destruct (_read_exact_ready h w hd _ Hr) as (w1 & H1 & Hr1).
  destruct (_read_exact_ready h w1 (dumps resp) rest Hr1) as (w2 & H2 & Hr2).
  exists w2. unfold recv, bind. rewrite Hl in H1. rewrite H1, Hu.
  replace (len (dumps resp) >? MAX_MESSAGE_SIZE) with false
    by (symmetry; rewrite Z.gtb_ltb; apply Z.ltb_ge; exact Hsz).
  rewrite H2. unfold of_result, py_loads. rewrite (loads_dumps resp Hwf).
  split; [reflexivity | exact Hr2].
Qed.

Lemma _read_exact_short (h : handle) (w : world) (data : bytes) (n : Z) :
  ready w h data -> len data < n ->
  exists w', _read_exact h n w = (Raise connection_closed, w') /\ ready w' h [].
Proof.
  intros Hr Hlt. unfold _read_exact. pose proof (len_nonneg data).
  destruct (read_loop_ready h n (Z.to_nat n) [] w data Hr) as (w' & Hloop & Hr').
  - cbn. lia.
  - cbn. lia.
  - exists w'. rewrite Hloop. replace (n - len []) with n in * by (cbn; lia).
    replace (n <=? len data) with false by (symmetry; apply Z.leb_gt; lia).
    rewrite skipn_all2 in Hr' by (unfold len in *; lia).
    split; [reflexivity | exact Hr'].
Qed.

(** X5.  [recv] undoes [encode_frame] across the socket: when the frame
    of a payload of at most [MAX_MESSAGE_SIZE] bytes arrives, in chunks of
    any sizes and followed by any bytes, [recv] returns the payload and
    leaves what follows the frame unread.  When the stream ends inside the
    frame, [recv] raises [VaultError("Connection closed")]: it returns no
    partial payload. *)
Theorem recv_returns_framed_payload (h : handle) (w : world) (p : json) :
  wf_json p = true -> len (dumps p) <= MAX_MESSAGE_SIZE ->
  (forall rest,
     ready w h (frame p ++ rest) ->
     exists w', recv h w = (Ok p, w') /\ ready w' h rest) /\
  (forall k,
     (k < List.length (frame p))%nat ->
     ready w h (firstn k (frame p)) ->
     exists w', recv h w = (Raise connection_closed, w') /\ ready w' h []).
Proof.
  intros Hwf Hsz. split; [intros rest; apply recv_ready; assumption|].
  intros k Hk Hr.
  assert (H32 : len (dumps p) < 4294967296)
    by (unfold MAX_MESSAGE_SIZE in Hsz; lia).
  destruct (encode_frame_ok p H32) as (hd & He & Hl & Hu).
  unfold frame in Hk, Hr. rewrite He in Hk, Hr.
  assert (Hhd : List.length hd = 4%nat) by (unfold len in Hl; lia).
  unfold recv, bind.
  destruct (Nat.ltb_spec k 4) as [H4|H4].
  - destruct (_read_exact_short h w _ 4 Hr) as (w1 & H1 & Hr1).
    { unfold len. rewrite length_firstn. lia. }
    exists w1. rewrite H1. split; [reflexivity | exact Hr1].
  - rewrite firstn_app in Hr. rewrite firstn_all2 in Hr by lia.
    destruct (_read_exact_ready h w hd _ Hr) as (w1 & H1 & Hr1).
    rewrite Hl in H1. rewrite H1, Hu.
    replace (len (dumps p) >? MAX_MESSAGE_SIZE) with false
      by (symmetry; rewrite Z.gtb_ltb; apply Z.ltb_ge; exact Hsz).
    destruct (_read_exact_short h w1 _ (len (dumps p)) Hr1) as (w2 & H2 & Hr2).
    { rewrite length_app in Hk. unfold len. rewrite length_firstn. lia. }
    exists w2. rewrite H2. split; [reflexivity | exact Hr2].
Qed.

Lemma recv_returns_framed_payload_witness :
  (wf_json (reply (JNum 7) (JObj [("ok"%string, JBool true)])) = true /\
   len (dumps (reply (JNum 7) (JObj [("ok"%string, JBool true)]))) <= MAX_MESSAGE_SIZE /\
   ready
     (delivering
        (in_pieces (frame (reply (JNum 7) (JObj [("ok"%string, JBool true)]))
                      ++ B "next")))
     O (frame (reply (JNum 7) (JObj [("ok"%string, JBool true)])) ++ B "next")) /\
  (exists w',
     recv O
       (delivering
          (in_pieces (frame (reply (JNum 7) (JObj [("ok"%string, JBool true)]))
                        ++ B "next")))
     = (Ok (reply (JNum 7) (JObj [("ok"%string, JBool true)])), w') /\
     ready w' O (B "next")).
Proof.
  assert (H1 : wf_json (reply (JNum 7) (JObj [("ok"%string, JBool true)])) = true)
    by reflexivity.
  assert (H2 : len (dumps (reply (JNum 7) (JObj [("ok"%string, JBool true)])))
               <= MAX_MESSAGE_SIZE) by (vm_compute; discriminate).
  assert (H3 : ready
                 (delivering
                    (in_pieces (frame (reply (JNum 7) (JObj [("ok"%string, JBool true)]))
                                  ++ B "next")))
                 O (frame (reply (JNum 7) (JObj [("ok"%string, JBool true)])) ++ B "next")).
  { eexists. split; [reflexivity|]. cbn [rx tx].
    split; [vm_compute; repeat constructor | split; vm_compute; reflexivity]. }
  split; [exact (conj H1 (conj H2 H3))|].
  exact (proj1 (recv_returns_framed_payload O _ _ H1 H2) (B "next") H3).
Defined.

(** *** Writing *)

Lemma transmissions_app (t1 t2 : list event) :
  transmissions (t1 ++ t2) = transmissions t1 ++ transmissions t2.
Proof.
  induction t1 as [|[] t1 IH]; cbn [app transmissions]; rewrite ?IH; reflexivity.
Qed.

Lemma sock_sendall_trace (h : handle) (data : bytes) (w : world) :
  trace (snd (sock_sendall h data w)) = trace w ++ [EvSendall h data].
Proof.
  unfold sock_sendall, bind, log, usable. cbn [socks dial trace].
  destruct (nth_error (socks w) h) as [st|];
    [destruct (connected st && negb (closed st)); [destruct (tx st) as [|[|] t]|]|];
    reflexivity.
Qed.

(** X6.  [send] and [encode_frame] agree: [send] hands to [sendall], in
    one call, exactly the frame that [encode_frame] returns for the same
    object.  When the object cannot be framed (its text has 2^32 bytes or
    more) [send] raises the error of [encode_frame] and transmits
    nothing. *)
Theorem send_transmits_frame (h : handle) (obj : json) (w : world) :
  match encode_frame obj with
  | Ok f =>
      transmissions (trace (snd (send h obj w)))
      = transmissions (trace w) ++ [(h, f)]
  | Raise e =>
      fst (send h obj w) = Raise e /\
      transmissions (trace (snd (send h obj w))) = transmissions (trace w) /\
      socks (snd (send h obj w)) = socks w
  end.
Proof.
  assert (Hsend : send h obj w
                  = match pack_u32 (len (dumps obj)) with
                    | Ok hd =>
                        sock_sendall h (hd ++ dumps obj)
                          (mk_world (socks w) (dial w) (trace w ++ [EvRequest h obj]))
                    | Raise e =>
                        (Raise e,
                         mk_world (socks w) (dial w) (trace w ++ [EvRequest h obj]))
                    end).
  { unfold send, bind, log, of_result.
    destruct (pack_u32 (len (dumps obj))); reflexivity. }
  rewrite Hsend. unfold encode_frame.
  destruct (pack_u32 (len (dumps obj))) as [hd|e].
  - rewrite sock_sendall_trace. cbn [trace].
    rewrite !transmissions_app. cbn [transmissions]. rewrite app_nil_r. reflexivity.
  - cbn [fst snd trace socks]. rewrite transmissions_app. cbn [transmissions].
    rewrite app_nil_r. auto.
Qed.

Lemma send_ready (h : handle) (obj : json) (w : world) (data : bytes) :
  len (dumps obj) < 4294967296 -> ready w h data ->
  exists w', send h obj w = (Ok tt, w') /\ ready w' h data.
Proof.
  intros Hn (st & Hu & Hf & Hs & Ht).
  pose proof (usable_nth _ _ _ Hu) as Hnth.
  pose proof (len_nonneg (dumps obj)).
  destruct (pack_u32_ok (len (dumps obj)) ltac:(lia)) as (hd & Hp & _).
  unfold send, bind, log, of_result. rewrite Hp.
  unfold sock_sendall, bind, log. cbn [socks dial trace].
  match goal with
  | |- context [usable ?w0 h] => change (usable w0 h) with (usable w h)
  end.
  rewrite Hu. destruct (tx st) as [|[|] t] eqn:Htx.
  - eexists. split; [reflexivity|]. exists st. rewrite Htx. auto.
  - eexists. split; [reflexivity|]. subst data.
    apply (ready_intro w h st (rx st) t); [exact Hnth | exact Hf | exact Ht].
  - discriminate.
Qed.

(* ================================================================== *)
(** ** One call of the vault *)

Lemma _call_ready (method : string) (params : json) (s : state) (h : handle)
  (resp : json) (rest : bytes) :
  _sock (self s) = Some h ->
  len (dumps (request (_req_id (self s) + 1) method params)) < 4294967296 ->
  wf_json resp = true -> len (dumps resp) <= MAX_MESSAGE_SIZE ->
  ready (wd s) h (frame resp ++ rest) ->
  exists w',
    _call method params s
    = (match raise_on_error resp with
       | Raise e => Raise e
       | Ok _ => py_get resp "result" (JObj [])
       end,
       mk_state (with_req_id (self s) (_req_id (self s) + 1)) w') /\
    ready w' h rest /\
    requests (trace w')
    = requests (trace (wd s)) ++ [(h, request (_req_id (self s) + 1) method params)].
Proof.
  intros Hsock Henc Hwf Hsz Hr.
  destruct (send_ready h _ (wd s) _ Henc Hr) as (w1 & Hsend & Hr1).
  destruct (recv_ready h w1 resp rest Hwf Hsz Hr1) as (w2 & Hrecv & Hr2).
  exists w2. split; [|split; [exact Hr2|]].
  - unfold _call, bind at 1, get_self. rewrite Hsock.
    unfold _next_id, bind, get_self, set_self, ret, lift, of_result. cbn [self wd].
    rewrite Hsend. cbn [self wd]. rewrite Hrecv. cbn [self wd].
    destruct (raise_on_error resp); reflexivity.
  - apply send_step in Hsend. apply recv_step in Hrecv.
    destruct (Step_trans _ _ _ _ _ Hsend Hrecv) as (H & _). exact H.
Qed.

(** X7.  On a connected client whose peer answers with the frame of
    [resp], [_call] sends one request, numbered one above the counter, and
    its outcome is read off the reply: what [raise_on_error] raises for
    [resp], and otherwise the [result] field of [resp], the empty
    dictionary when the field is absent.  The identifier that the reply
    carries is not looked at.  The counter ends one higher and the bytes
    after the frame stay unread. *)
Theorem call_outcome_follows_reply (method : string) (params : json) (s : state)
  (h : handle) (resp : json) (rest : bytes) :
  _sock (self s) = Some h ->
  len (dumps (request (_req_id (self s) + 1) method params)) < 4294967296 ->
  wf_json resp = true -> len (dumps resp) <= MAX_MESSAGE_SIZE ->
  ready (wd s) h (frame resp ++ rest) ->
  exists w',
    _call method params s
    = (match raise_on_error resp with
       | Raise e => Raise e
       | Ok _ => py_get resp "result" (JObj [])
       end,
       mk_state (with_req_id (self s) (_req_id (self s) + 1)) w') /\
    ready w' h rest /\
    requests (trace w')
    = requests (trace (wd s)) ++ [(h, request (_req_id (self s) + 1) method params)].
Proof. apply _call_ready. Qed.

Lemma call_outcome_follows_reply_witness :
  (_sock (self (leasing [] [RxData (frame (reply (JNum 99) (JArr [JNum 1])))] []))
   = Some O /\
   ready (wd (leasing [] [RxData (frame (reply (JNum 99) (JArr [JNum 1])))] [])) O
     (frame (reply (JNum 99) (JArr [JNum 1])) ++ [])) /\
  (exists w',
     _call "list" (JObj [])
       (leasing [] [RxData (frame (reply (JNum 99) (JArr [JNum 1])))] [])
     = (Ok (JArr [JNum 1]),
        mk_state
          (with_req_id
             (self (leasing [] [RxData (frame (reply (JNum 99) (JArr [JNum 1])))] []))
             3) w')).
Proof.
  assert (H1 : _sock (self (leasing [] [RxData (frame (reply (JNum 99) (JArr [JNum 1])))] []))
               = Some O) by reflexivity.
  assert (H2 : ready
                 (wd (leasing [] [RxData (frame (reply (JNum 99) (JArr [JNum 1])))] []))
                 O (frame (reply (JNum 99) (JArr [JNum 1])) ++ [])).
  { eexists. split; [reflexivity|]. cbn [rx tx].
    split; [vm_compute; repeat constructor | split; vm_compute; reflexivity]. }
  split; [exact (conj H1 H2)|].
  destruct (call_outcome_follows_reply "list" (JObj []) _ O
              (reply (JNum 99) (JArr [JNum 1])) [] H1)
    as (w' & Hcall & _); [vm_compute; reflexivity | reflexivity
                         | vm_compute; discriminate | exact H2 |].
  exists w'. exact Hcall.
Defined.

(** *** Without a connection *)

Lemma _call_unconnected (method : string) (params : json) (s : state) :
  _sock (self s) = None -> _call method params s = (Raise not_connected, s).
Proof. intros H. unfold _call, bind, get_self. rewrite H. reflexivity. Qed.

(** X8.  On a client that holds no socket, because it was never connected
    or because it was closed, every operation raises
    [VaultError("Not connected", code="INTERNAL_ERROR")] and does nothing
    else: the client and the world are as before, so no identifier is
    consumed, nothing is sent and the tracked leases stay. *)
Theorem operations_need_connection (E : env) (s : state) :
  _sock (self s) = None ->
  (forall path ttl, retrieve E path ttl s = (Raise not_connected, s)) /\
  (forall path ttl, retrieve_raw path ttl s = (Raise not_connected, s)) /\
  list_ s = (Raise not_connected, s) /\
  (forall lid, release_lease lid s = (Raise not_connected, s)) /\
  (forall path operation params,
     use path operation params s = (Raise not_connected, s)).
Proof.
  intros H. repeat split; intros;
    unfold retrieve, retrieve_raw, list_, release_lease, use;
    unfold bind at 1; unfold get_self; try unfold bind at 1;
    rewrite (_call_unconnected _ _ s H); reflexivity.
Qed.

Lemma operations_need_connection_witness :
  _sock (self (snd (close draining))) = None /\
  fst (close draining) = Ok tt /\
  retrieve toy_env "db/password" None (snd (close draining))
  = (Raise not_connected, snd (close draining)) /\
  use "db/password" "http_header" None (snd (close draining))
  = (Raise not_connected, snd (close draining)).
Proof.
  assert (H : _sock (self (snd (close draining))) = None) by (vm_compute; reflexivity).
  split; [exact H|]. split; [vm_compute; reflexivity|].
  destruct (operations_need_connection toy_env _ H) as (H1 & _ & _ & _ & H5).
  exact (conj (H1 _ _) (H5 _ _ _)).
Defined.

(** X9.  The operations leave the session alone: whatever the peer
    answers, and whether they return or raise, [use] and [list] change
    nothing of the client but the counter of requests, and [retrieve],
    [retrieve_raw] and [release_lease] nothing but the counter and the
    list of leases.  The socket, the session identifier and the
    configured addresses and key are those of before. *)
Theorem operations_keep_session (E : env) (s : state) :
  (forall path operation params,
     self (snd (use path operation params s))
     = with_req_id (self s) (_req_id (self (snd (use path operation params s))))) /\
  self (snd (list_ s)) = with_req_id (self s) (_req_id (self (snd (list_ s)))) /\
  (forall path ttl,
     self (snd (retrieve E path ttl s))
     = with_leases
         (with_req_id (self s) (_req_id (self (snd (retrieve E path ttl s)))))
         (_leases (self (snd (retrieve E path ttl s))))) /\
  (forall path ttl,
     self (snd (retrieve_raw path ttl s))
     = with_leases
         (with_req_id (self s) (_req_id (self (snd (retrieve_raw path ttl s)))))
         (_leases (self (snd (retrieve_raw path ttl s))))) /\
  (forall lid,
     self (snd (release_lease lid s))
     = with_leases
         (with_req_id (self s) (_req_id (self (snd (release_lease lid s)))))
         (_leases (self (snd (release_lease lid s))))).
Proof.
  assert (Hcall : forall method params,
            self (snd (_call method params s))
            = with_req_id (self s) (_req_id (self (snd (_call method params s))))).
  { intros method params.
    destruct (_call method params s) as [r s1] eqn:H.
    apply _call_rpc in H. destruct H as (_ & _ & _ & H). exact H. }
  split; [|split; [|split; [|split]]].
  - intros path operation params. unfold use, bind, get_self. apply Hcall.
  - unfold list_, bind, get_self, of_result.
    specialize (Hcall "list"%string (JObj [("session_id"%string, _session_id (self s))])).
    destruct (_call "list" _ s) as [[r|e] s1]; cbn [snd] in *;
      [destruct (py_get r "credentials" (JArr []))|]; exact Hcall.
  - intros path ttl. unfold retrieve, bind, get_self, set_self, of_result, ret.
    specialize (Hcall "retrieve"%string (retrieve_params (self s) path ttl)).
    destruct (_call "retrieve" _ s) as [[r|e] s1]; cbn [snd] in *;
      [destruct (py_getitem r "lease_id") as [lid|e];
       [destruct (py_getitem r "value") as [v|e]; [destruct (py_fromhex v)|]|]|];
      cbn [snd self wd]; rewrite Hcall; destruct (self s); reflexivity.
  - intros path ttl. unfold retrieve_raw, bind, get_self, set_self, of_result, ret.
    specialize (Hcall "retrieve"%string (retrieve_params (self s) path ttl)).
    destruct (_call "retrieve" _ s) as [[r|e] s1]; cbn [snd] in *;
      [destruct (py_getitem r "lease_id") as [lid|e]|];
      cbn [snd self wd]; rewrite Hcall; destruct (self s); reflexivity.
  - intros lid. unfold release_lease, bind, get_self, set_self, ret.
    specialize (Hcall "release_lease"%string (JObj [("lease_id"%string, lid)])).
    destruct (_call "release_lease" _ s) as [[r|e] s1]; cbn [snd] in *;
      [destruct (py_in lid (_leases (self s1)))|];
      cbn [snd self wd]; rewrite Hcall; destruct (self s); reflexivity.
Qed.

(* ================================================================== *)
(** ** Hexadecimal text and key files *)

Lemma fromhex_list_byte (c : ascii) (l : list ascii) :
  fromhex_list (hex_char (code c / 16)%N :: hex_char (code c mod 16)%N :: l)
  = match fromhex_list l with
    | Some rest => Some (c :: rest)
    | None => None
    end.
Proof.
  destruct c as [[|] [|] [|] [|] [|] [|] [|] [|]]; reflexivity.
Qed.

Lemma fromhex_hex (b : bytes) : fromhex (hex b) = Some b.
Proof.
  unfold fromhex, hex. rewrite list_ascii_of_string_of_list_ascii.
  induction b as [|c b IH]; [reflexivity|].
  cbn [flat_map app]. rewrite fromhex_list_byte, IH. reflexivity.
Qed.

(* ================================================================== *)
(** ** The handshake *)

Lemma _authenticate_ready (E : env) (s : state) (h : handle)
  (sk challenge : bytes) (id1 id2 sid a : json) (rest : bytes) :
  _sock (self s) = Some h ->
  _resolve_key E (self s) = Ok sk ->
  ready (wd s) h
    (frame (challenge_reply id1 sid challenge) ++ frame (verdict_reply id2 a) ++ rest) ->
  wf_json (challenge_reply id1 sid challenge) = true ->
  wf_json (verdict_reply id2 a) = true ->
  len (dumps (challenge_reply id1 sid challenge)) <= MAX_MESSAGE_SIZE ->
  len (dumps (verdict_reply id2 a)) <= MAX_MESSAGE_SIZE ->
  len (dumps (authenticate_request (_req_id (self s)) (agent_name (self s))))
  < 4294967296 ->
  len (dumps (challenge_response_request (_req_id (self s)) sid
                (ed25519_sign E sk challenge))) < 4294967296 ->
  exists w',
    _authenticate E s
    = (if py_truthy a then Ok tt else Raise not_confirmed,
       mk_state (with_req_id (with_session_id (self s) sid) (_req_id (self s) + 2)) w') /\
    ready w' h rest /\
    requests (trace w')
    = requests (trace (wd s))
        ++ [(h, authenticate_request (_req_id (self s)) (agent_name (self s)));
            (h, challenge_response_request (_req_id (self s)) sid
                  (ed25519_sign E sk challenge))].
Proof.
  intros Hsock Hkey Hr Hwf1 Hwf2 Hsz1 Hsz2 Henc1 Henc2.
  destruct (_call_ready "authenticate"
              (JObj [("agent_name"%string, JStr (agent_name (self s)))])
              s h _ _ Hsock Henc1 Hwf1 Hsz1 Hr) as (w1 & Hc1 & Hr1 & Hq1).
  change (raise_on_error (challenge_reply id1 sid challenge)) with (Ok tt) in Hc1.
  change (py_get (challenge_reply id1 sid challenge) "result" (JObj []))
    with (Ok (JObj [("session_id"%string, sid);
                    ("challenge"%string, JStr (hex challenge))])) in Hc1.
  set (s2 := mk_state
               (with_session_id (with_req_id (self s) (_req_id (self s) + 1)) sid) w1).
  assert (Henc2' : len (dumps (request (_req_id (self s2) + 1) "challenge_response"
                                 (JObj [("session_id"%string, sid);
                                        ("signature"%string,
                                         JStr (hex (ed25519_sign E sk challenge)))])))
                   < 4294967296).
  { subst s2. cbn [self _req_id with_session_id with_req_id].
    replace (_req_id (self s) + 1 + 1) with (_req_id (self s) + 2) by lia.
    exact Henc2. }
  destruct (_call_ready "challenge_response"
              (JObj [("session_id"%string, sid);
                     ("signature"%string, JStr (hex (ed25519_sign E sk challenge)))])
              s2 h _ _ Hsock Henc2' Hwf2 Hsz2 Hr1) as (w2 & Hc2 & Hr2 & Hq2).
  change (raise_on_error (verdict_reply id2 a)) with (Ok tt) in Hc2.
  change (py_get (verdict_reply id2 a) "result" (JObj []))
    with (Ok (JObj [("authenticated"%string, a)])) in Hc2.
  exists w2. split; [|split; [exact Hr2|]].
  - unfold _authenticate. unfold bind at 1, get_self. unfold bind at 1, of_result.
    rewrite Hkey. unfold bind at 1. rewrite Hc1.
    unfold bind at 1.
    change (py_getitem (JObj [("session_id"%string, sid);
                              ("challenge"%string, JStr (hex challenge))]) "session_id")
      with (Ok sid).
    unfold bind at 1. unfold bind at 1, set_self. cbn [self wd]. fold s2.
    unfold bind at 1.
    change (py_getitem (JObj [("session_id"%string, sid);
                              ("challenge"%string, JStr (hex challenge))]) "challenge")
      with (Ok (JStr (hex challenge))).
    unfold bind at 1. unfold py_fromhex. rewrite fromhex_hex.
    unfold bind at 1. unfold bind at 1.
    change (_session_id (self s2)) with sid. rewrite Hc2.
    unfold bind at 1.
    change (py_get (JObj [("authenticated"%string, a)]) "authenticated" JNull)
      with (Ok a).
    subst s2. cbn [self _req_id with_session_id with_req_id].
    replace (_req_id (self s) + 1 + 1) with (_req_id (self s) + 2) by lia.
    destruct (py_truthy a); reflexivity.
  - subst s2. cbn [self wd _req_id with_session_id with_req_id] in Hq2.
    rewrite Hq2, Hq1, <- app_assoc. cbn [app].
    unfold authenticate_request, challenge_response_request.
    replace (_req_id (self s) + 1 + 1) with (_req_id (self s) + 2) by lia.
    reflexivity.
Qed.

(* ================================================================== *)
(** ** [connect] *)

Lemma connects_app (t1 t2 : list event) :
  connects (t1 ++ t2) = connects t1 ++ connects t2.
Proof.
  induction t1 as [|[] t1 IH]; cbn [app connects]; rewrite ?IH; reflexivity.
Qed.

Lemma open_transport_ready (c0 : client) (a : address) (s0 : state)
  (rx0 : list rx_event) (tx0 : list bool) (more : list dial_outcome) :
  dial (wd s0) = Accepted rx0 tx0 :: more ->
  flowing rx0 -> forallb (fun ok => ok) tx0 = true ->
  exists w1,
    (sock <- lift socket_socket ;;
     set_self (with_sock c0 (Some sock)) ;;
     lift (sock_connect sock a)) s0
    = (Ok tt, mk_state (with_sock c0 (Some (List.length (socks (wd s0))))) w1) /\
    ready w1 (List.length (socks (wd s0))) (stream rx0) /\
    requests (trace w1) = requests (trace (wd s0)).
Proof.
  intros Hd Hf Ht.
  unfold bind, lift, set_self, socket_socket, sock_connect, bind, log.
  cbn [self wd socks dial trace]. rewrite Hd. eexists. split; [reflexivity|]. split.
  - apply (ready_intro
             (mk_world (socks (wd s0) ++ [mk_sock false false [] []]) [] [])
             _ (mk_sock false false [] [])); [|exact Hf | exact Ht].
    cbn [socks]. rewrite nth_error_app2 by apply Nat.le_refl.
    rewrite Nat.sub_diag. reflexivity.
  - cbn [trace]. rewrite requests_app. cbn [requests]. apply app_nil_r.
Qed.

Lemma _resolve_key_retarget (E : env) (c : client) (tgt : option target)
  (sock : option handle) :
  _resolve_key E (with_sock (retarget c tgt) sock) = _resolve_key E c.
Proof. destruct tgt as [[p|h p]|]; reflexivity. Qed.

(** X10.  The handshake, seen from [connect]: when the peer accepts the
    connection and answers the first request with a session identifier
    and a challenge, and the second with a verdict, [connect] sends
    [authenticate] with the name of the agent, then [challenge_response]
    with the session identifier received and the signature of the
    challenge by the resolved key, in hexadecimal; it returns when the
    verdict is truthy and raises [AuthError("Authentication not
    confirmed")] otherwise.  In both cases the new socket and the session
    identifier are stored and the counter is two higher. *)
Theorem connect_completes_handshake (E : env) (tgt : option target) (s : state)
  (rx0 : list rx_event) (tx0 : list bool) (more : list dial_outcome)
  (sk challenge : bytes) (id1 id2 sid a : json) (rest : bytes) :
  dial (wd s) = Accepted rx0 tx0 :: more ->
  flowing rx0 ->
  forallb (fun ok => ok) tx0 = true ->
  stream rx0
  = frame (challenge_reply id1 sid challenge) ++ frame (verdict_reply id2 a) ++ rest ->
  _resolve_key E (self s) = Ok sk ->
  wf_json (challenge_reply id1 sid challenge) = true ->
  wf_json (verdict_reply id2 a) = true ->
  len (dumps (challenge_reply id1 sid challenge)) <= MAX_MESSAGE_SIZE ->
  len (dumps (verdict_reply id2 a)) <= MAX_MESSAGE_SIZE ->
  len (dumps (authenticate_request (_req_id (self s)) (agent_name (self s))))
  < 4294967296 ->
  len (dumps (challenge_response_request (_req_id (self s)) sid
                (ed25519_sign E sk challenge))) < 4294967296 ->
  exists s',
    connect E tgt s
    = (if py_truthy a then Ok tt else Raise not_confirmed, s') /\
    _sock (self s') = Some (List.length (socks (wd s))) /\
    _session_id (self s') = sid /\
    _req_id (self s') = _req_id (self s) + 2 /\
    requests (trace (wd s'))
    = requests (trace (wd s))
        ++ [(List.length (socks (wd s)),
             authenticate_request (_req_id (self s)) (agent_name (self s)));
            (List.length (socks (wd s)),
             challenge_response_request (_req_id (self s)) sid
               (ed25519_sign E sk challenge))] /\
    ready (wd s') (List.length (socks (wd s))) rest.
Proof.
  intros Hd Hf Ht Hs Hkey Hwf1 Hwf2 Hsz1 Hsz2 Henc1 Henc2.
  rewrite connect_unfold. unfold bind at 1.
  destruct (open_transport_ready (retarget (self s) tgt)
              (designated E (retarget (self s) tgt))
              (mk_state (retarget (self s) tgt) (wd s)) rx0 tx0 more Hd Hf Ht)
    as (w1 & Hopen & Hr1 & Hq1).
  cbn [wd] in Hopen, Hr1, Hq1. rewrite Hopen. rewrite Hs in Hr1.
  set (s1 := mk_state
               (with_sock (retarget (self s) tgt) (Some (List.length (socks (wd s)))))
               w1).
  assert (Hn : _req_id (self s1) = _req_id (self s))
    by (destruct tgt as [[p|h p]|]; reflexivity).
  assert (Ha : agent_name (self s1) = agent_name (self s))
    by (destruct tgt as [[p|h p]|]; reflexivity).
  destruct (_authenticate_ready E s1 (List.length (socks (wd s))) sk challenge
              id1 id2 sid a rest) as (w2 & Hauth & Hr2 & Hq2);
    try assumption.
  - reflexivity.
  - subst s1. cbn [self]. rewrite _resolve_key_retarget. exact Hkey.
  - rewrite Hn, Ha. exact Henc1.
  - rewrite Hn. exact Henc2.
  - rewrite Hauth. eexists. split; [reflexivity|]. cbn [self wd].
    rewrite Hn, Ha in Hq2. subst s1. cbn [wd] in Hq2. rewrite Hq1 in Hq2.
    split; [reflexivity|]. split; [reflexivity|].
    split; [cbn [_req_id with_req_id]; rewrite Hn; reflexivity|].
    split; [exact Hq2 | exact Hr2].
Qed.


Lemma connect_completes_handshake_witness :
  (dial (wd (mk_state bot (fresh_world [accepting_peer 0])))
   = [accepting_peer 0] /\
   _resolve_key toy_env bot = Ok toy_seed /\
   py_truthy (JBool true) = true) /\
  (exists s',
     connect toy_env None (mk_state bot (fresh_world [accepting_peer 0])) = (Ok tt, s') /\
     _sock (self s') = Some O /\
     _session_id (self s') = JStr "sess-1" /\
     _req_id (self s') = 2).
Proof.
  split; [split; [reflexivity | split; [vm_compute; reflexivity | reflexivity]]|].
  pose proof (connect_completes_handshake toy_env None
              (mk_state bot (fresh_world [accepting_peer 0]))
              [challenge_frame 1; verdict_frame 2 true] [] []
              toy_seed ["000"%char; "255"%char] (JNum 1) (JNum 2) (JStr "sess-1")
              (JBool true) []) as H.
  assert (H1 : dial (wd (mk_state bot (fresh_world [accepting_peer 0])))
               = Accepted [challenge_frame 1; verdict_frame 2 true] [] :: [])
    by reflexivity.
  specialize (H H1).
  assert (H2 : flowing [challenge_frame 1; verdict_frame 2 true])
    by (vm_compute; repeat constructor).
  specialize (H H2 eq_refl).
  match type of H with
  | ?A -> _ => assert (H3 : A) by (vm_compute; reflexivity)
  end.
  specialize (H H3).
  match type of H with
  | ?A -> _ => assert (H4 : A) by (vm_compute; reflexivity)
  end.
  specialize (H H4).
  specialize (H eq_refl eq_refl).
  match type of H with
  | ?A -> _ => assert (H5 : A) by (vm_compute; discriminate)
  end.
  specialize (H H5).
  match type of H with
  | ?A -> _ => assert (H6 : A) by (vm_compute; discriminate)
  end.
  specialize (H H6).
  match type of H with
  | ?A -> _ => assert (H7 : A) by (vm_compute; reflexivity)
  end.
  specialize (H H7).
  match type of H with
  | ?A -> _ => assert (H8 : A) by (vm_compute; reflexivity)
  end.
  specialize (H H8).
  destruct H as (s' & Hc & Ha & Hb & Hn & _).
  exists s'. exact (conj Hc (conj Ha (conj Hb Hn))).
Defined.

(* ================================================================== *)
(** ** Which calls dial *)

Section Quiet.

Context {S : Type} (tr : S -> list event).

Lemma quiet_ret {A : Type} (a : A) : quiet tr (ret a).
Proof. intros s. reflexivity. Qed.

Lemma quiet_raise {A : Type} (e : exn) : quiet tr (@raise S A e).
Proof. intros s. reflexivity. Qed.

Lemma quiet_of_result {A : Type} (r : result A) : quiet tr (of_result r).
Proof. intros s. reflexivity. Qed.

Lemma quiet_bind {A B : Type} (m : M S A) (k : A -> M S B) :
  quiet tr m -> (forall a, quiet tr (k a)) -> quiet tr (bind m k).
Proof.
  intros Hm Hk s. unfold bind. specialize (Hm s).
  destruct (m s) as [[a|e] s1]; cbn [snd] in *; [rewrite Hk|]; exact Hm.
Qed.

Lemma quiet_except (m : M S unit) :
  quiet tr m -> quiet tr (except_VaultError_pass m).
Proof.
  intros Hm s. unfold except_VaultError_pass. specialize (Hm s).
  destruct (m s) as [[u|[v|p]] s1]; exact Hm.
Qed.

End Quiet.

Lemma quiet_lift {A : Type} (m : M world A) :
  quiet trace m -> quiet state_trace (lift m).
Proof.
  intros Hm s. unfold lift, state_trace. specialize (Hm (wd s)).
  destruct (m (wd s)) as [r w1]. exact Hm.
Qed.

Lemma quiet_get_self : quiet state_trace get_self.
Proof. intros s. reflexivity. Qed.

Lemma quiet_set_self (c : client) : quiet state_trace (set_self c).
Proof. intros s. reflexivity. Qed.

Lemma sock_recv_trace (h : handle) (n : Z) (w : world) :
  trace (snd (sock_recv h n w)) = trace w ++ [EvRecv h n].
Proof.
  unfold sock_recv, bind, log, usable. cbn [socks dial trace].
  destruct (nth_error (socks w) h) as [st|];
    [destruct (connected st && negb (closed st));
     [destruct (rx st) as [|[chunk|] t]; [| destruct (len chunk <=? n) |]|]|];
    reflexivity.
Qed.

Lemma quiet_sock_sendall (h : handle) (data : bytes) :
  quiet trace (sock_sendall h data).
Proof.
  intros w. rewrite sock_sendall_trace, connects_app. apply app_nil_r.
Qed.

Lemma quiet_sock_recv (h : handle) (n : Z) : quiet trace (sock_recv h n).
Proof.
  intros w. rewrite sock_recv_trace, connects_app. apply app_nil_r.
Qed.

Lemma quiet_sock_close (h : handle) : quiet trace (sock_close h).
Proof.
  intros w. destruct (sock_close h w) as [r w1] eqn:H.
  apply sock_close_effect in H. destruct H as (_ & H). cbn [snd].
  rewrite H, connects_app. apply app_nil_r.
Qed.

Lemma quiet_send (h : handle) (obj : json) : quiet trace (send h obj).
Proof.
  unfold send. apply quiet_bind.
  - intros w. cbn [log snd trace]. rewrite connects_app. apply app_nil_r.
  - intros _. apply quiet_bind; [apply quiet_of_result|].
    intros hd. apply quiet_sock_sendall.
Qed.

Lemma quiet_read_loop (h : handle) (n : Z) (fuel : nat) :
  forall buf, quiet trace (read_loop fuel h n buf).
Proof.
  induction fuel as [|fuel IH]; intros buf; cbn [read_loop];
    destruct (len buf <? n); try apply quiet_ret.
  apply quiet_bind; [apply quiet_sock_recv|].
  intros [|c chunk]; [apply quiet_raise | apply IH].
Qed.

Lemma quiet_recv (h : handle) : quiet trace (recv h).
Proof.
  unfold recv, _read_exact. apply quiet_bind; [apply quiet_read_loop|].
  intros hd. destruct (unpack_u32 hd >? MAX_MESSAGE_SIZE); [apply quiet_raise|].
  apply quiet_bind; [apply quiet_read_loop|]. intros body. apply quiet_of_result.
Qed.

Create HintDb quiet.

#[local] Hint Resolve quiet_ret quiet_raise quiet_of_result quiet_get_self
  quiet_set_self quiet_send quiet_recv quiet_sock_close quiet_lift quiet_except
  : quiet.

Ltac quiet_step :=
  match goal with
  | |- quiet _ (bind _ _) => apply quiet_bind; [|intros ?]
  | |- quiet _ (match ?x with _ => _ end) => destruct x
  | |- quiet _ _ => solve [auto with quiet]
  end.

Lemma quiet__call (method : string) (params : json) :
  quiet state_trace (_call method params).
Proof. unfold _call, _next_id. repeat quiet_step. Qed.

#[local] Hint Resolve quiet__call : quiet.

Lemma quiet__authenticate (E : env) : quiet state_trace (_authenticate E).
Proof. unfold _authenticate. repeat quiet_step. Qed.

Lemma quiet_release_lease (lid : json) : quiet state_trace (release_lease lid).
Proof. unfold release_lease. repeat quiet_step. Qed.

#[local] Hint Resolve quiet_release_lease : quiet.

Lemma quiet_release_each (lids : list json) : quiet state_trace (release_each lids).
Proof.
  induction lids as [|lid rest IH]; cbn [release_each]; [apply quiet_ret|].
  apply quiet_bind; [auto with quiet | intros _; exact IH].
Qed.

#[local] Hint Resolve quiet_release_each : quiet.

Lemma quiet_close : quiet state_trace close.
Proof. unfold close. repeat quiet_step. Qed.

Lemma quiet_retrieve (E : env) (path : string) (ttl : option Z) :
  quiet state_trace (retrieve E path ttl).
Proof. unfold retrieve. repeat quiet_step. Qed.

Lemma quiet_retrieve_raw (path : string) (ttl : option Z) :
  quiet state_trace (retrieve_raw path ttl).
Proof. unfold retrieve_raw. repeat quiet_step. Qed.

Lemma quiet_list_ : quiet state_trace list_.
Proof. unfold list_. repeat quiet_step. Qed.

Lemma quiet_use (path operation : string) (params : option json) :
  quiet state_trace (use path operation params).
Proof. unfold use. repeat quiet_step. Qed.

(** Opening the transport dials once, on the new socket. *)
Lemma open_transport_dials (c0 : client) (a : address) (s0 : state) :
  connects (trace (wd (snd ((sock <- lift socket_socket ;;
                              set_self (with_sock c0 (Some sock)) ;;
                              lift (sock_connect sock a)) s0))))
  = connects (trace (wd s0)) ++ [(List.length (socks (wd s0)), a)].
Proof.
  unfold bind, lift, set_self, socket_socket, sock_connect, bind, log.
  cbn [self wd socks dial trace].
  destruct (dial (wd s0)) as [|[|rx0 tx0] rest]; cbn [snd wd trace];
    rewrite connects_app; reflexivity.
Qed.

Lemma connect_dials (E : env) (tgt : option target) (s : state) :
  connects (trace (wd (snd (connect E tgt s))))
  = connects (trace (wd s))
      ++ [(List.length (socks (wd s)), designated E (retarget (self s) tgt))].
Proof.
  rewrite connect_unfold. unfold bind at 1.
  pose proof (open_transport_dials (retarget (self s) tgt)
                (designated E (retarget (self s) tgt))
                (mk_state (retarget (self s) tgt) (wd s))) as Hopen.
  cbn [wd] in Hopen.
  match type of Hopen with
  | context [snd ?x] => destruct x as [[u|e] s1]
  end; cbn [snd] in *; [|exact Hopen].
  rewrite <- Hopen. apply (quiet__authenticate E s1).
Qed.

(** X11.  [connect] dials once, on the socket it has just created.  The
    address is the host and the port when, the override taken into
    account, there is a host that is not empty and a port that is not
    zero; otherwise it is the Unix socket whose path is the configured
    one, or the default one when none is configured or it is empty, with
    the home directory expanded.  A path given to [connect] discards the
    configured host; a host and a port given to [connect] discard the
    configured path, so that with a port that is zero it is the default
    socket that is dialled. *)
Theorem connect_dials_designated (E : env) (s : state) :
  (forall tgt,
     connects (trace (wd (snd (connect E tgt s))))
     = connects (trace (wd s))
         ++ [(List.length (socks (wd s)), designated E (retarget (self s) tgt))]) /\
  (forall a p,
     connects (trace (wd (snd (connect E (Some (TargetPath (String a p))) s))))
     = connects (trace (wd s))
         ++ [(List.length (socks (wd s)), AF_UNIX (expanduser E (String a p)))]) /\
  (forall a hst port,
     port <> 0 ->
     connects (trace (wd (snd (connect E (Some (TargetHostPort (String a hst) port)) s))))
     = connects (trace (wd s))
         ++ [(List.length (socks (wd s)), AF_INET (String a hst) port)]) /\
  (forall hst,
     connects (trace (wd (snd (connect E (Some (TargetHostPort hst 0)) s))))
     = connects (trace (wd s))
         ++ [(List.length (socks (wd s)), AF_UNIX (expanduser E DEFAULT_SOCKET))]) /\
  (_host (self s) = None -> _socket_path (self s) = None ->
   connects (trace (wd (snd (connect E None s))))
   = connects (trace (wd s))
       ++ [(List.length (socks (wd s)), AF_UNIX (expanduser E DEFAULT_SOCKET))]).
Proof.
  split; [intros tgt; apply connect_dials|].
  split; [|split; [|split]].
  - intros a p. rewrite connect_dials. reflexivity.
  - intros a hst port Hp. rewrite connect_dials.
    unfold designated, retarget. cbn [_host _port with_target].
    replace (port =? 0) with false by (symmetry; apply Z.eqb_neq; exact Hp).
    reflexivity.
  - intros hst. rewrite connect_dials. destruct hst; reflexivity.
  - intros Hh Hp. rewrite connect_dials. unfold designated, retarget.
    rewrite Hh, Hp. reflexivity.
Qed.

Lemma connect_dials_designated_witness :
  (_host (self bot_start) = None /\ _socket_path (self bot_start) = None /\
   8200 <> 0) /\
  connects (trace (wd (snd (connect toy_env None bot_start))))
  = [(O, AF_UNIX "~/.sanctum/vault.sock")] /\
  connects (trace (wd (snd (connect toy_env
                              (Some (TargetHostPort "vault.local" 8200)) bot_start))))
  = [(O, AF_INET "vault.local" 8200)].
Proof.
  assert (H1 : _host (self bot_start) = None) by reflexivity.
  assert (H2 : _socket_path (self bot_start) = None) by reflexivity.
  assert (H3 : 8200 <> 0) by lia.
  split; [exact (conj H1 (conj H2 H3))|].
  destruct (connect_dials_designated toy_env bot_start) as (_ & _ & Hb & _ & Hd).
  split; [exact (Hd H1 H2) | exact (Hb "v"%char "ault.local"%string 8200 H3)].
Defined.

Lemma perform_dials (E : env) (c : api_call) (s : state) :
  List.length (connects (trace (wd (perform E c s))))
  = (List.length (connects (trace (wd s))) + (if is_connect c then 1 else 0))%nat.
Proof.
  destruct c as [tgt| | path ttl | path ttl | | lid | path operation params];
    cbn [perform is_connect];
    try (rewrite connect_dials, length_app; reflexivity);
    rewrite Nat.add_0_r; f_equal.
  - apply quiet_close.
  - apply quiet_retrieve.
  - apply quiet_retrieve_raw.
  - apply quiet_list_.
  - apply quiet_release_lease.
  - apply quiet_use.
Qed.

(** X12.  Only [connect] dials: in any program, on any client and
    whatever the peers answer, the number of calls of [sock.connect] is
    the number of calls of [connect]; no operation, and not [close],
    reconnects or retries behind the back of the caller. *)
Theorem one_dial_per_connect (E : env) (calls : list api_call) (s : state) :
  List.length (connects (trace (wd (session_after E calls s))))
  = (List.length (connects (trace (wd s))) + connect_calls calls)%nat.
Proof.
  revert s. unfold session_after, connect_calls.
  induction calls as [|c calls IH]; intros s; cbn [fold_left filter].
  - cbn. lia.
  - rewrite IH, perform_dials. destruct (is_connect c); cbn [List.length]; lia.
Qed.

(* ================================================================== *)
(** ** The operations *)

(** X13.  [retrieve] tracks the lease before it decodes the value: when
    the result of the vault carries a [lease_id], the identifier is
    appended to the leases whatever becomes of the value.  The call
    returns the bytes of the hexadecimal [value], decoded as UTF-8, and
    raises [KeyError] when the result has no [value], [TypeError] when the
    value is not a string and [ValueError] when it is not hexadecimal
    text; in each case the lease is tracked, so that [close] will release
    it. *)
Theorem retrieve_tracks_before_decoding (E : env) (path : string) (ttl : option Z)
  (s : state) (h : handle) (id r lid : json) (rest : bytes) :
  _sock (self s) = Some h ->
  len (dumps (request (_req_id (self s) + 1) "retrieve"
                (retrieve_params (self s) path ttl))) < 4294967296 ->
  wf_json (reply id r) = true ->
  len (dumps (reply id r)) <= MAX_MESSAGE_SIZE ->
  ready (wd s) h (frame (reply id r) ++ rest) ->
  py_getitem r "lease_id" = Ok lid ->
  exists s',
    retrieve E path ttl s
    = (match py_getitem r "value" with
       | Raise e => Raise e
       | Ok v =>
           match py_fromhex v with
           | Raise e => Raise e
           | Ok raw => Ok (decode_utf8_replace E raw)
           end
       end, s') /\
    _leases (self s') = _leases (self s) ++ [lid] /\
    ready (wd s') h rest.
Proof.
  intros Hsock Henc Hwf Hsz Hr Hlid.
  destruct (_call_ready "retrieve" (retrieve_params (self s) path ttl) s h _ _
              Hsock Henc Hwf Hsz Hr) as (w1 & Hc & Hr1 & _).
  change (raise_on_error (reply id r)) with (Ok tt) in Hc.
  change (py_get (reply id r) "result" (JObj [])) with (Ok r) in Hc.
  unfold retrieve. unfold bind at 1, get_self. unfold bind at 1. rewrite Hc.
  unfold bind at 1, of_result. rewrite Hlid.
  unfold bind, get_self, set_self, ret. cbn [self wd].
  destruct (py_getitem r "value") as [v|e];
    [destruct (py_fromhex v) as [raw|e]|];
    (eexists; split; [reflexivity|]; cbn [self wd _leases with_leases with_req_id];
     split; [reflexivity | exact Hr1]).
Qed.

Lemma retrieve_tracks_before_decoding_witness :
  (_sock (self (leasing [] [result_frame 3 (JObj [("lease_id"%string, JStr "L")])] []))
   = Some O /\
   py_getitem (JObj [("lease_id"%string, JStr "L")]) "lease_id" = Ok (JStr "L")) /\
  (exists s',
     retrieve toy_env "db/password" None
       (leasing [] [result_frame 3 (JObj [("lease_id"%string, JStr "L")])] [])
     = (Raise (Py KeyError), s') /\
     _leases (self s') = [JStr "L"]).
Proof.
  assert (H1 : _sock (self (leasing [] [result_frame 3
                                           (JObj [("lease_id"%string, JStr "L")])] []))
               = Some O) by reflexivity.
  assert (H2 : py_getitem (JObj [("lease_id"%string, JStr "L")]) "lease_id"
               = Ok (JStr "L")) by reflexivity.
  split; [exact (conj H1 H2)|].
  pose proof (retrieve_tracks_before_decoding toy_env "db/password" None
                (leasing [] [result_frame 3 (JObj [("lease_id"%string, JStr "L")])] [])
                O (JNum 3) (JObj [("lease_id"%string, JStr "L")]) (JStr "L") [] H1)
    as H.
  match type of H with
  | ?A -> _ => assert (H3 : A) by (vm_compute; reflexivity)
  end.
  specialize (H H3 eq_refl).
  match type of H with
  | ?A -> _ => assert (H4 : A) by (vm_compute; discriminate)
  end.
  specialize (H H4).
  match type of H with
  | ?A -> _ => assert (H5 : A)
  end.
  { eexists. split; [reflexivity|]. cbn [rx tx].
    split; [vm_compute; repeat constructor | split; vm_compute; reflexivity]. }
  specialize (H H5 H2).
  destruct H as (s' & Hret & Hl & _). exists s'. exact (conj Hret Hl).
Defined.

Lemma _call_requests (method : string) (params : json) (s : state) (h : handle) :
  _sock (self s) = Some h ->
  requests (trace (wd (snd (_call method params s))))
  = requests (trace (wd s)) ++ [(h, request (_req_id (self s) + 1) method params)].
Proof.
  intros Hsock. destruct (_call method params s) as [r s'] eqn:H.
  apply _call_spec in H. rewrite Hsock in H. destruct H as (_ & H & _). exact H.
Qed.

(** X14.  Each operation on a connected client hands one request to
    [send], numbered one above the counter, whether the exchange then
    succeeds or fails.  The parameters are: for [use], the session
    identifier, the path and the operation, and the [params] of the caller
    only when they are truthy (an empty dictionary is left out); for
    [retrieve] and [retrieve_raw], the session identifier and the path,
    and [ttl] only when one is given; for [list], the session identifier;
    for [release_lease], the lease identifier alone, without the session
    identifier. *)
Theorem operations_issue_one_request (E : env) (s : state) (h : handle) :
  _sock (self s) = Some h ->
  (forall path operation params,
     requests (trace (wd (snd (use path operation params s))))
     = requests (trace (wd s))
         ++ [(h, request (_req_id (self s) + 1) "use"
                   (JObj ([("session_id"%string, _session_id (self s));
                           ("path"%string, JStr path);
                           ("operation"%string, JStr operation)]
                            ++ match params with
                               | Some p =>
                                   if py_truthy p then [("params"%string, p)] else []
                               | None => []
                               end)))]) /\
  (forall path ttl,
     requests (trace (wd (snd (retrieve E path ttl s))))
     = requests (trace (wd s))
         ++ [(h, request (_req_id (self s) + 1) "retrieve"
                   (JObj ([("session_id"%string, _session_id (self s));
                           ("path"%string, JStr path)]
                            ++ match ttl with
                               | Some t => [("ttl"%string, JNum t)]
                               | None => []
                               end)))] /\
     requests (trace (wd (snd (retrieve_raw path ttl s))))
     = requests (trace (wd (snd (retrieve E path ttl s))))) /\
  requests (trace (wd (snd (list_ s))))
  = requests (trace (wd s))
      ++ [(h, request (_req_id (self s) + 1) "list"
                (JObj [("session_id"%string, _session_id (self s))]))] /\
  (forall lid,
     requests (trace (wd (snd (release_lease lid s))))
     = requests (trace (wd s))
         ++ [(h, request (_req_id (self s) + 1) "release_lease"
                   (JObj [("lease_id"%string, lid)]))]).
Proof.
  intros Hsock.
  assert (Hp : forall path ttl,
            retrieve_params (self s) path ttl
            = JObj ([("session_id"%string, _session_id (self s));
                     ("path"%string, JStr path)]
                      ++ match ttl with
                         | Some t => [("ttl"%string, JNum t)]
                         | None => []
                         end))
    by (intros path [t|]; reflexivity).
  assert (Hraw : forall path ttl,
            requests (trace (wd (snd (retrieve_raw path ttl s))))
            = requests (trace (wd s))
                ++ [(h, request (_req_id (self s) + 1) "retrieve"
                          (retrieve_params (self s) path ttl))]).
  { intros path ttl.
    rewrite <- (_call_requests "retrieve" (retrieve_params (self s) path ttl) s h Hsock).
    unfold retrieve_raw, bind, get_self, set_self, of_result, ret.
    destruct (_call "retrieve" _ s) as [[r|e] s1]; [|reflexivity].
    destruct (py_getitem r "lease_id"); reflexivity. }
  assert (Hret : forall path ttl,
            requests (trace (wd (snd (retrieve E path ttl s))))
            = requests (trace (wd s))
                ++ [(h, request (_req_id (self s) + 1) "retrieve"
                          (retrieve_params (self s) path ttl))]).
  { intros path ttl.
    rewrite <- (_call_requests "retrieve" (retrieve_params (self s) path ttl) s h Hsock).
    unfold retrieve, bind, get_self, set_self, of_result, ret.
    destruct (_call "retrieve" _ s) as [[r|e] s1]; [|reflexivity].
    destruct (py_getitem r "lease_id"); [|reflexivity]. cbn [self wd].
    destruct (py_getitem r "value") as [v|e]; [destruct (py_fromhex v)|];
      reflexivity. }
  split; [|split; [|split]].
  - intros path operation params. unfold use, bind, get_self.
    apply _call_requests. exact Hsock.
  - intros path ttl. rewrite Hraw, Hret, Hp. auto.
  - rewrite <- (_call_requests "list" _ s h Hsock).
    unfold list_, bind, get_self, of_result.
    destruct (_call "list" _ s) as [[r|e] s1]; reflexivity.
  - intros lid. rewrite <- (_call_requests "release_lease" _ s h Hsock).
    unfold release_lease, bind, get_self, set_self, ret.
    destruct (_call "release_lease" _ s) as [[r|e] s1]; [|reflexivity].
    cbn [snd]. destruct (py_in lid (_leases (self s1))); reflexivity.
Qed.

Lemma operations_issue_one_request_witness :
  _sock (self (leasing [] [] [])) = Some O /\
  requests (trace (wd (snd (use "openai/api_key" "http_header" (Some (JObj []))
                              (leasing [] [] [])))))
  = [(O, request 3 "use"
           (JObj [("session_id"%string, JStr "sess-1");
                  ("path"%string, JStr "openai/api_key");
                  ("operation"%string, JStr "http_header")]))].
Proof.
  assert (H : _sock (self (leasing [] [] [])) = Some O) by reflexivity.
  split; [exact H|].
  exact (proj1 (operations_issue_one_request toy_env _ O H)
           "openai/api_key"%string "http_header"%string (Some (JObj []))).
Defined.

(** X15.  Frames tell payloads apart: two payloads with the same frame
    are the same payload. *)
Theorem frames_distinguish_payloads (p q : json) (f : bytes) :
  wf_json p = true -> wf_json q = true ->
  encode_frame p = Ok f -> encode_frame q = Ok f -> p = q.
Proof.
  intros Hp Hq Hfp Hfq.
  pose proof (decode_encode p f [] Hp Hfp) as H1.
  pose proof (decode_encode q f [] Hq Hfq) as H2.
  rewrite H1 in H2. congruence.
Qed.

Lemma frames_distinguish_payloads_witness :
  (wf_json (JObj [("a"%string, JNum 1)]) = true /\
   encode_frame (JObj [("a"%string, JNum 1)]) = Ok (frame (JObj [("a"%string, JNum 1)]))) /\
  JObj [("a"%string, JNum 1)] = JObj [("a"%string, JNum 1)].
Proof.
  assert (H1 : wf_json (JObj [("a"%string, JNum 1)]) = true) by reflexivity.
  assert (H2 : encode_frame (JObj [("a"%string, JNum 1)])
               = Ok (frame (JObj [("a"%string, JNum 1)])))
    by (vm_compute; reflexivity).
  split; [exact (conj H1 H2)|].
  exact (frames_distinguish_payloads _ _ _ H1 H1 H2 H2).
Defined.

(* ================================================================== *)
(** ** Key files *)

Lemma list_ascii_of_string_app (a b : string) :
  list_ascii_of_string (a ++ b) = list_ascii_of_string a ++ list_ascii_of_string b.
Proof. induction a as [|c a IH]; cbn; [|rewrite IH]; reflexivity. Qed.

Lemma lstrip_spaces_app (pre l : list ascii) :
  Forall (fun c => is_space c = true) pre -> lstrip (pre ++ l) = lstrip l.
Proof.
  induction 1 as [|c pre Hc _ IH]; [reflexivity|].
  cbn [app lstrip]. rewrite Hc. exact IH.
Qed.

Lemma lstrip_solid_head (c : ascii) (l : list ascii) :
  is_space c = false -> lstrip (c :: l) = c :: l.
Proof. intros H. cbn [lstrip]. rewrite H. reflexivity. Qed.

Lemma strip_padded (pre l post : list ascii) :
  Forall (fun c => is_space c = true) pre ->
  Forall (fun c => is_space c = true) post ->
  Forall (fun c => is_space c = false) l ->
  strip (string_of_list_ascii (pre ++ l ++ post)) = string_of_list_ascii l.
Proof.
  intros Hpre Hpost Hl. unfold strip. f_equal.
  rewrite list_ascii_of_string_of_list_ascii, lstrip_spaces_app by exact Hpre.
  destruct l as [|c l].
  - cbn [app]. rewrite <- (app_nil_r post), lstrip_spaces_app by exact Hpost.
    reflexivity.
  - inversion Hl as [|? ? Hc Hl']; subst.
    cbn [app]. rewrite lstrip_solid_head by exact Hc.
    change (c :: l ++ post) with ((c :: l) ++ post).
    rewrite rev_app_distr, lstrip_spaces_app by (apply Forall_rev; exact Hpost).
    assert (Hrev : Forall (fun c => is_space c = false) (rev (c :: l)))
      by (apply Forall_rev; exact Hl).
    destruct (rev (c :: l)) as [|d r] eqn:Hr.
    + apply (f_equal (@List.length ascii)) in Hr. rewrite length_rev in Hr.
      discriminate.
    + inversion Hrev; subst. rewrite lstrip_solid_head by assumption.
      rewrite <- Hr. apply rev_involutive.
Qed.

Lemma hex_solid (b : bytes) :
  Forall (fun c => is_space c = false) (list_ascii_of_string (hex b)).
Proof.
  unfold hex. rewrite list_ascii_of_string_of_list_ascii.
  induction b as [|c b IH]; cbn [flat_map app]; [constructor|].
  constructor; [|constructor; [|exact IH]];
    destruct c as [[|] [|] [|] [|] [|] [|] [|] [|]]; reflexivity.
Qed.

(** The text of a key file that holds the bytes [b] in hexadecimal,
    between white space. *)
Lemma fromhex_strip_padded (pre post : string) (b : bytes) :
  blank pre -> blank post ->
  fromhex (strip (pre ++ hex b ++ post)) = Some b.
Proof.
  intros Hpre Hpost.
  rewrite <- (string_of_list_ascii_of_string (pre ++ hex b ++ post)).
  rewrite !list_ascii_of_string_app.
  rewrite strip_padded by (assumption || apply hex_solid).
  rewrite string_of_list_ascii_of_string. apply fromhex_hex.
Qed.

(** X16.  Keys are read back from their files.  A file that holds the 32
    bytes of a seed in hexadecimal, with white space around or not, loads
    as that seed.  An encrypted file holds, in hexadecimal, 16 bytes of
    salt, 24 bytes of nonce and the ciphertext: the key derived from the
    passphrase and the salt opens the ciphertext with the nonce, and the
    seed found loads.  Without an explicit key path, the encrypted file of
    the agent is used when [os.path.exists] finds it and a passphrase that
    is not empty was given, and then there is no way back to the plain
    file: an encrypted file that exists and cannot be read raises
    [OSError].  In every other case it is the plain file of the agent,
    and the passphrase is not used. *)
Theorem key_files_load (E : env) :
  (forall path pre post seed,
     blank pre -> blank post -> len seed = 32 ->
     files E path = Some (pre ++ hex seed ++ post)%string ->
     _load_signing_key E path = Ok seed) /\
  (forall path pre post pw (salt nonce ct seed : bytes),
     blank pre -> blank post -> len salt = 16 -> len nonce = 24 ->
     files E path = Some (pre ++ hex (salt ++ nonce ++ ct)%list ++ post)%string ->
     secretbox_decrypt E (pbkdf2_hmac_sha256 E (B pw) salt) ct nonce = Some seed ->
     len seed = 32 ->
     _load_encrypted_key E path pw = Ok seed) /\
  (forall c a pw,
     str_truthy (_key_path c) = false ->
     path_exists E (encrypted_key_file E c) = true ->
     _passphrase c = Some (String a pw) ->
     _resolve_key E c = _load_encrypted_key E (encrypted_key_file E c) (String a pw) /\
     (files E (encrypted_key_file E c) = None ->
      _resolve_key E c = Raise (Py OSError))) /\
  (forall c,
     str_truthy (_key_path c) = false ->
     path_exists E (encrypted_key_file E c) = false \/
     str_truthy (_passphrase c) = false ->
     _resolve_key E c = _load_signing_key E (plain_key_file E c)).
Proof.
  split; [|split; [|split]].
  - intros path pre post seed Hpre Hpost Hlen Hfile.
    unfold _load_signing_key, read_text. rewrite Hfile.
    rewrite fromhex_strip_padded by assumption.
    unfold SigningKey. rewrite Hlen. reflexivity.
  - intros path pre post pw salt nonce ct seed Hpre Hpost Hsalt Hnonce Hfile Hdec Hlen.
    unfold _load_encrypted_key, read_text. rewrite Hfile.
    rewrite fromhex_strip_padded by assumption.
    assert (H16 : firstn 16 (salt ++ nonce ++ ct) = salt).
    { change 16%nat with (Z.to_nat 16). rewrite <- Hsalt. apply firstn_len_app. }
    assert (Hs16 : skipn 16 (salt ++ nonce ++ ct) = nonce ++ ct).
    { change 16%nat with (Z.to_nat 16). rewrite <- Hsalt. apply skipn_len_app. }
    assert (H24 : firstn 24 (nonce ++ ct) = nonce).
    { change 24%nat with (Z.to_nat 24). rewrite <- Hnonce. apply firstn_len_app. }
    assert (H40 : skipn 40 (salt ++ nonce ++ ct) = ct).
    { change 40%nat with (24 + 16)%nat. rewrite <- skipn_skipn, Hs16.
      change 24%nat with (Z.to_nat 24). rewrite <- Hnonce. apply skipn_len_app. }
    rewrite H16, Hs16, H24, H40. unfold SecretBox_decrypt.
    rewrite Hnonce, Hdec. cbn. unfold SigningKey. rewrite Hlen. reflexivity.
  - intros c a pw Hkp Hex Hpw.
    assert (Hres : _resolve_key E c
                   = _load_encrypted_key E (encrypted_key_file E c) (String a pw)).
    { unfold _resolve_key. rewrite Hkp. fold (encrypted_key_file E c).
      rewrite Hex, Hpw. reflexivity. }
    split; [exact Hres|]. intros Hnone. rewrite Hres.
    unfold _load_encrypted_key, read_text. rewrite Hnone. reflexivity.
  - intros c Hkp H. unfold _resolve_key. rewrite Hkp.
    fold (encrypted_key_file E c) (plain_key_file E c).
    destruct H as [H|H].
    + rewrite H. reflexivity.
    + destruct (path_exists E (encrypted_key_file E c));
        destruct (_passphrase c) as [[|a pw]|]; try reflexivity; discriminate.
Qed.

Lemma key_files_load_witness :
  (blank "" /\ blank (String "010" EmptyString) /\ len toy_seed = 32 /\
   files toy_env "~/.sanctum/keys/bot.key"
   = Some ("" ++ hex toy_seed ++ String "010" EmptyString)%string) /\
  _load_signing_key toy_env "~/.sanctum/keys/bot.key" = Ok toy_seed.
Proof.
  assert (H1 : blank "") by constructor.
  assert (H2 : blank (String "010" EmptyString))
    by (constructor; [reflexivity | constructor]).
  assert (H3 : len toy_seed = 32) by (vm_compute; reflexivity).
  assert (H4 : files toy_env "~/.sanctum/keys/bot.key"
               = Some ("" ++ hex toy_seed ++ String "010" EmptyString)%string)
    by (vm_compute; reflexivity).
  split; [exact (conj H1 (conj H2 (conj H3 H4)))|].
  exact (proj1 (key_files_load toy_env) _ _ _ _ H1 H2 H3 H4).
Defined.

(* ================================================================== *)
(** ** [close] in front of a vault that answers *)

Lemma with_leases_same (c : client) (n : Z) :
  with_req_id c n = with_leases (with_req_id c n) (_leases c).
Proof. reflexivity. Qed.

Lemma release_lease_ready (lid : json) (s : state) (h : handle) (resp : json)
  (rest : bytes) :
  _sock (self s) = Some h ->
  len (dumps (release_request (_req_id (self s)) lid)) < 4294967296 ->
  orderly resp ->
  ready (wd s) h (frame resp ++ rest) ->
  exists w',
    except_VaultError_pass (release_lease lid) s
    = (Ok tt,
       mk_state
         (with_leases (with_req_id (self s) (_req_id (self s) + 1))
            match raise_on_error resp with
            | Ok _ =>
                if py_in lid (_leases (self s)) then py_remove lid (_leases (self s))
                else _leases (self s)
            | Raise _ => _leases (self s)
            end) w') /\
    ready w' h rest.
Proof.
  intros Hsock Henc (Hwf & Hsz & Hpy) Hr.
  destruct (_call_ready "release_lease" (JObj [("lease_id"%string, lid)]) s h _ _
              Hsock Henc Hwf Hsz Hr) as (w1 & Hc & Hr1 & _).
  exists w1. split; [|exact Hr1].
  unfold except_VaultError_pass, release_lease. unfold bind at 1. rewrite Hc.
  destruct (raise_on_error resp) as [u|[v|p]] eqn:He.
  - assert (Hres : exists v, py_get resp "result" (JObj []) = Ok v).
    { destruct resp as [| b | z | t | l | m]; try discriminate He.
      unfold py_get. destruct (dict_get "result" m); eauto. }
    destruct Hres as (v & ->).
    unfold bind, get_self, set_self, ret. cbn [self wd _leases with_req_id].
    destruct (py_in lid (_leases (self s))); reflexivity.
  - reflexivity.
  - exfalso. exact (Hpy p eq_refl).
Qed.

Lemma frames_cons (resp : json) (resps : list json) (rest : bytes) :
  frames (resp :: resps) ++ rest = frame resp ++ frames resps ++ rest.
Proof. unfold frames. cbn [map concat]. symmetry. apply app_assoc. Qed.

Lemma release_each_ready (h : handle) :
  forall lids resps s rest,
    _sock (self s) = Some h ->
    List.length resps = List.length lids ->
    Forall (fun hr => len (dumps (snd hr)) < 4294967296)
      (release_requests h (_req_id (self s)) lids) ->
    Forall orderly resps ->
    ready (wd s) h (frames resps ++ rest) ->
    exists w',
      release_each lids s
      = (Ok tt,
         mk_state
           (with_leases (with_req_id (self s) (_req_id (self s) + len lids))
              (after_releases lids resps (_leases (self s)))) w') /\
      ready w' h rest.
Proof.
  induction lids as [|lid lids IH]; intros resps s rest Hsock Hlen Henc Hord Hr.
  - destruct resps; [|discriminate]. exists (wd s). split; [|exact Hr].
    cbn [release_each after_releases]. unfold ret.
    destruct s as [c w]. destruct c. cbn. rewrite Z.add_0_r. reflexivity.
  - destruct resps as [|resp resps]; [discriminate|].
    rewrite frames_cons in Hr. cbn [release_requests] in Henc.
    inversion Henc as [|? ? Henc1 Henc2]; subst.
    inversion Hord as [|? ? Hord1 Hord2]; subst. cbn [snd] in Henc1.
    destruct (release_lease_ready lid s h resp _ Hsock Henc1 Hord1 Hr)
      as (w1 & Hrel & Hr1).
    cbn [release_each]. unfold bind at 1. rewrite Hrel.
    match goal with
    | |- context [release_each lids ?s1] =>
        destruct (IH resps s1 rest) as (w2 & Heach & Hr2);
          [exact Hsock | cbn [List.length] in Hlen; lia | exact Henc2
          | exact Hord2 | exact Hr1 |]
    end.
    exists w2. split; [|exact Hr2]. rewrite Heach.
    cbn [self _leases _req_id with_leases with_req_id after_releases].
    replace (_req_id (self s) + 1 + len lids) with (_req_id (self s) + len (lid :: lids))
      by (unfold len; cbn [List.length]; lia).
    reflexivity.
Qed.

Lemma after_releases_accepted (lids resps : list json) :
  List.length resps = List.length lids ->
  Forall (fun lid => wf_json lid = true) lids ->
  Forall (fun resp => raise_on_error resp = Ok tt) resps ->
  after_releases lids resps lids = [].
Proof.
  revert resps. induction lids as [|lid lids IH]; intros resps Hlen Hwf Hok.
  - destruct resps; reflexivity.
  - destruct resps as [|resp resps]; [discriminate|].
    inversion Hwf as [|? ? Hw1 Hw2]; subst. inversion Hok as [|? ? H1 H2]; subst.
    cbn [after_releases]. rewrite H1. cbn [py_in existsb py_remove].
    rewrite py_eq_refl by assumption. cbn [orb].
    apply IH; [cbn [List.length] in Hlen; lia | assumption | assumption].
Qed.

Lemma after_releases_refused (lids resps tracked : list json) :
  Forall (fun resp => exists v, raise_on_error resp = Raise (Vault v)) resps ->
  after_releases lids resps tracked = tracked.
Proof.
  revert resps. induction lids as [|lid lids IH]; intros resps Hno.
  - destruct resps; reflexivity.
  - destruct resps as [|resp resps]; [reflexivity|].
    inversion Hno as [|? ? (v & Hv) H2]; subst.
    cbn [after_releases]. rewrite Hv. apply IH. exact H2.
Qed.

(** X17.  [close] in front of a vault that answers every release, with a
    result or with an error of its own: [close] returns, the socket is
    closed and what follows the answers stays unread.  A lease whose
    release the vault accepts leaves the list; a lease whose release it
    refuses stays in the list of the closed client.  So the list is empty
    after [close] when every release was accepted, and it is the list of
    before when every release was refused. *)
Theorem close_settles_leases (s : state) (h : handle) (resps : list json)
  (rest : bytes) :
  _sock (self s) = Some h ->
  List.length resps = List.length (_leases (self s)) ->
  Forall (fun hr => len (dumps (snd hr)) < 4294967296)
    (release_requests h (_req_id (self s)) (_leases (self s))) ->
  Forall orderly resps ->
  ready (wd s) h (frames resps ++ rest) ->
  exists s',
    close s = (Ok tt, s') /\
    _leases (self s') = after_releases (_leases (self s)) resps (_leases (self s)) /\
    is_closed (wd s') h = true /\
    unread (wd s') h = rest /\
    (Forall (fun lid => wf_json lid = true) (_leases (self s)) ->
     Forall (fun resp => raise_on_error resp = Ok tt) resps ->
     _leases (self s') = []) /\
    (Forall (fun resp => exists v, raise_on_error resp = Raise (Vault v)) resps ->
     _leases (self s') = _leases (self s)).
Proof.
  intros Hsock Hlen Henc Hord Hr.
  destruct (release_each_ready h (_leases (self s)) resps s rest
              Hsock Hlen Henc Hord Hr) as (w1 & Heach & Hr1).
  destruct Hr1 as (st & Hu & Hf & Hs & Ht).
  pose proof (usable_nth _ _ _ Hu) as Hn.
  unfold close. unfold bind at 1, get_self. unfold bind at 1. rewrite Heach.
  unfold bind, get_self, set_self, ret, lift, sock_close, bind, log.
  cbn [self wd _sock with_leases with_req_id socks dial trace].
  rewrite Hsock. cbn [self wd socks dial trace]. rewrite Hn.
  eexists. split; [reflexivity|].
  cbn [self wd _leases with_session_id with_sock with_leases with_req_id].
  split; [reflexivity|]. split; [|split; [|split]].
  - unfold is_closed, closed_in. cbn [socks].
    rewrite nth_error_list_set, Nat.eqb_refl, Hn. reflexivity.
  - rewrite (unread_list_set _ h st) by exact Hn. exact Hs.
  - intros Hwf Hok. apply after_releases_accepted; assumption.
  - intros Hno. apply after_releases_refused. exact Hno.
Qed.

Lemma close_settles_leases_witness :
  (_sock (self draining) = Some O /\
   _leases (self draining) = [JStr "L1"; JStr "L2"]) /\
  (exists s',
     close draining = (Ok tt, s') /\
     _leases (self s') = [JStr "L1"] /\
     is_closed (wd s') O = true).
Proof.
  assert (H1 : _sock (self draining) = Some O) by reflexivity.
  split; [split; [exact H1 | reflexivity]|].
  pose proof (close_settles_leases draining O
                [JObj [("id"%string, JNum 3); ("error"%string, expired)];
                 reply (JNum 4) (JObj [])] [] H1 eq_refl) as H.
  match type of H with
  | ?A -> _ => assert (H2 : A)
  end.
  { change (release_requests O (_req_id (self draining)) (_leases (self draining)))
      with [(O, release_request 2 (JStr "L1")); (O, release_request 3 (JStr "L2"))].
    repeat (apply Forall_cons; [vm_compute; reflexivity|]). apply Forall_nil. }
  specialize (H H2).
  match type of H with
  | ?A -> _ => assert (H3 : A)
  end.
  { repeat (apply Forall_cons;
            [split; [reflexivity
                    | split; [vm_compute; discriminate
                             | intros p; vm_compute; discriminate]]|]).
    apply Forall_nil. }
  specialize (H H3).
  match type of H with
  | ?A -> _ => assert (H4 : A)
  end.
  { eexists. split; [reflexivity|]. cbn [rx tx].
    split; [vm_compute; repeat constructor | split; vm_compute; reflexivity]. }
  specialize (H H4).
  destruct H as (s' & Hc & Hl & Hcl & _).
  exists s'. exact (conj Hc (conj Hl Hcl)).
Defined.

(* ================================================================== *)
(** ** Further edges *)

(** X18.  [recv] reads one frame and no more: four bytes of header, then
    as many bytes as the header announces, and its outcome is that of
    [json.loads] on exactly those bytes; what follows stays unread.  For a
    frame that announces no byte at all, [recv] reads nothing after the
    header and raises the [JSONDecodeError] that [json.loads] raises on
    the empty input, which is not a [VaultError]. *)
Theorem recv_reads_one_frame (h : handle) (w : world) (header body rest : bytes) :
  len header = 4 ->
  unpack_u32 header = len body ->
  len body <= MAX_MESSAGE_SIZE ->
  ready w h (header ++ body ++ rest) ->
  (exists w', recv h w = (py_loads body, w') /\ ready w' h rest) /\
  (body = [] ->
   exists w', recv h w = (Raise (Py JSONDecodeError), w') /\ ready w' h rest).
Proof.
  intros Hl Hu Hsz Hr.
  assert (H : exists w', recv h w = (py_loads body, w') /\ ready w' h rest).
  { destruct (_read_exact_ready h w header _ Hr) as (w1 & H1 & Hr1).
    destruct (_read_exact_ready h w1 body rest Hr1) as (w2 & H2 & Hr2).
    exists w2. unfold recv, bind. rewrite Hl in H1. rewrite H1, Hu.
    replace (len body >? MAX_MESSAGE_SIZE) with false
      by (symmetry; rewrite Z.gtb_ltb; apply Z.ltb_ge; exact Hsz).
    rewrite H2. split; [reflexivity | exact Hr2]. }
  split; [exact H|].
  intros ->. exact H.
Qed.

Lemma recv_reads_one_frame_witness :
  (len (repeat "000"%char 4) = 4 /\
   unpack_u32 (repeat "000"%char 4) = len (@nil ascii) /\
   ready (delivering [repeat "000"%char 4 ++ B "tail"]) O
     (repeat "000"%char 4 ++ [] ++ B "tail")) /\
  (exists w',
     recv O (delivering [repeat "000"%char 4 ++ B "tail"])
     = (Raise (Py JSONDecodeError), w') /\
     ready w' O (B "tail")).
Proof.
  assert (H1 : len (repeat "000"%char 4) = 4) by reflexivity.
  assert (H2 : unpack_u32 (repeat "000"%char 4) = len (@nil ascii)) by reflexivity.
  assert (H3 : len (@nil ascii) <= MAX_MESSAGE_SIZE) by (vm_compute; discriminate).
  assert (H4 : ready (delivering [repeat "000"%char 4 ++ B "tail"]) O
                 (repeat "000"%char 4 ++ [] ++ B "tail")).
  { eexists. split; [reflexivity|]. cbn [rx tx map].
    split; [repeat constructor | split; reflexivity]. }
  split; [exact (conj H1 (conj H2 H4))|].
  destruct (recv_reads_one_frame O _ _ [] (B "tail") H1 H2 H3 H4) as (_ & H).
  exact (H eq_refl).
Defined.

(** X19.  What [list] and [use] return.  When the reply of the vault
    carries no error, [use] returns its [result], and the empty dictionary
    when the reply has none; [list] returns the [credentials] of the
    result, and the empty list when the result has none or the reply has
    no result.  A result that is not a dictionary makes [list] raise
    [AttributeError]. *)
Theorem list_and_use_return (s : state) (h : handle) (m : list (string * json))
  (rest : bytes) :
  _sock (self s) = Some h ->
  wf_json (JObj m) = true ->
  len (dumps (JObj m)) <= MAX_MESSAGE_SIZE ->
  raise_on_error (JObj m) = Ok tt ->
  ready (wd s) h (frame (JObj m) ++ rest) ->
  (forall path operation params,
     len (dumps (request (_req_id (self s) + 1) "use"
                   (JObj ([("session_id"%string, _session_id (self s));
                           ("path"%string, JStr path);
                           ("operation"%string, JStr operation)]
                            ++ match params with
                               | Some p =>
                                   if py_truthy p then [("params"%string, p)] else []
                               | None => []
                               end)))) < 4294967296 ->
     fst (use path operation params s)
     = Ok (dict_get_default "result" m (JObj []))) /\
  (len (dumps (request (_req_id (self s) + 1) "list"
                 (JObj [("session_id"%string, _session_id (self s))]))) < 4294967296 ->
   fst (list_ s)
   = py_get (dict_get_default "result" m (JObj [])) "credentials" (JArr []) /\
   (dict_get "result" m = None -> fst (list_ s) = Ok (JArr [])) /\
   (forall l, dict_get "result" m = Some (JArr l) ->
      fst (list_ s) = Raise (Py AttributeError))).
Proof.
  intros Hsock Hwf Hsz Hok Hr.
  assert (Hres : py_get (JObj m) "result" (JObj [])
                 = Ok (dict_get_default "result" m (JObj []))).
  { unfold py_get, dict_get_default. destruct (dict_get "result" m); reflexivity. }
  split.
  - intros path operation params Henc. unfold use, bind, get_self.
    destruct (_call_ready "use" _ s h (JObj m) rest Hsock Henc Hwf Hsz Hr)
      as (w1 & Hc & _).
    rewrite Hc, Hok, Hres. reflexivity.
  - intros Henc.
    destruct (_call_ready "list" _ s h (JObj m) rest Hsock Henc Hwf Hsz Hr)
      as (w1 & Hc & _).
    assert (Hl : fst (list_ s)
                 = py_get (dict_get_default "result" m (JObj [])) "credentials"
                     (JArr [])).
    { unfold list_, bind, get_self, of_result. rewrite Hc, Hok, Hres.
      reflexivity. }
    split; [exact Hl|]. split.
    + intros Hnone. rewrite Hl. unfold dict_get_default. rewrite Hnone. reflexivity.
    + intros l Hsome. rewrite Hl. unfold dict_get_default. rewrite Hsome.
      reflexivity.
Qed.

Lemma list_and_use_return_witness :
  (_sock (self (leasing [] [RxData (frame (JObj [("id"%string, JNum 3)]))] []))
   = Some O /\
   raise_on_error (JObj [("id"%string, JNum 3)]) = Ok tt /\
   dict_get "result" [("id"%string, JNum 3)] = None) /\
  fst (list_ (leasing [] [RxData (frame (JObj [("id"%string, JNum 3)]))] []))
  = Ok (JArr []).
Proof.
  assert (H1 : _sock (self (leasing [] [RxData (frame (JObj [("id"%string, JNum 3)]))] []))
               = Some O) by reflexivity.
  assert (H2 : raise_on_error (JObj [("id"%string, JNum 3)]) = Ok tt) by reflexivity.
  assert (H3 : dict_get "result" [("id"%string, JNum 3)] = None) by reflexivity.
  split; [exact (conj H1 (conj H2 H3))|].
  assert (H4 : len (dumps (JObj [("id"%string, JNum 3)])) <= MAX_MESSAGE_SIZE)
    by (vm_compute; discriminate).
  assert (H5 : ready
                 (wd (leasing [] [RxData (frame (JObj [("id"%string, JNum 3)]))] []))
                 O (frame (JObj [("id"%string, JNum 3)]) ++ [])).
  { eexists. split; [reflexivity|]. cbn [rx tx].
    split; [vm_compute; repeat constructor | split; vm_compute; reflexivity]. }
  destruct (list_and_use_return _ O [("id"%string, JNum 3)] [] H1 eq_refl H4 H2 H5)
    as (_ & H).
  assert (H6 : len (dumps (request 3 "list"
                             (JObj [("session_id"%string, JStr "sess-1")])))
               < 4294967296) by (vm_compute; reflexivity).
  destruct (H H6) as (_ & Hnone & _). exact (Hnone H3).
Defined.

(** X20.  The key is resolved after the socket is opened and before
    anything is sent.  When the key cannot be loaded, [connect] has
    dialled, and raises what the loading raised when the peer accepted the
    connection; it sends no request, and it leaves the counter and the
    session identifier as they were. *)
Theorem key_failure_sends_nothing (E : env) (tgt : option target) (s : state)
  (e : exn) :
  _resolve_key E (self s) = Raise e ->
  requests (trace (wd (snd (connect E tgt s)))) = requests (trace (wd s)) /\
  transmissions (trace (wd (snd (connect E tgt s)))) = transmissions (trace (wd s)) /\
  _req_id (self (snd (connect E tgt s))) = _req_id (self s) /\
  _session_id (self (snd (connect E tgt s))) = _session_id (self s) /\
  List.length (connects (trace (wd (snd (connect E tgt s)))))
  = S (List.length (connects (trace (wd s)))) /\
  (forall rx0 tx0 more,
     dial (wd s) = Accepted rx0 tx0 :: more -> fst (connect E tgt s) = Raise e).
Proof.
  intros Hkey.
  assert (Hd : List.length (connects (trace (wd (snd (connect E tgt s)))))
               = S (List.length (connects (trace (wd s)))))
    by (rewrite connect_dials, length_app; cbn [List.length]; lia).
  revert Hd. rewrite connect_unfold. unfold bind at 1.
  unfold bind, lift, set_self, socket_socket, sock_connect, bind, log.
  cbn [self wd socks dial trace].
  assert (Hauth : forall c w,
            _resolve_key E c = Raise e ->
            _authenticate E (mk_state c w) = (Raise e, mk_state c w)).
  { intros c w Hc. unfold _authenticate, bind, get_self, of_result. cbn [self].
    rewrite Hc. reflexivity. }
  assert (Hsame : forall c, retarget (self s) tgt = c ->
            _req_id c = _req_id (self s) /\ _session_id c = _session_id (self s))
    by (intros c <-; destruct tgt as [[p|hst p]|]; auto).
  destruct (Hsame _ eq_refl) as (Hn & Hsid).
  destruct (dial (wd s)) as [|[|rx0 tx0] more]; cbn [fst snd self wd trace];
    try rewrite Hauth by (rewrite _resolve_key_retarget; exact Hkey);
    cbn [fst snd self wd trace _req_id _session_id with_sock];
    rewrite ?requests_app, ?transmissions_app; cbn [requests transmissions];
    rewrite ?app_nil_r; intros Hd;
    (repeat split; try assumption; try reflexivity; intros; discriminate).
Qed.

Lemma key_failure_sends_nothing_witness :
  _resolve_key toy_env (bot_with_key "/keys/garbled.key") = Raise (Py ValueError) /\
  fst (connect toy_env None
         (mk_state (bot_with_key "/keys/garbled.key") (fresh_world [accepting_peer 0])))
  = Raise (Py ValueError) /\
  requests (trace (wd (snd (connect toy_env None
                              (mk_state (bot_with_key "/keys/garbled.key")
                                 (fresh_world [accepting_peer 0])))))) = [].
Proof.
  assert (H : _resolve_key toy_env (bot_with_key "/keys/garbled.key")
              = Raise (Py ValueError)) by (vm_compute; reflexivity).
  split; [exact H|].
  destruct (key_failure_sends_nothing toy_env None
              (mk_state (bot_with_key "/keys/garbled.key")
                 (fresh_world [accepting_peer 0])) _ H)
    as (Hq & _ & _ & _ & _ & Hr).
  split; [exact (Hr _ _ _ eq_refl) | exact Hq].
Defined.
